(** * Freshness markers and hook lifecycle of the context tools

    A shallow embedding of the scripts [context_audit.py],
    [context_bootstrap.py], [context_update_hash.py],
    [context_check_watches.py], [context_for.py] and [install_hooks.py].

    Text is a sequence of Unicode code points.  A function that takes a
    [content] works, as in the source, on the text [read_text] returned;
    the [main] functions and the loops of the context tools that read files
    themselves take the files as they are stored (see Files below).  A
    hook file of [install_hooks.py] is its text, as [read_text] returns it,
    and its permission bits.  The external collaborators (git, the
    [fnmatch] library function, the clock, the hook template files) are
    parameters of the definitions that use them. *)

From Stdlib Require Import String Ascii.
From stdpp Require Import base tactics option list numbers gmap sets sorting.

Local Open Scope list_scope.
Local Open Scope nat_scope.

(** ** Python strings *)

Definition char := N.
Definition str := list char.

(** A string literal of the source (ASCII only). *)
Fixpoint lit (s : string) : str :=
  match s with
  | EmptyString => []
  | String a s' => N_of_ascii a :: lit s'
  end.

Definition nl : char := 10%N.
Definition cr : char := 13%N.

(** [str.isspace] on one character, which is also what [\s] matches in a
    [str] pattern: U+0009..U+000D, U+001C..U+0020, U+0085, U+00A0, U+1680,
    U+2000..U+200A, U+2028, U+2029, U+202F, U+205F, U+3000. *)
Definition isspace (c : char) : bool :=
  ((9 <=? c) && (c <=? 13) || (28 <=? c) && (c <=? 32)
   || (c =? 133) || (c =? 160) || (c =? 5760)
   || (8192 <=? c) && (c <=? 8202)
   || (c =? 8232) || (c =? 8233) || (c =? 8239) || (c =? 8287)
   || (c =? 12288))%N.

Definition nonspace (c : char) : bool := negb (isspace c).

(** The line boundaries of [str.splitlines], CR apart: LF, VT, FF, FS, GS,
    RS, NEL, LS, PS. *)
Definition linebreak (c : char) : bool :=
  ((10 <=? c) && (c <=? 12) || (28 <=? c) && (c <=? 30)
   || (c =? 133) || (c =? 8232) || (c =? 8233))%N.

Definition char_eqb (a b : char) : bool := (a =? b)%N.

(** [s.startswith(p)] *)
Fixpoint startswith (s p : str) {struct p} : bool :=
  match p with
  | [] => true
  | a :: p' =>
      match s with
      | [] => false
      | b :: s' => char_eqb a b && startswith s' p'
      end
  end.

(** [s.endswith(p)] *)
Definition endswith (s p : str) : bool := startswith (rev s) (rev p).

(** [p in s] for strings: [p] occurs somewhere in [s]. *)
Fixpoint str_in (p s : str) : bool :=
  startswith s p ||
  match s with
  | [] => false
  | _ :: s' => str_in p s'
  end.

Fixpoint lstrip_by (f : char -> bool) (s : str) : str :=
  match s with
  | [] => []
  | c :: s' => if f c then lstrip_by f s' else s
  end.

Definition rstrip_by (f : char -> bool) (s : str) : str :=
  rev (lstrip_by f (rev s)).

(** [s.strip()] *)
Definition strip (s : str) : str := rstrip_by isspace (lstrip_by isspace s).

(** [s.rstrip(chars)] *)
Definition rstrip_chars (chars s : str) : str :=
  rstrip_by (fun c => existsb (char_eqb c) chars) s.

(** [s.splitlines()]: the lines of [s] without their terminators; CR LF is
    one boundary; a final terminator opens no further line. *)
Fixpoint splitlines (s : str) : list str :=
  match s with
  | [] => []
  | c :: s' =>
      if char_eqb c cr then
        match s' with
        | d :: s'' => if char_eqb d nl then [] :: splitlines s''
                      else [] :: splitlines s'
        | [] => [[]]
        end
      else if linebreak c then [] :: splitlines s'
      else
        match splitlines s' with
        | [] => [[c]]
        | l :: ls => (c :: l) :: ls
        end
  end.

(** [sep.join(parts)] *)
Fixpoint join (sep : str) (parts : list str) : str :=
  match parts with
  | [] => []
  | [p] => p
  | p :: ps => p ++ sep ++ join sep ps
  end.

(** [s[a:b]] for [0 <= a], [0 <= b]. *)
Definition slice (s : str) (a b : nat) : str := firstn (b - a) (skipn a s).

(** Comparison of strings as [sorted] uses it: lexicographic on code
    points. *)
Fixpoint str_leb (a b : str) : bool :=
  match a, b with
  | [], _ => true
  | _ :: _, [] => false
  | x :: a', y :: b' =>
      if (x <? y)%N then true
      else if (y <? x)%N then false
      else str_leb a' b'
  end.

Definition str_le (a b : str) : Prop := str_leb a b = true.

#[global] Instance str_le_dec (a b : str) : Decision (str_le a b).
Proof. unfold str_le. apply _. Defined.

(** [sorted(X)] of a set of strings. *)
Definition sorted (X : gset str) : list str := merge_sort str_le (elements X).

(** ** Files

    [Path.read_text(encoding="utf-8")] decodes the bytes of the file and,
    the file being opened in text mode, turns every CR LF and every other
    CR into LF.  On bytes that are not UTF-8 it raises
    [UnicodeDecodeError], which is a [ValueError] and no [OSError]; on a
    file it cannot open or read it raises [OSError].  [Path.write_text]
    stores the text as given: the host is a POSIX system (the hooks are
    [sh] scripts), where [os.linesep] is LF. *)

(** A file as it is stored. *)
Inductive stored :=
| Utf8 (raw : str)          (* UTF-8 bytes: the code points they decode to *)
| NotUtf8                   (* bytes that are not UTF-8 *)
| Unreadable.               (* a file that cannot be opened or read *)

Inductive exn := OSError | UnicodeDecodeError.

(** The translation of line ends in text mode. *)
Fixpoint universal_newlines (s : str) : str :=
  match s with
  | [] => []
  | c :: s' =>
      if char_eqb c cr then
        match s' with
        | d :: s'' => if char_eqb d nl then nl :: universal_newlines s''
                      else nl :: universal_newlines s'
        | [] => [nl]
        end
      else c :: universal_newlines s'
  end.

Definition read_text (f : stored) : exn + str :=
  match f with
  | Utf8 raw => inr (universal_newlines raw)
  | NotUtf8 => inl UnicodeDecodeError
  | Unreadable => inl OSError
  end.

(** The first line an exception that nothing catches prints; the
    interpreter then ends with status 1. *)
Definition TRACEBACK : str := lit "Traceback (most recent call last):".

(** ** The fragment of [re] the patterns use

    A pattern is a sequence of atoms; every repetition in the source
    patterns is over a one-character class.  Alternatives are tried in the
    order of the backtracking matcher: a greedy repetition takes the longest
    run first, a lazy one the shortest. *)

Inductive atom :=
| Lit (l : str)                 (* literal text *)
| StarG (p : char -> bool)      (* [p*]  *)
| PlusG (p : char -> bool)      (* [p+]  *)
| StarL (p : char -> bool)      (* [p*?] *)
| Open (i : nat)                (* start of group [i] *)
| Close (i : nat).              (* end of group [i] *)

Definition regex := list atom.

(** Position reached and group boundaries seen so far. *)
Record mstate := MState {
  pos : nat;
  g_start : nat -> nat;
  g_end : nat -> nat
}.

Definition adv (n : nat) (st : mstate) : mstate :=
  MState (n + pos st) (g_start st) (g_end st).

Definition upd (f : nat -> nat) (i v : nat) : nat -> nat :=
  fun j => if Nat.eqb j i then v else f j.

Definition mark_open (i : nat) (st : mstate) : mstate :=
  MState (pos st) (upd (g_start st) i (pos st)) (g_end st).

Definition mark_close (i : nat) (st : mstate) : mstate :=
  MState (pos st) (g_start st) (upd (g_end st) i (pos st)).

Definition cont := str -> mstate -> option mstate.

Fixpoint greedy (p : char -> bool) (k : cont) (s : str) (st : mstate)
  : option mstate :=
  match s with
  | c :: s' =>
      if p c then
        match greedy p k s' (adv 1 st) with
        | Some r => Some r
        | None => k s st
        end
      else k s st
  | [] => k s st
  end.

Fixpoint lazy (p : char -> bool) (k : cont) (s : str) (st : mstate)
  : option mstate :=
  match k s st with
  | Some r => Some r
  | None =>
      match s with
      | c :: s' => if p c then lazy p k s' (adv 1 st) else None
      | [] => None
      end
  end.

(** [match_k r k]: match [r], then go on with [k] on what is left. *)
Fixpoint match_k (r : regex) (k : cont) (s : str) (st : mstate)
  : option mstate :=
  match r with
  | [] => k s st
  | Lit l :: r' =>
      if startswith s l then
        match_k r' k (skipn (length l) s) (adv (length l) st)
      else None
  | StarG p :: r' => greedy p (match_k r' k) s st
  | PlusG p :: r' =>
      match s with
      | c :: s' => if p c then greedy p (match_k r' k) s' (adv 1 st) else None
      | [] => None
      end
  | StarL p :: r' => lazy p (match_k r' k) s st
  | Open i :: r' => match_k r' k s (mark_open i st)
  | Close i :: r' => match_k r' k s (mark_close i st)
  end.

(** A match of the whole pattern at the head of [s]. *)
Definition accept : cont := fun _ st => Some st.
Definition match_at (r : regex) (s : str) (st : mstate) : option mstate :=
  match_k r accept s st.

Definition init_state (start : nat) : mstate :=
  MState start (fun _ => 0) (fun _ => 0).

(** A match object: where the whole match starts, and the final state. *)
Record rmatch := RMatch { m_start : nat; m_state : mstate }.

Definition m_end (m : rmatch) : nat := pos (m_state m).
Definition start_of (m : rmatch) (i : nat) : nat := g_start (m_state m) i.
Definition end_of (m : rmatch) (i : nat) : nat := g_end (m_state m) i.

(** [m.group(i)] on the searched string. *)
Definition group (m : rmatch) (i : nat) (s : str) : str :=
  slice s (start_of m i) (end_of m i).

(** [pattern.search(s)]: the match at the leftmost start that has one. *)
Fixpoint search_from (r : regex) (s : str) (start : nat) : option rmatch :=
  match match_at r s (init_state start) with
  | Some st => Some (RMatch start st)
  | None =>
      match s with
      | [] => None
      | _ :: s' => search_from r s' (S start)
      end
  end.

Definition re_search (r : regex) (s : str) : option rmatch := search_from r s 0.

(** [re.sub(pattern, repl, s)] for a pattern that matches no empty string
    and a replacement without backslash: every non-overlapping match, from
    the left, is replaced.  [skip] counts the characters of the current
    match still to be passed over. *)
Fixpoint sub_from (r : regex) (repl s : str) (skip : nat) : str :=
  match skip with
  | S n =>
      match s with
      | [] => []
      | _ :: s' => sub_from r repl s' n
      end
  | O =>
      match s with
      | [] => []
      | c :: s' =>
          match match_at r s (init_state 0) with
          | Some st =>
              match pos st with
              | S n => repl ++ sub_from r repl s' n
              | O => c :: sub_from r repl s' 0
              end
          | None => c :: sub_from r repl s' 0
          end
      end
  end.

Definition re_sub (r : regex) (repl s : str) : str := sub_from r repl s 0.

Definition any_char (c : char) : bool := true.


(** ** External collaborators *)

(** Outcome of [subprocess.run(..., check=True)]: the captured standard
    output, or [CalledProcessError] for a non-zero exit status. *)
Inductive completed :=
| Completed (stdout : str)
| CalledProcessError.

(** What the git commands answer in the repository at hand. *)
Record Git := MkGit {
  git_ls_files : completed;              (* git ls-files *)
  git_hash_object : str -> completed;    (* git hash-object --stdin *)
  git_diff_names : completed             (* git diff --name-only HEAD~5..HEAD *)
}.

(** ** The file list that is hashed (the same loop in the three tools) *)

Section Matching.
Variable fnmatch : str -> str -> bool.

(** [for f in all_files: for g in watch_globs: if fnmatch(f, g):
    matched.add(f); break] *)
Definition matched_files (all_files watch_globs : list str) : gset str :=
  fold_left
    (fun (matched : gset str) f =>
       if existsb (fnmatch f) watch_globs then matched ∪ {[ f ]} else matched)
    all_files ∅.

(** The same loop collecting into a list, as [get_changed_files] does. *)
Definition matched_list (files watch_globs : list str) : list str :=
  filter (fun f => existsb (fnmatch f) watch_globs = true) files.
End Matching.

(** ["\n".join(sorted(matched)) + "\n"] *)
Definition sorted_files (matched : gset str) : str :=
  join [nl] (sorted matched) ++ [nl].

(** [result.stdout.strip().splitlines()] *)
Definition stdout_lines (out : str) : list str := splitlines (strip out).

Definition EMPTY_MATCH : str := Eval vm_compute in lit "0000000".
Definition ERROR : str := Eval vm_compute in lit "ERROR".

(** The watches loop of [parse_watches] (update and check tools): it stops
    at the first line after the list that is neither an item nor blank. *)
Fixpoint parse_watches_loop (lines : list str) (in_watches : bool)
    (watches : list str) : list str :=
  match lines with
  | [] => watches
  | line :: rest =>
      let stripped := strip line in
      if startswith stripped (lit "watches:") then
        parse_watches_loop rest true watches
      else if in_watches then
        if startswith stripped (lit "- ") then
          parse_watches_loop rest in_watches
            (watches ++ [strip (skipn 2 stripped)])
        else if negb (bool_decide (stripped = []))
                && negb (startswith stripped (lit "-")) then
          watches
        else parse_watches_loop rest in_watches watches
      else parse_watches_loop rest in_watches watches
  end.

Definition parse_watches (block : str) : list str :=
  parse_watches_loop (splitlines block) false [].

(** ** context_audit.py *)

Module ContextAudit.

(** [<!--\s*freshness\s*\n(.*?)\n\s*-->], DOTALL *)
Definition FRESHNESS_PATTERN : regex :=
  [Lit (lit "<!--"); StarG isspace; Lit (lit "freshness"); StarG isspace;
   Lit [nl]; Open 1; StarL any_char; Close 1;
   Lit [nl]; StarG isspace; Lit (lit "-->")].

(** [watches_hash:\s*(\S+)] *)
Definition HASH_RE : regex :=
  [Lit (lit "watches_hash:"); StarG isspace; Open 1; PlusG nonspace; Close 1].

(** [last_verified:\s*(\S+)] *)
Definition DATE_RE : regex :=
  [Lit (lit "last_verified:"); StarG isspace; Open 1; PlusG nonspace; Close 1].

(** The dictionary [parse_freshness_marker] returns; it is returned only
    with a [watches_hash], so that key is not optional here. *)
Record marker := Marker {
  watches_hash : str;
  last_verified : option str;
  watches : list str
}.

(** [re.search(r"label:\s*(\S+)", block)] and its [group(1)] *)
Definition field (r : regex) (block : str) : option str :=
  match re_search r block with
  | Some m => Some (group m 1 block)
  | None => None
  end.

(** One turn of the loop over [block.splitlines()]. *)
Definition watches_step (st : list str * bool) (line : str)
  : list str * bool :=
  let '(watches, in_watches) := st in
  let stripped := strip line in
  if startswith stripped (lit "watches:") then (watches, true)
  else if in_watches then
    if startswith stripped (lit "- ") then
      (watches ++ [strip (skipn 2 stripped)], in_watches)
    else if negb (bool_decide (stripped = []))
            && negb (startswith stripped (lit "-")) then
      (watches, false)
    else (watches, in_watches)
  else (watches, in_watches).

Definition block_watches (block : str) : list str :=
  fst (fold_left watches_step (splitlines block) ([], false)).

(** The block between the delimiters, when there is one. *)
Definition freshness_block (content : str) : option str :=
  match re_search FRESHNESS_PATTERN content with
  | Some m => Some (group m 1 content)
  | None => None
  end.

Definition parse_freshness_marker (content : str) : option marker :=
  match freshness_block content with
  | None => None
  | Some block =>
      match field HASH_RE block with
      | Some (c :: h) =>
          Some (Marker (c :: h) (field DATE_RE block) (block_watches block))
      | _ => None
      end
  end.

Section WithFnmatch.
Variable fnmatch : str -> str -> bool.

Definition compute_hash (git : Git) (watch_globs : list str) : str :=
  match git_ls_files git with
  | CalledProcessError => ERROR
  | Completed out =>
      let all_files := stdout_lines out in
      let matched := matched_files fnmatch all_files watch_globs in
      if decide (matched = ∅) then EMPTY_MATCH
      else
        match git_hash_object git (sorted_files matched) with
        | Completed digest => firstn 7 (strip digest)
        | CalledProcessError => ERROR
        end
  end.

Definition get_changed_files (git : Git) (watch_globs : list str)
  : list str :=
  match git_diff_names git with
  | CalledProcessError => []
  | Completed out => matched_list fnmatch (stdout_lines out) watch_globs
  end.

(** One row of the report. *)
Inductive row :=
| RowError                                           (* ERROR  *)
| RowNone                                            (* NONE   *)
| RowStale (stored current verified : str) (changed : list str)
| RowOk (stored verified : str).

(** The body of the loop of [main] for one file; [None] is a file that
    could not be read. *)
Definition audit_file (git : Git) (file : option str) : row :=
  match file with
  | None => RowError
  | Some content =>
      match parse_freshness_marker content with
      | None => RowNone
      | Some m =>
          let stored_hash := watches_hash m in
          let current_hash := compute_hash git (watches m) in
          let verified := default (lit "unknown") (last_verified m) in
          if bool_decide (stored_hash ≠ current_hash) then
            RowStale stored_hash current_hash verified
              (get_changed_files git (watches m))
          else RowOk stored_hash verified
      end
  end.

(** The counters of [main]. *)
Record counts := Counts {
  stale_count : nat; ok_count : nat; missing_count : nat
}.

Definition count_row (c : counts) (r : row) : counts :=
  match r with
  | RowError => c
  | RowNone => Counts (stale_count c) (ok_count c) (S (missing_count c))
  | RowStale _ _ _ _ =>
      Counts (S (stale_count c)) (ok_count c) (missing_count c)
  | RowOk _ _ => Counts (stale_count c) (S (ok_count c)) (missing_count c)
  end.

(** What a run of [main] prints. *)
Inductive run :=
| NoContextFiles          (* "No context files found matching known patterns." *)
| Report (rows : list row) (summary : option counts).
                          (* the rows, and the summary line when the loop
                             came to its end *)

(** The loop of [main] over the context files, from the counters [c]: the
    rows printed and the counters at the end.  [except OSError] catches a
    file that cannot be read; [UnicodeDecodeError] is not caught and ends
    the run where it is raised: no further row, no summary. *)
Fixpoint main_loop (git : Git) (files : list stored) (c : counts)
  : list row * option counts :=
  match files with
  | [] => ([], Some c)
  | f :: rest =>
      match read_text f with
      | inl UnicodeDecodeError => ([], None)
      | inl OSError =>
          let r := audit_file git None in
          let '(rows, summary) := main_loop git rest c in
          (r :: rows, summary)
      | inr content =>
          let r := audit_file git (Some content) in
          let '(rows, summary) := main_loop git rest (count_row c r) in
          (r :: rows, summary)
      end
  end.

(** [main] over the context files found, as they are stored. *)
Definition main (git : Git) (context_files : list stored) : run :=
  match context_files with
  | [] => NoContextFiles
  | _ :: _ =>
      let '(rows, summary) := main_loop git context_files (Counts 0 0 0) in
      Report rows summary
  end.
End WithFnmatch.

(** The three verdicts of the staleness evaluator. *)
Inductive verdict := Unmarked | Stale | Current.

Definition verdict_of (r : row) : option verdict :=
  match r with
  | RowError => None
  | RowNone => Some Unmarked
  | RowStale _ _ _ _ => Some Stale
  | RowOk _ _ => Some Current
  end.

End ContextAudit.

(** ** context_bootstrap.py *)

Module ContextBootstrap.

(** [<!--\s*freshness\s*\n.*?\n\s*-->], DOTALL *)
Definition FRESHNESS_PATTERN : regex :=
  [Lit (lit "<!--"); StarG isspace; Lit (lit "freshness"); StarG isspace;
   Lit [nl]; StarL any_char; Lit [nl]; StarG isspace; Lit (lit "-->")].

Definition has_freshness_marker (content : str) : bool :=
  bool_decide (is_Some (re_search FRESHNESS_PATTERN content)).

(** [build_marker]; [today] is [date.today().isoformat()]. *)
Definition build_marker (today watches_hash : str) (watch_globs : list str)
  : str :=
  let watches_lines := join [nl] (map (fun g => lit "  - " ++ g) watch_globs) in
  [nl] ++ lit "<!-- freshness" ++ [nl]
  ++ lit "watches_hash: " ++ watches_hash ++ [nl]
  ++ lit "last_verified: " ++ today ++ [nl]
  ++ lit "watches:" ++ [nl]
  ++ watches_lines ++ [nl]
  ++ lit "-->" ++ [nl].

Section WithFnmatch.
Variable fnmatch : str -> str -> bool.

Definition compute_hash (git : Git) (watch_globs : list str) : str :=
  match git_ls_files git with
  | CalledProcessError => EMPTY_MATCH
  | Completed out =>
      let all_files := stdout_lines out in
      let matched := matched_files fnmatch all_files watch_globs in
      if decide (matched = ∅) then EMPTY_MATCH
      else
        match git_hash_object git (sorted_files matched) with
        | Completed digest => firstn 7 (strip digest)
        | CalledProcessError => EMPTY_MATCH
        end
  end.

(** What [add_marker] reports. *)
Inductive report :=
| AlreadyTracked
| Added (watches_hash : str) (watches : list str).

(** [add_marker] on the text of the file: the text the file holds
    afterwards, and the report. *)
Definition add_marker (git : Git) (today content : str)
    (watch_globs : list str) : str * report :=
  if has_freshness_marker content then (content, AlreadyTracked)
  else
    let watches_hash := compute_hash git watch_globs in
    let marker := build_marker today watches_hash watch_globs in
    let content1 :=
      if endswith content [nl] then content else content ++ [nl] in
    (content1 ++ marker, Added watches_hash watch_globs).
End WithFnmatch.

(** One file that [os.walk] meets: its name, its path, and the file as it
    is stored. *)
Record walked := Walked { fname : str; fpath : str; ftext : stored }.

(** The loop of [scan_directory]: the paths collected in [found]; [None]
    when the loop is left by a [UnicodeDecodeError], which
    [except OSError] does not catch. *)
Fixpoint scan_directory (entries : list walked) : option (list str) :=
  match entries with
  | [] => Some []
  | e :: rest =>
      if negb (endswith (fname e) (lit ".md")) then scan_directory rest
      else
        match read_text (ftext e) with
        | inr content =>
            if negb (has_freshness_marker content) then
              match scan_directory rest with
              | Some found => Some (fpath e :: found)
              | None => None
              end
            else scan_directory rest
        | inl OSError => scan_directory rest
        | inl UnicodeDecodeError => None
        end
  end.

End ContextBootstrap.

(** ** context_update_hash.py *)

Module ContextUpdateHash.

(** [(<!--\s*freshness\s*\n)(.*?)(\n\s*-->)], DOTALL *)
Definition FRESHNESS_PATTERN : regex :=
  [Open 1; Lit (lit "<!--"); StarG isspace; Lit (lit "freshness");
   StarG isspace; Lit [nl]; Close 1;
   Open 2; StarL any_char; Close 2;
   Open 3; Lit [nl]; StarG isspace; Lit (lit "-->"); Close 3].

(** [watches_hash:\s*\S+] *)
Definition HASH_RE : regex :=
  [Lit (lit "watches_hash:"); StarG isspace; PlusG nonspace].

(** [last_verified:\s*\S+] *)
Definition DATE_RE : regex :=
  [Lit (lit "last_verified:"); StarG isspace; PlusG nonspace].

(** How a run of the tool ends. *)
Inductive outcome (A : Type) :=
| Ret (a : A)
| SysExit (code : nat) (message : str).
Arguments Ret {A} a.
Arguments SysExit {A} code message.

Section WithFnmatch.
Variable fnmatch : str -> str -> bool.

Definition compute_hash (git : Git) (watch_globs : list str)
  : outcome str :=
  match git_ls_files git with
  | CalledProcessError => SysExit 1 (lit "Error: git ls-files failed")
  | Completed out =>
      let all_files := stdout_lines out in
      let matched := matched_files fnmatch all_files watch_globs in
      if decide (matched = ∅) then Ret EMPTY_MATCH
      else
        match git_hash_object git (sorted_files matched) with
        | Completed digest => Ret (firstn 7 (strip digest))
        | CalledProcessError =>
            SysExit 1 (lit "Error: git hash-object failed")
        end
  end.

(** The two substitutions of [main] on the block. *)
Definition rewrite_block (new_hash today block : str) : str :=
  let new_block := re_sub HASH_RE (lit "watches_hash: " ++ new_hash) block in
  re_sub DATE_RE (lit "last_verified: " ++ today) new_block.

(** [main] on the file named on the command line, as it is stored;
    [None] is a file that does not exist.  The result is the text stored
    back by [write_text].  Nothing catches an exception of [read_text]. *)
Definition main (git : Git) (today : str) (file : option stored)
  : outcome str :=
  match file with
  | None => SysExit 1 (lit "Error: file not found")
  | Some f =>
      match read_text f with
      | inl _ => SysExit 1 TRACEBACK
      | inr content =>
          match re_search FRESHNESS_PATTERN content with
          | None => SysExit 1 (lit "Error: no freshness marker found")
          | Some m =>
              let block := group m 2 content in
              let watches := parse_watches block in
              match watches with
              | [] =>
                  SysExit 1 (lit "Error: no watches found in freshness marker")
              | _ :: _ =>
                  match compute_hash git watches with
                  | SysExit c msg => SysExit c msg
                  | Ret new_hash =>
                      let new_block := rewrite_block new_hash today block in
                      Ret (firstn (start_of m 2) content ++ new_block
                           ++ skipn (end_of m 2) content)
                  end
              end
          end
      end
  end.
End WithFnmatch.

End ContextUpdateHash.

(** ** context_check_watches.py *)

Module ContextCheckWatches.

Definition FRESHNESS_PATTERN : regex := ContextAudit.FRESHNESS_PATTERN.

(** The entry [find_tracked_context_files] records for one readable
    file: its watches, when it has a marker block with a non-empty list. *)
Definition tracked_watches (content : str) : option (list str) :=
  match re_search FRESHNESS_PATTERN content with
  | None => None
  | Some m =>
      match parse_watches (group m 1 content) with
      | [] => None
      | w :: ws => Some (w :: ws)
      end
  end.

(** [find_tracked_context_files] over the files the context globs find, in
    the order found, each as it is stored; [None] when the loop is left by
    a [UnicodeDecodeError], which [except OSError] does not catch. *)
Fixpoint find_tracked_context_files (files : list (str * stored))
  : option (list (str * list str)) :=
  match files with
  | [] => Some []
  | (fpath, f) :: rest =>
      match read_text f with
      | inl OSError => find_tracked_context_files rest
      | inl UnicodeDecodeError => None
      | inr content =>
          match tracked_watches content with
          | Some watches =>
              match find_tracked_context_files rest with
              | Some results => Some ((fpath, watches) :: results)
              | None => None
              end
          | None => find_tracked_context_files rest
          end
      end
  end.

Section WithFnmatch.
Variable fnmatch : str -> str -> bool.

(** [for glob_pattern in watches: if fnmatch(modified, glob_pattern):
    print(...); warned = True; break]: whether the warning was printed. *)
Fixpoint glob_loop (modified : str) (watches : list str) : bool :=
  match watches with
  | [] => false
  | glob_pattern :: rest =>
      if fnmatch modified glob_pattern then true else glob_loop modified rest
  end.

(** [for modified in modified_files: ...; if warned: break]: the file the
    warning names, when one was printed. *)
Fixpoint modified_loop (watches modified_files : list str) : option str :=
  match modified_files with
  | [] => None
  | modified :: rest =>
      if glob_loop modified watches then Some modified
      else modified_loop watches rest
  end.

(** The loop of [main] over the tracked context files: the warnings
    printed, each with the context file and the modified file it names. *)
Fixpoint warnings (tracked : list (str * list str)) (modified_files : list str)
  : list (str * str) :=
  match tracked with
  | [] => []
  | (context_file, watches) :: rest =>
      match modified_loop watches modified_files with
      | Some modified => (context_file, modified) :: warnings rest modified_files
      | None => warnings rest modified_files
      end
  end.

(** [main]: the warnings and the exit status; [modified_files] is
    [sys.argv[1:]].  An exception that leaves
    [find_tracked_context_files] ends the run with status 1, before any
    warning. *)
Definition main (modified_files : list str) (files : list (str * stored))
  : list (str * str) * nat :=
  match modified_files with
  | [] => ([], 0)
  | _ :: _ =>
      match find_tracked_context_files files with
      | None => ([], 1)
      | Some [] => ([], 0)
      | Some tracked => (warnings tracked modified_files, 0)
      end
  end.
End WithFnmatch.

End ContextCheckWatches.

(** ** context_for.py *)

Module ContextFor.

Section WithFnmatch.
Variable fnmatch : str -> str -> bool.

Fixpoint find_context_for_file (filepath : str) (mappings : list (str * str))
  : list str :=
  match mappings with
  | [] => []
  | (glob_pattern, context_file) :: rest =>
      if fnmatch filepath glob_pattern then
        context_file :: find_context_for_file filepath rest
      else find_context_for_file filepath rest
  end.

(** The loop of [mode_auto] that collects each context file once: one
    turn of the inner loop, on [seen] and [context_files]. *)
Definition collect_step (st : gset str * list str) (context_file : str)
  : gset str * list str :=
  let '(seen, context_files) := st in
  if decide (context_file ∈ seen) then (seen, context_files)
  else (seen ∪ {[ context_file ]}, context_files ++ [context_file]).

Definition collect (modified : list str) (mappings : list (str * str))
  : list str :=
  snd (fold_left
         (fun st filepath =>
            fold_left collect_step (find_context_for_file filepath mappings) st)
         modified (∅, [])).
End WithFnmatch.

(** [s.split(sep)] for a separator of one character. *)
Fixpoint split (sep : char) (s : str) : list str :=
  match s with
  | [] => [[]]
  | c :: s' =>
      if char_eqb c sep then [] :: split sep s'
      else
        match split sep s' with
        | [] => [[c]]
        | p :: ps => (c :: p) :: ps
        end
  end.

(** [s.strip(chars)] *)
Definition strip_chars (chars s : str) : str :=
  rstrip_chars chars (lstrip_by (fun c => existsb (char_eqb c) chars) s).

Definition backtick : char := 96%N.
Definition bar : char := 124%N.
Definition comma : char := 44%N.

Definition HEADER_CELLS : list str :=
  [lit "directory"; lit "glob"; lit "---"; lit "----"].

(** The innermost loop of [parse_context_index], over [raw_globs]: the
    mappings appended. *)
Fixpoint glob_rows (raw_globs : list str) (context_file : str)
  : list (str * str) :=
  match raw_globs with
  | [] => []
  | glob_pattern :: rest =>
      match strip glob_pattern with
      | [] => glob_rows rest context_file
      | c :: g => (c :: g, context_file) :: glob_rows rest context_file
      end
  end.

Section Index.
Variable lower : str -> str.             (* [str.lower] *)

(** One turn of the loop of [parse_context_index] over the lines of the
    section: the mappings the line adds. *)
Definition index_row (line : str) : list (str * str) :=
  let line := strip line in
  if negb (startswith line [bar]) then []
  else
    let cells := map strip (split bar line) in
    let cells := filter (fun c => c <> []) cells in
    match cells with
    | glob_cell :: file_cell :: _ =>
        if bool_decide (lower glob_cell ∈ HEADER_CELLS)
           || str_in (lit "---") glob_cell then []
        else
          let context_file := strip_chars [backtick] file_cell in
          match context_file with
          | [] => []
          | _ :: _ =>
              let raw_globs :=
                map (fun g => strip_chars [backtick] (strip g))
                  (split comma glob_cell) in
              glob_rows raw_globs context_file
          end
    | _ => []
    end.

(** The loop of [parse_context_index] over the section it found. *)
Definition index_rows (section : str) : list (str * str) :=
  flat_map index_row (splitlines section).
End Index.

(** The loop of [get_modified_files] over the lines of
    [git status --porcelain --no-renames]. *)
Fixpoint status_files (lines : list str) : list str :=
  match lines with
  | [] => []
  | line :: rest =>
      if length line <? 4 then status_files rest
      else
        let filename := strip (skipn 3 line) in
        match filename with
        | [] => status_files rest
        | _ :: _ => filename :: status_files rest
        end
  end.

Definition get_modified_files (status : completed) : list str :=
  match status with
  | CalledProcessError => []
  | Completed out => status_files (stdout_lines out)
  end.

End ContextFor.

(** ** install_hooks.py *)

Module InstallHooks.

Definition dq : char := 34%N.       (* the double quote *)
Definition emdash : char := 8212%N.

Definition _POST_COMMIT_HOOK : str :=
  lit "#!/bin/sh" ++ [nl]
  ++ lit "# Context freshness check " ++ [emdash]
  ++ lit " warns if committed files affect context" ++ [nl]
  ++ lit "SCRIPTS_DIR=" ++ [dq]
  ++ lit "$(git rev-parse --show-toplevel)/scripts" ++ [dq] ++ [nl]
  ++ lit "if command -v python3 >/dev/null 2>&1 && [ -f " ++ [dq]
  ++ lit "$SCRIPTS_DIR/context_check_watches.py" ++ [dq]
  ++ lit " ]; then" ++ [nl]
  ++ lit "  git diff-tree --no-commit-id --name-only -r HEAD | xargs python3 "
  ++ [dq] ++ lit "$SCRIPTS_DIR/context_check_watches.py" ++ [dq]
  ++ lit " 2>/dev/null" ++ [nl]
  ++ lit "fi" ++ [nl].

Definition _POST_MERGE_HOOK : str :=
  lit "#!/bin/sh" ++ [nl]
  ++ lit "# Context freshness audit after merge/pull" ++ [nl]
  ++ lit "SCRIPTS_DIR=" ++ [dq]
  ++ lit "$(git rev-parse --show-toplevel)/scripts" ++ [dq] ++ [nl]
  ++ lit "if command -v python3 >/dev/null 2>&1 && [ -f " ++ [dq]
  ++ lit "$SCRIPTS_DIR/context_audit.py" ++ [dq] ++ lit " ]; then" ++ [nl]
  ++ lit "  python3 " ++ [dq] ++ lit "$SCRIPTS_DIR/context_audit.py" ++ [dq]
  ++ lit " 2>/dev/null" ++ [nl]
  ++ lit "fi" ++ [nl].

(** The two hook points. *)
Inductive hook := PostCommit | PostMerge.

Definition _INLINE_HOOKS (name : hook) : str :=
  match name with
  | PostCommit => _POST_COMMIT_HOOK
  | PostMerge => _POST_MERGE_HOOK
  end.

Definition CONTEXT_HOOK_MARKER : str := lit "progressive-context".
Definition CONTEXT_HOOK_SIGNATURES : list str :=
  [lit "context_check_watches"; lit "context_audit"].

(** [any(sig in text for sig in CONTEXT_HOOK_SIGNATURES)] *)
Definition has_signature (text : str) : bool :=
  existsb (fun sig => str_in sig text) CONTEXT_HOOK_SIGNATURES.

(** A hook file: its text and its permission bits. *)
Record file := File { text : str; mode : N }.

(** [chmod +x]: [st_mode | S_IEXEC | S_IXGRP | S_IXOTH] *)
Definition make_executable (f : file) : file :=
  File (text f) (N.lor (mode f) 73).

(** What the host gives: the template files under references/githooks
    when they exist, the scripts directory named in the pre-commit entry,
    the permission bits of a newly created file, and whether
    [git config core.hooksPath .githooks] succeeds. *)
Record Host := MkHost {
  template_file : hook -> option str;
  scripts_dir : str;
  create_mode : N;
  config_writable : bool
}.

Definition read_template (h : Host) (name : hook) : str :=
  match template_file h name with
  | Some t => t
  | None => _INLINE_HOOKS name
  end.

(** The loop of [write_hook] that passes over the shebang and the comment
    lines at the head of the template. *)
Fixpoint skip_header (lines : list str) (i body_start : nat) : nat :=
  match lines with
  | [] => body_start
  | line :: rest =>
      if startswith line (lit "#!") then skip_header rest (S i) (S i)
      else if startswith line (lit "#") && Nat.eqb i body_start then
        skip_header rest (S i) (S i)
      else body_start
  end.

(** What is appended to a hook file that has other content. *)
Definition appended (content : str) : str :=
  let lines := splitlines content in
  let body_start := skip_header lines 0 0 in
  [nl] ++ lit "# --- progressive-context hooks ---" ++ [nl]
  ++ join [nl] (skipn body_start lines) ++ [nl].

(** [write_hook]: the file afterwards, and whether it was written. *)
Definition write_hook (h : Host) (hook_file : option file) (content : str)
  : option file * bool :=
  match hook_file with
  | Some f =>
      let existing := text f in
      if str_in (lit "context_check_watches") existing
         || str_in (lit "context_audit") existing then
        (Some f, false)
      else
        (Some (make_executable (File (existing ++ appended content) (mode f))),
         true)
  | None =>
      (Some (make_executable (File content (create_mode h))), true)
  end.

(** The part of the repository the installer looks at and changes. *)
Record repo := Repo {
  husky : bool;                          (* what [detect_husky] answers *)
  husky_post_commit : option file;       (* .husky/post-commit *)
  husky_post_merge : option file;        (* .husky/post-merge *)
  precommit_config : option str;         (* .pre-commit-config.yaml *)
  githooks_dir : bool;                   (* .githooks/ exists *)
  githooks_post_commit : option file;    (* .githooks/post-commit *)
  githooks_post_merge : option file;     (* .githooks/post-merge *)
  hooks_path : str                       (* git config core.hooksPath *)
}.

Definition detect_husky (r : repo) : bool := husky r.
Definition detect_precommit (r : repo) : bool :=
  bool_decide (is_Some (precommit_config r)).

Definition install_husky (h : Host) (r : repo) : repo :=
  let post_commit := read_template h PostCommit in
  let post_merge := read_template h PostMerge in
  Repo (husky r)
    (fst (write_hook h (husky_post_commit r) post_commit))
    (fst (write_hook h (husky_post_merge r) post_merge))
    (precommit_config r) (githooks_dir r)
    (githooks_post_commit r) (githooks_post_merge r) (hooks_path r).

Definition hook_entry (h : Host) : str :=
  [nl] ++ lit "# --- progressive-context hooks ---" ++ [nl]
  ++ lit "- repo: local" ++ [nl]
  ++ lit "  hooks:" ++ [nl]
  ++ lit "    - id: context-check-watches" ++ [nl]
  ++ lit "      name: Check context freshness" ++ [nl]
  ++ lit "      entry: python3 " ++ scripts_dir h
  ++ lit "/context_check_watches.py" ++ [nl]
  ++ lit "      language: system" ++ [nl]
  ++ lit "      stages: [post-commit]" ++ [nl]
  ++ lit "      always_run: true" ++ [nl]
  ++ lit "    - id: context-audit" ++ [nl]
  ++ lit "      name: Context audit (post-merge)" ++ [nl]
  ++ lit "      entry: python3 " ++ scripts_dir h
  ++ lit "/context_audit.py" ++ [nl]
  ++ lit "      language: system" ++ [nl]
  ++ lit "      stages: [post-merge]" ++ [nl]
  ++ lit "      always_run: true" ++ [nl].

(** [install_precommit] on the text of the configuration file. *)
Definition install_precommit_text (h : Host) (content : str) : str :=
  if str_in (lit "context_check_watches") content then content
  else content ++ hook_entry h.

Definition install_precommit (h : Host) (r : repo) : repo :=
  Repo (husky r) (husky_post_commit r) (husky_post_merge r)
    (install_precommit_text h <$> precommit_config r) (githooks_dir r)
    (githooks_post_commit r) (githooks_post_merge r) (hooks_path r).

Definition install_plain_git (h : Host) (r : repo) : repo :=
  let post_commit := read_template h PostCommit in
  let post_merge := read_template h PostMerge in
  let current_path := strip (hooks_path r) in
  Repo (husky r) (husky_post_commit r) (husky_post_merge r)
    (precommit_config r) true
    (fst (write_hook h (githooks_post_commit r) post_commit))
    (fst (write_hook h (githooks_post_merge r) post_merge))
    (if bool_decide (current_path ≠ lit ".githooks") then
       if config_writable h then lit ".githooks" else hooks_path r
     else hooks_path r).

(** The install branch of [main]. *)
Definition install (h : Host) (r : repo) : repo :=
  if detect_husky r then install_husky h r
  else if detect_precommit r then install_precommit h r
  else install_plain_git h r.

Definition SHELL_SCAFFOLDING : list str :=
  [lit "if"; lit "fi"; lit "then"; lit "else"; lit "elif"; lit "done";
   lit "do"].

Definition _is_ours (line : str) : bool :=
  let s := strip line in
  if bool_decide (s = []) || startswith s (lit "#")
     || startswith line (lit "#!/") then true
  else if has_signature line then true
  else if str_in CONTEXT_HOOK_MARKER line then true
  else if str_in (lit "SCRIPTS_DIR=") line
          || str_in (lit "command -v python3") line then true
  else if str_in (lit "xargs python3") line
          || str_in (lit "git diff-tree") line then true
  else if bool_decide (rstrip_chars (lit ";") s ∈ SHELL_SCAFFOLDING) then true
  else false.

(** The second loop of [_remove_hook_file]; the lines appended to
    [cleaned], in order. *)
Fixpoint clean_lines (lines : list str) (skip_block : bool) : list str :=
  match lines with
  | [] => []
  | line :: rest =>
      if str_in CONTEXT_HOOK_MARKER line then clean_lines rest true
      else if skip_block && has_signature line then clean_lines rest true
      else if skip_block && bool_decide (strip line = []) then
        clean_lines rest true
      else if _is_ours line && negb (startswith line (lit "#!/")) then
        clean_lines rest false
      else line :: clean_lines rest false
  end.

(** [_remove_hook_file]: the file afterwards ([None]: no such file), and
    whether something was removed. *)
Definition _remove_hook_file (hook_file : option file) : option file * bool :=
  match hook_file with
  | None => (None, false)
  | Some f =>
      let content := text f in
      if negb (has_signature content) then (Some f, false)
      else
        let foreign_lines :=
          filter (fun l => _is_ours l = false) (splitlines content) in
        match foreign_lines with
        | [] => (None, true)
        | _ :: _ =>
            let cleaned := clean_lines (splitlines content) false in
            (Some (File (join [nl] cleaned ++ [nl]) (mode f)), true)
        end
  end.

Definition uninstall_husky (r : repo) : repo :=
  Repo (husky r)
    (fst (_remove_hook_file (husky_post_commit r)))
    (fst (_remove_hook_file (husky_post_merge r)))
    (precommit_config r) (githooks_dir r)
    (githooks_post_commit r) (githooks_post_merge r) (hooks_path r).

(** The loop of [uninstall_precommit]; the lines appended to [cleaned]. *)
Fixpoint precommit_clean (lines : list str) (skip : bool) : list str :=
  match lines with
  | [] => []
  | line :: rest =>
      if str_in CONTEXT_HOOK_MARKER line then precommit_clean rest true
      else if skip then
        let stripped := strip line in
        if startswith stripped (lit "- repo:")
           && negb (str_in (lit "local") stripped) then
          line :: precommit_clean rest false
        else precommit_clean rest skip
      else line :: precommit_clean rest skip
  end.

(** [uninstall_precommit] on the text of the configuration file. *)
Definition uninstall_precommit_text (content : str) : str :=
  if negb (str_in CONTEXT_HOOK_MARKER content) then content
  else join [nl] (precommit_clean (splitlines content) false) ++ [nl].

Definition uninstall_precommit (r : repo) : repo :=
  Repo (husky r) (husky_post_commit r) (husky_post_merge r)
    (uninstall_precommit_text <$> precommit_config r) (githooks_dir r)
    (githooks_post_commit r) (githooks_post_merge r) (hooks_path r).

(** [uninstall_plain_git]; [others] says whether [.githooks/] holds
    entries besides the two hook files, and unsetting [core.hooksPath]
    succeeds when the configuration can be written. *)
Definition uninstall_plain_git (h : Host) (others : bool) (r : repo) : repo :=
  if githooks_dir r then
    let post_commit := fst (_remove_hook_file (githooks_post_commit r)) in
    let post_merge := fst (_remove_hook_file (githooks_post_merge r)) in
    match post_commit, post_merge, others with
    | None, None, false =>
        Repo (husky r) (husky_post_commit r) (husky_post_merge r)
          (precommit_config r) false None None
          (if config_writable h then [] else hooks_path r)
    | _, _, _ =>
        Repo (husky r) (husky_post_commit r) (husky_post_merge r)
          (precommit_config r) true post_commit post_merge (hooks_path r)
    end
  else r.

(** The uninstall branch of [main]. *)
Definition uninstall (h : Host) (others : bool) (r : repo) : repo :=
  if detect_husky r then uninstall_husky r
  else if detect_precommit r then uninstall_precommit r
  else uninstall_plain_git h others r.

End InstallHooks.

(** * Properties

    ** Vocabulary of the statements *)

(** A line of a hook file as the code classifies it: owned when
    [_is_ours] says so, foreign otherwise; a shebang line starts with
    [#!/]. *)
Definition foreign (line : str) : Prop := InstallHooks._is_ours line = false.
Definition shebang (line : str) : Prop := startswith line (lit "#!/") = true.

#[global] Instance foreign_dec line : Decision (foreign line).
Proof. unfold foreign. apply _. Defined.

(** The classes as the specification lists them: a line is owned when it
    is blank, a comment, a shebang line, holds one of the call signatures,
    is a shell scaffolding keyword or holds the sentinel marker; it is
    foreign otherwise. *)
Definition spec_owned (line : str) : bool :=
  let s := strip line in
  bool_decide (s = [])
  || startswith s (lit "#")
  || startswith line (lit "#!/")
  || InstallHooks.has_signature line
  || bool_decide (rstrip_chars (lit ";") s ∈ InstallHooks.SHELL_SCAFFOLDING)
  || str_in InstallHooks.CONTEXT_HOOK_MARKER line.

Definition spec_foreign (line : str) : Prop := spec_owned line = false.

#[global] Instance spec_foreign_dec line : Decision (spec_foreign line).
Proof. unfold spec_foreign. apply _. Defined.


(** The characters at which [splitlines] cuts, and text that holds none. *)
Definition is_break (c : char) : bool := char_eqb c cr || linebreak c.
Definition one_line (l : str) : Prop :=
  forallb (fun c => negb (is_break c)) l = true.

(** The least number of characters a pattern consumes. *)
Definition atom_len (a : atom) : nat :=
  match a with
  | Lit l => length l
  | PlusG _ => 1
  | _ => 0
  end.

Fixpoint min_len (r : regex) : nat :=
  match r with
  | [] => 0
  | a :: r' => atom_len a + min_len r'
  end.

(** ** Instances for the examples

    A matcher with the wildcards [*] (any run of characters) and [?] (any
    one character), standing for [fnmatch] in the worked examples. *)
Fixpoint star_match (k : str -> bool) (name : str) : bool :=
  k name ||
  match name with
  | [] => false
  | _ :: name' => star_match k name'
  end.

Fixpoint glob_pat (pat name : str) : bool :=
  match pat with
  | [] => bool_decide (name = [])
  | c :: pat' =>
      if char_eqb c 42%N then star_match (glob_pat pat') name
      else
        match name with
        | [] => false
        | d :: name' => (char_eqb c 63%N || char_eqb c d) && glob_pat pat' name'
        end
  end.

Definition glob_match (name pat : str) : bool := glob_pat pat name.

(** ** git's own hashing

    [git hash-object --stdin] answers, in hexadecimal, the SHA-1 of the
    blob: the header ["blob <n>\0"] followed by the [n] bytes of the input,
    which for text is its UTF-8 form.  It stands for the hashing command in
    the worked examples. *)

Local Open Scope N_scope.

Definition w32 (x : N) : N := N.land x 0xFFFFFFFF.

Definition rotl (n x : N) : N :=
  w32 (N.lor (N.shiftl x n) (N.shiftr x (32 - n))).

(** Big-endian 32-bit words of a byte sequence. *)
Fixpoint words_of (bytes : list N) : list N :=
  match bytes with
  | a :: b :: c :: d :: rest =>
      (((a * 256 + b) * 256 + c) * 256 + d) :: words_of rest
  | _ => []
  end.

(** The message schedule, latest word first. *)
Fixpoint expand (n : nat) (ws : list N) : list N :=
  match n with
  | O => ws
  | S n' =>
      expand n'
        (rotl 1 (N.lxor (N.lxor (nth 2 ws 0) (nth 7 ws 0))
                        (N.lxor (nth 13 ws 0) (nth 15 ws 0))) :: ws)
  end.

Definition sha1_f (t : nat) (b c d : N) : N :=
  if (t <? 20)%nat then N.lor (N.land b c) (N.land (N.lxor b 0xFFFFFFFF) d)
  else if (t <? 40)%nat then N.lxor (N.lxor b c) d
  else if (t <? 60)%nat then
    N.lor (N.lor (N.land b c) (N.land b d)) (N.land c d)
  else N.lxor (N.lxor b c) d.

Definition sha1_k (t : nat) : N :=
  if (t <? 20)%nat then 0x5A827999
  else if (t <? 40)%nat then 0x6ED9EBA1
  else if (t <? 60)%nat then 0x8F1BBCDC
  else 0xCA62C1D6.

Definition sha1_state : Type := N * N * N * N * N.

Fixpoint sha1_rounds (t : nat) (ws : list N) (s : sha1_state) : sha1_state :=
  match ws with
  | [] => s
  | w :: ws' =>
      let '(a, b, c, d, e) := s in
      let temp := w32 (rotl 5 a + sha1_f t b c d + e + sha1_k t + w) in
      sha1_rounds (S t) ws' (temp, a, rotl 30 b, c, d)
  end.

Definition sha1_block (h : sha1_state) (block : list N) : sha1_state :=
  let '(h0, h1, h2, h3, h4) := h in
  let ws := rev (expand 64 (rev (words_of block))) in
  let '(a, b, c, d, e) := sha1_rounds 0 ws h in
  (w32 (h0 + a), w32 (h1 + b), w32 (h2 + c), w32 (h3 + d), w32 (h4 + e)).

Fixpoint sha1_blocks (n : nat) (h : sha1_state) (bytes : list N) : sha1_state :=
  match n with
  | O => h
  | S n' => sha1_blocks n' (sha1_block h (firstn 64 bytes)) (skipn 64 bytes)
  end.

Definition be_bytes (k : nat) (x : N) : list N :=
  map (fun i => N.land (N.shiftr x (8 * N.of_nat i)) 255) (rev (seq 0 k)).

Definition sha1_pad (msg : list N) : list N :=
  let len := length msg in
  let zeros := ((119 - len mod 64) mod 64)%nat in
  msg ++ [128] ++ repeat 0 zeros ++ be_bytes 8 (8 * N.of_nat len).

Definition sha1 (msg : list N) : list N :=
  let padded := sha1_pad msg in
  let '(h0, h1, h2, h3, h4) :=
    sha1_blocks (length padded / 64)
      (0x67452301, 0xEFCDAB89, 0x98BADCFE, 0x10325476, 0xC3D2E1F0) padded in
  be_bytes 4 h0 ++ be_bytes 4 h1 ++ be_bytes 4 h2 ++ be_bytes 4 h3
  ++ be_bytes 4 h4.

Definition hex_digit (x : N) : char := if x <? 10 then 48 + x else 87 + x.

Definition hex (bytes : list N) : str :=
  flat_map (fun b => [hex_digit (b / 16); hex_digit (b mod 16)]) bytes.

(** The UTF-8 form of a text. *)
Definition utf8_char (c : char) : list N :=
  if c <? 0x80 then [c]
  else if c <? 0x800 then [0xC0 + c / 64; 0x80 + c mod 64]
  else if c <? 0x10000 then
    [0xE0 + c / 4096; 0x80 + (c / 64) mod 64; 0x80 + c mod 64]
  else [0xF0 + c / 262144; 0x80 + (c / 4096) mod 64;
        0x80 + (c / 64) mod 64; 0x80 + c mod 64].

Definition utf8 (s : str) : list N := flat_map utf8_char s.

Fixpoint decimal_from (fuel : nat) (n : N) (acc : str) : str :=
  match fuel with
  | O => acc
  | S fuel' =>
      let acc' := (48 + n mod 10) :: acc in
      if n / 10 =? 0 then acc' else decimal_from fuel' (n / 10) acc'
  end.

Definition decimal (n : nat) : str := decimal_from (S n) (N.of_nat n) [].

(** [git hash-object --stdin] on text. *)
Definition git_blob_digest (blob : str) : str :=
  let bytes := utf8 blob in
  hex (sha1 (lit "blob " ++ decimal (length bytes) ++ [0] ++ bytes)).

Local Close Scope N_scope.

Definition hash_object (blob : str) : completed :=
  Completed (git_blob_digest blob ++ [nl]).

(** A repository tracking three files, with a working git. *)
Definition sample_tracked : str :=
  lit "src/main.py" ++ [nl] ++ lit "README.md" ++ [nl]
  ++ lit "src/app.py" ++ [nl].

Definition sample_git : Git :=
  MkGit (Completed sample_tracked) hash_object
        (Completed (lit "src/app.py" ++ [nl])).

(** The same repository when [git hash-object] fails, and when
    [git ls-files] fails. *)
Definition git_hash_fails : Git :=
  MkGit (Completed sample_tracked) (fun _ => CalledProcessError)
        CalledProcessError.

Definition git_ls_fails : Git :=
  MkGit CalledProcessError hash_object CalledProcessError.

(** A document with a marker in the form the bootstrap tool writes; the
    hash is the fingerprint of the two files under [src/]. *)
Definition sample_doc : str :=
  lit "# Notes" ++ [nl]
  ++ [nl] ++ lit "<!-- freshness" ++ [nl]
  ++ lit "watches_hash: 2dd1d0b" ++ [nl]
  ++ lit "last_verified: 2026-01-15" ++ [nl]
  ++ lit "watches:" ++ [nl]
  ++ lit "  - src/*" ++ [nl]
  ++ lit "-->" ++ [nl].

(** A document whose delimiter block holds a hash and no watches. *)
Definition doc_without_watches : str :=
  lit "# Notes" ++ [nl]
  ++ lit "<!-- freshness" ++ [nl]
  ++ lit "watches_hash: abc1234" ++ [nl]
  ++ lit "-->" ++ [nl].

(** The files a tool sees as tracked, and the set its loop matches. *)
Definition tracked (git : Git) : list str :=
  match git_ls_files git with
  | Completed out => stdout_lines out
  | CalledProcessError => []
  end.

Definition matched (fnmatch : str -> str -> bool) (git : Git)
    (watch_globs : list str) : gset str :=
  matched_files fnmatch (tracked git) watch_globs.

(** A git command that [compute_hash] runs ends with a non-zero status. *)
Definition hashing_fails (fnmatch : str -> str -> bool) (git : Git)
    (watch_globs : list str) : Prop :=
  git_ls_files git = CalledProcessError
  \/ (matched fnmatch git watch_globs <> ∅
      /\ git_hash_object git (sorted_files (matched fnmatch git watch_globs))
         = CalledProcessError).

(** The verdict of the audit on a readable document. *)
Definition audit_verdict (fnmatch : str -> str -> bool) (git : Git)
    (content : str) : option ContextAudit.verdict :=
  ContextAudit.verdict_of (ContextAudit.audit_file fnmatch git (Some content)).

(** A repository that tracks [notes/n126867652.md], with a working git:
    the digest of the one-line list of that path begins with seven zeros. *)
Definition zero_prefix_path : str := lit "notes/n126867652.md".

Definition zero_prefix_git : Git :=
  MkGit (Completed (lit "README.md" ++ [nl] ++ zero_prefix_path ++ [nl]))
        hash_object CalledProcessError.


(** A template can be installed again and again when it, and the part of
    it that is appended to an existing hook, both spell a call signature. *)
Definition spells_signature (text : str) : bool :=
  str_in (lit "context_check_watches") text || str_in (lit "context_audit") text.

Definition template_ok (template : str) : bool :=
  spells_signature template && spells_signature (InstallHooks.appended template).

(** A host without template files, and a repository with plain git hooks
    in which the user already has a post-commit hook. *)
Definition sample_host : InstallHooks.Host :=
  InstallHooks.MkHost (fun _ => None) (lit "/opt/skill/scripts") 420 true.

Definition sample_repo : InstallHooks.repo :=
  InstallHooks.Repo false None None None true
    (Some (InstallHooks.File (lit "#!/bin/sh" ++ [nl] ++ lit "make lint" ++ [nl]) 493))
    None [].

(** A document without a marker. *)
Definition plain_doc : str := lit "# Notes" ++ [nl] ++ lit "See src.".

(** A token: one or more characters, none of them white space (what
    [\S+] matches in full). *)
Definition token (v : str) : Prop := v <> [] /\ forallb nonspace v = true.

(** The claim on the update tool as the specification words it: the new
    text is the old one with the two field values exchanged, and nothing
    else touched. *)
Definition only_values_rewritten (old new old_hash old_date new_hash new_date : str)
  : Prop :=
  exists pre mid post,
    old = pre ++ old_hash ++ mid ++ old_date ++ post
    /\ new = pre ++ new_hash ++ mid ++ new_date ++ post.

(** A marker whose hash label is followed by two spaces; hash and date are
    those the sample repository gives on 2026-01-15. *)
Definition doc_two_spaces : str :=
  lit "# Notes" ++ [nl]
  ++ lit "<!-- freshness" ++ [nl]
  ++ lit "watches_hash:  2dd1d0b" ++ [nl]
  ++ lit "last_verified: 2026-01-15" ++ [nl]
  ++ lit "watches:" ++ [nl]
  ++ lit "  - src/*" ++ [nl]
  ++ lit "-->" ++ [nl].

(** The sample document stored with CR LF line ends, hash and date being
    those the sample repository gives on 2026-01-15; and the same text with
    LF line ends. *)
Definition doc_crlf : str :=
  lit "# Notes" ++ [cr; nl]
  ++ lit "<!-- freshness" ++ [cr; nl]
  ++ lit "watches_hash: 2dd1d0b" ++ [cr; nl]
  ++ lit "last_verified: 2026-01-15" ++ [cr; nl]
  ++ lit "watches:" ++ [cr; nl]
  ++ lit "  - src/*" ++ [cr; nl]
  ++ lit "-->" ++ [cr; nl].

Definition doc_lf : str :=
  lit "# Notes" ++ [nl]
  ++ lit "<!-- freshness" ++ [nl]
  ++ lit "watches_hash: 2dd1d0b" ++ [nl]
  ++ lit "last_verified: 2026-01-15" ++ [nl]
  ++ lit "watches:" ++ [nl]
  ++ lit "  - src/*" ++ [nl]
  ++ lit "-->" ++ [nl].

Definition doc_two_spaces_updated : str :=
  lit "# Notes" ++ [nl]
  ++ lit "<!-- freshness" ++ [nl]
  ++ lit "watches_hash: 2dd1d0b" ++ [nl]
  ++ lit "last_verified: 2026-01-15" ++ [nl]
  ++ lit "watches:" ++ [nl]
  ++ lit "  - src/*" ++ [nl]
  ++ lit "-->" ++ [nl].

(** ** Marker records

    A fingerprint is a token of at most seven characters (the sentinels, or
    the first seven characters of a digest); a date in ISO form is
    [dddd-dd-dd]. *)
Definition fingerprint_token (h : str) : Prop := token h /\ length h <= 7.

Definition is_digit (c : char) : bool := ((48 <=? c) && (c <=? 57))%N.

Definition is_iso_date (d : str) : bool :=
  match d with
  | [y1; y2; y3; y4; s1; m1; m2; s2; d1; d2] =>
      forallb is_digit [y1; y2; y3; y4; m1; m2; d1; d2]
      && char_eqb s1 45%N && char_eqb s2 45%N
  | _ => false
  end.

(** A watch pattern as the claim describes it: free of line breaks and of
    leading and trailing white space. *)
Definition pattern_as_stated (g : str) : Prop := one_line g /\ strip g = g.

(** The record [parse_freshness_marker] gives back for a record that was
    written by [build_marker]. *)
Definition round_trip (today h : str) (globs : list str) : Prop :=
  ContextAudit.parse_freshness_marker
    (ContextBootstrap.build_marker today h globs)
  = Some (ContextAudit.Marker h (Some today) globs).

(** The inner text of the block [build_marker] writes, and one item of its
    list. *)
Definition item (g : str) : str := lit "  - " ++ g.

Definition built_block (today h : str) (globs : list str) : str :=
  lit "watches_hash: " ++ h ++ nl :: lit "last_verified: " ++ today
  ++ nl :: lit "watches:" ++ nl :: join [nl] (map item globs).

(** A pattern that survives the round trip: not empty, free of line
    breaks, and free of leading and trailing white space. *)
Definition sound_pattern (g : str) : Prop :=
  g <> [] /\ one_line g /\ strip g = g.

(** What is left of the audit pattern after the group: the closing
    delimiter. *)
Definition closing : cont :=
  match_k [Close 1; Lit [nl]; StarG isspace; Lit (lit "-->")] accept.

(** A hook written by the user, ["#!/bin/sh"] and ["echo hi"], after the
    installer appended its post-merge block. *)
Definition user_hook_with_block : str :=
  lit "#!/bin/sh" ++ [nl] ++ lit "echo hi" ++ [nl]
  ++ InstallHooks.appended InstallHooks._POST_MERGE_HOOK.

Definition user_hook_cleaned : str :=
  lit "#!/bin/sh" ++ [nl] ++ lit "echo hi" ++ [nl].







(** ** Tactics *)

(** Right-nest appends; settle a closed goal by evaluation. *)
Ltac flatten_app :=
  repeat (rewrite <- app_assoc || rewrite <- app_comm_cons
          || rewrite app_nil_l).

Ltac by_computing :=
  first [ vm_compute; reflexivity
        | let E := fresh in intros E; vm_compute in E; discriminate ].


(** ** Vocabulary of the further properties *)

#[global] Instance verdict_eq_dec : EqDecision ContextAudit.verdict.
Proof. solve_decision. Defined.

(** The rows of a report that carry a given verdict ([None]: the rows of
    unreadable files). *)
Definition rows_with (v : option ContextAudit.verdict)
    (rows : list ContextAudit.row) : nat :=
  length (filter (fun r => ContextAudit.verdict_of r = v) rows).

#[global] Instance stored_eq_dec : EqDecision stored.
Proof. solve_decision. Defined.

(** The text of a stored file when [read_text] returns one. *)
Definition text_read (f : stored) : option str :=
  match read_text f with
  | inr content => Some content
  | inl _ => None
  end.

(** The row of the audit for a stored file that is not undecodable. *)
Definition row_of (fnmatch : str -> str -> bool) (git : Git) (f : stored)
  : ContextAudit.row :=
  ContextAudit.audit_file fnmatch git (text_read f).

(** A line of a marker block that opens a watches list. *)
Definition watches_line (line : str) : bool :=
  startswith (strip line) (lit "watches:").

(** A block with two watches lists. *)
Definition two_lists_block : str :=
  lit "watches:" ++ [nl] ++ lit "  - src/*" ++ [nl] ++ lit "notes" ++ [nl]
  ++ lit "watches:" ++ [nl] ++ lit "  - docs/*".

(** The block the update tool rewrites: group 2 of its pattern. *)
Definition update_block (content : str) : option str :=
  match re_search ContextUpdateHash.FRESHNESS_PATTERN content with
  | Some m => Some (group m 2 content)
  | None => None
  end.

(** What a group mark does to the state. *)
Definition apply_mark (a : atom) (st : mstate) : mstate :=
  match a with
  | Open i => mark_open i st
  | Close i => mark_close i st
  | _ => st
  end.

Definition is_mark (a : atom) : bool :=
  match a with Open _ | Close _ => true | _ => false end.

(** Two patterns that consume the same text and differ in their group
    marks only, the marks keeping the states related by [R]. *)
Inductive aligned (R : mstate -> mstate -> Prop) : regex -> regex -> Prop :=
| aligned_nil : aligned R [] []
| aligned_same a r r' :
    is_mark a = false -> aligned R r r' -> aligned R (a :: r) (a :: r')
| aligned_left a r r' :
    is_mark a = true ->
    (forall st st', R st st' -> R (apply_mark a st) st') ->
    aligned R r r' -> aligned R (a :: r) r'
| aligned_right a r r' :
    is_mark a = true ->
    (forall st st', R st st' -> R st (apply_mark a st')) ->
    aligned R r r' -> aligned R r (a :: r')
| aligned_both a a' r r' :
    is_mark a = true -> is_mark a' = true ->
    (forall st st', R st st' -> R (apply_mark a st) (apply_mark a' st')) ->
    aligned R r r' -> aligned R (a :: r) (a' :: r').

(** Results related by [R], or no result on either side. *)
Definition related (R : mstate -> mstate -> Prop) (x y : option mstate) : Prop :=
  match x, y with
  | Some st, Some st' => R st st'
  | None, None => True
  | _, _ => False
  end.

Definition related_cont (R : mstate -> mstate -> Prop) (k k' : cont) : Prop :=
  forall s st st', R st st' -> related R (k s st) (k' s st').

(** The group of the audit pattern is group 2 of the update pattern. *)
Definition same_block (st st' : mstate) : Prop :=
  pos st = pos st' /\ g_start st 1 = g_start st' 2 /\ g_end st 1 = g_end st' 2.

Definition same_pos (st st' : mstate) : Prop := pos st = pos st'.

(** A watch pattern that the update tool leaves alone: a sound pattern
    that spells neither field label. *)
Definition plain_pattern (g : str) : Prop :=
  sound_pattern g
  /\ str_in (lit "watches_hash:") g = false
  /\ str_in (lit "last_verified:") g = false.

(** A modified file touches a watches list when some pattern of the list
    matches it. *)
Definition touches (fnmatch : str -> str -> bool) (watches : list str)
    (modified : str) : bool :=
  existsb (fnmatch modified) watches.

(** The first modified file that touches the list is [modified]. *)
Definition first_touching (fnmatch : str -> str -> bool)
    (watches modified_files : list str) (modified : str) : Prop :=
  exists pre post,
    modified_files = pre ++ modified :: post
    /\ touches fnmatch watches modified = true
    /\ Forall (fun m => touches fnmatch watches m = false) pre.

(** What [find_tracked_context_files] records for a file it can decode:
    nothing when the file cannot be read or is not tracked. *)
Definition tracked_entry (pf : str * stored) : option (str * list str) :=
  match text_read (snd pf) with
  | Some content =>
      match ContextCheckWatches.tracked_watches content with
      | Some watches => Some (fst pf, watches)
      | None => None
      end
  | None => None
  end.

(** A stored file after the bootstrap tool has been run on it: [add_marker]
    stores a new text when it adds a marker; it leaves the file as it is
    when it reports a marker, and when [read_text] raises. *)
Definition add_marker_stored (fnmatch : str -> str -> bool) (git : Git)
    (today : str) (globs : list str) (f : stored) : stored :=
  match read_text f with
  | inl _ => f
  | inr content =>
      match ContextBootstrap.add_marker fnmatch git today content globs with
      | (_, ContextBootstrap.AlreadyTracked) => f
      | (new_content, ContextBootstrap.Added _ _) => Utf8 new_content
      end
  end.

(** The files of a directory after the bootstrap tool has been run on each
    of them. *)
Definition bootstrapped (fnmatch : str -> str -> bool) (git : Git)
    (today : str) (globs : list str) (e : ContextBootstrap.walked)
  : ContextBootstrap.walked :=
  ContextBootstrap.Walked (ContextBootstrap.fname e) (ContextBootstrap.fpath e)
    (add_marker_stored fnmatch git today globs (ContextBootstrap.ftext e)).

(** An entry of the scan that [read_text] cannot decode: a file named
    [*.md] whose bytes are not UTF-8. *)
Definition undecodable (e : ContextBootstrap.walked) : Prop :=
  endswith (ContextBootstrap.fname e) (lit ".md") = true
  /\ ContextBootstrap.ftext e = NotUtf8.

(** What the loop of [mode_auto] keeps: the list has no repetition, and [seen] is the
    set of its members. *)
Definition collected (st : gset str * list str) : Prop :=
  NoDup (snd st) /\ forall x, x ∈ fst st <-> x ∈ snd st.

(** The output of [git status --porcelain]: for each entry a line with the
    two status characters, a blank and the path. *)
Definition status_line (e : str * str) : str := fst e ++ 32%N :: snd e.

Definition porcelain (entries : list (str * str)) : str :=
  flat_map (fun e => status_line e ++ [nl]) entries.

Definition status_entry (e : str * str) : Prop :=
  length (fst e) = 2 /\ one_line (fst e) /\ sound_pattern (snd e).

(** Text that ends with a character that is no white space. *)
Definition ends_nonspace (l : str) : Prop :=
  exists u d, l = u ++ [d] /\ isspace d = false.




(** The number of lines at the head of a template that start with [#]. *)
Fixpoint comment_head (lines : list str) : nat :=
  match lines with
  | [] => 0
  | line :: rest =>
      if startswith line (lit "#") then S (comment_head rest) else 0
  end.

(** A line the cleanup drops wherever it meets it: an owned line that is
    no shebang line. *)
Definition dropped (line : str) : bool :=
  InstallHooks._is_ours line && negb (startswith line (lit "#!/")).

(** A template of which the part appended to an existing hook is removed
    again in full: that part spells a call signature and its lines are all
    dropped. *)
Definition removable_template (template : str) : bool :=
  InstallHooks.has_signature (InstallHooks.appended template)
  && forallb dropped
       (skipn (InstallHooks.skip_header (splitlines template) 0 0)
          (splitlines template)).

(** A template that makes a hook file the cleanup deletes: it spells a
    call signature and has owned lines only. *)
Definition owned_template (template : str) : bool :=
  InstallHooks.has_signature template
  && forallb InstallHooks._is_ours (splitlines template).

(** A user's hook with a comment and a blank line. *)
Definition user_hook : str :=
  lit "#!/bin/sh" ++ [nl] ++ lit "# lint before anything else" ++ [nl]
  ++ [nl] ++ lit "make lint" ++ [nl].


(** A mapping of the context index as the tool hands it on. *)
Definition index_entry (e : str * str) : Prop :=
  (fst e <> [] /\ strip (fst e) = fst e /\ one_line (fst e)
   /\ (ContextFor.bar ∉ fst e) /\ (ContextFor.comma ∉ fst e))
  /\ (snd e <> [] /\ one_line (snd e) /\ (ContextFor.bar ∉ snd e)
      /\ ContextFor.strip_chars [ContextFor.backtick] (snd e) = snd e).

(** [`text`] *)
Definition bq (s : str) : str :=
  ContextFor.backtick :: s ++ [ContextFor.backtick].

(** The first cell of a row of the context index: the patterns, each
    between backticks, with a comma and a space between them. *)
Definition glob_cell_of (gs : list str) : str := join (lit ", ") (map bq gs).

(** A row of the context index up to the bar that closes its second
    cell. *)
Definition table_row (gs : list str) (f : str) : str :=
  lit "| " ++ glob_cell_of gs ++ lit " | " ++ bq f ++ lit " |".

(** A pattern as a row of the index can hold it. *)
Definition row_glob (g : str) : Prop :=
  g <> [] /\ strip g = g
  /\ ContextFor.strip_chars [ContextFor.backtick] g = g
  /\ (ContextFor.bar ∉ g) /\ (ContextFor.comma ∉ g).

(** A file name as a row of the index can hold it. *)
Definition row_file (f : str) : Prop :=
  f <> [] /\ ContextFor.strip_chars [ContextFor.backtick] f = f
  /\ (ContextFor.bar ∉ f).

(** [str.lower] on the letters A to Z. *)
Definition ascii_lower (s : str) : str :=
  map (fun c => if ((65 <=? c) && (c <=? 90))%N then (c + 32)%N else c) s.

(** ** Strings: [strip], [splitlines], [join] *)

Lemma lstrip_by_nil f s : lstrip_by f s = [] <-> forallb f s = true.
Proof.
  induction s as [|c s IH]; cbn; [done|].
  destruct (f c); cbn; [apply IH|]. split; discriminate.
Qed.

Lemma lstrip_by_head f s c t : lstrip_by f s = c :: t -> f c = false.
Proof.
  induction s as [|d s IH]; cbn; [discriminate|].
  destruct (f d) eqn:E; [apply IH|]. intros [= -> _]. exact E.
Qed.

Lemma forallb_rev {A} (f : A -> bool) l : forallb f (rev l) = forallb f l.
Proof.
  induction l as [|a l IH]; [done|]. cbn.
  rewrite forallb_app, IH. cbn. rewrite andb_true_r. apply andb_comm.
Qed.

Lemma rstrip_by_nil f s : rstrip_by f s = [] <-> forallb f s = true.
Proof.
  unfold rstrip_by. rewrite <- (forallb_rev f s), <- lstrip_by_nil.
  split; intros H.
  - apply (f_equal (@rev _)) in H. by rewrite rev_involutive in H.
  - by rewrite H.
Qed.

Lemma strip_nil s : strip s = [] <-> forallb isspace s = true.
Proof.
  unfold strip. rewrite rstrip_by_nil. split; intros H.
  - apply lstrip_by_nil. destruct (lstrip_by isspace s) as [|c t] eqn:E; [done|].
    apply lstrip_by_head in E. cbn in H. rewrite E in H. discriminate.
  - apply lstrip_by_nil in H. by rewrite H.
Qed.

Lemma splitlines_one_line s : Forall one_line (splitlines s).
Proof.
  induction s as [s IH] using (induction_ltof1 _ (@length _)); unfold ltof in IH.
  destruct s as [|c s']; cbn [splitlines]; [constructor|].
  destruct (char_eqb c cr) eqn:Ec.
  - destruct s' as [|d s'']; [repeat constructor|].
    destruct (char_eqb d nl); (constructor; [done|apply IH; cbn; lia]).
  - destruct (linebreak c) eqn:El.
    + constructor; [done|apply IH; cbn; lia].
    + assert (Forall one_line (splitlines s')) as H by (apply IH; cbn; lia).
      destruct (splitlines s') as [|l ls]; [repeat constructor|].
      * unfold one_line, is_break. cbn. by rewrite Ec, El.
      * inversion H; subst. constructor; [|done].
        unfold one_line, is_break in *. cbn. by rewrite Ec, El.
Qed.

Lemma splitlines_line l rest :
  one_line l -> splitlines (l ++ nl :: rest) = l :: splitlines rest.
Proof.
  induction l as [|c l IH]; intros H.
  - reflexivity.
  - unfold one_line in H. cbn in H. apply andb_prop in H as [Hc Hl].
    unfold is_break in Hc. apply negb_true_iff, orb_false_iff in Hc as [Ec El].
    cbn [app splitlines]. rewrite Ec, El, IH by done. reflexivity.
Qed.

Lemma splitlines_join_nl ls :
  Forall one_line ls -> splitlines (join [nl] ls ++ [nl]) = 
    match ls with [] => [[]] | _ => ls end.
Proof.
  induction ls as [|l ls IH]; intros H; [reflexivity|].
  inversion H as [|? ? Hl Hls]; subst.
  destruct ls as [|l' ls'].
  - cbn [join]. rewrite splitlines_line by done. reflexivity.
  - change (join [nl] (l :: l' :: ls')) with (l ++ [nl] ++ join [nl] (l' :: ls')).
    rewrite <- !app_assoc. cbn [app].
    rewrite splitlines_line by done. f_equal. apply (IH Hls).
Qed.

(** ** Literals inside a text *)

Lemma startswith_app_l s t p : startswith s p = true -> startswith (s ++ t) p = true.
Proof.
  revert s. induction p as [|a p IH]; intros s H; [done|].
  destruct s as [|b s]; [done|]. cbn in *.
  apply andb_prop in H as [-> H]. by rewrite IH.
Qed.

Lemma str_in_app_l p s t : str_in p s = true -> str_in p (s ++ t) = true.
Proof.
  induction s as [|c s IH]; cbn [str_in]; intros H.
  - rewrite orb_false_r in H. destruct p; [|done]. by destruct t.
  - apply orb_prop in H as [H|H].
    + pose proof (startswith_app_l (c :: s) t p H) as H'.
      cbn [str_in app] in *. by rewrite H'.
    + cbn [app str_in]. rewrite (IH H). apply orb_true_r.
Qed.

Lemma str_in_app_r p s t : str_in p t = true -> str_in p (s ++ t) = true.
Proof.
  intros H. induction s as [|c s IH]; [done|].
  cbn [app str_in]. rewrite IH. apply orb_true_r.
Qed.


Lemma startswith_length s p : startswith s p = true -> length p <= length s.
Proof.
  revert s. induction p as [|a p IH]; intros s H; cbn; [lia|].
  destruct s as [|b s]; [done|]. cbn in H.
  apply andb_prop in H as [_ H]. apply IH in H. cbn. lia.
Qed.

Lemma str_in_short l s : length s < length l -> str_in l s = false.
Proof.
  induction s as [|c s IH]; intros H; cbn [str_in].
  - destruct l; [cbn in H; lia|done].
  - rewrite IH by (cbn in H; lia). rewrite orb_false_r.
    destruct (startswith (c :: s) l) eqn:E; [|done].
    apply startswith_length in E. lia.
Qed.

Lemma str_in_skip_head x l A s :
  forallb (fun c => negb (char_eqb x c)) A = true ->
  str_in (x :: l) (A ++ s) = str_in (x :: l) s.
Proof.
  induction A as [|c A IH]; intros H; [done|].
  cbn in H. apply andb_prop in H as [Hc H].
  cbn [app str_in startswith]. apply negb_true_iff in Hc. rewrite Hc.
  cbn. by apply IH.
Qed.

(** A literal that starts in [b] and runs into what follows: either it
    lies in [b], or [b] is the beginning of the literal. *)
Lemma startswith_app_inv b X l :
  startswith (b ++ X) l = true ->
  startswith b l = true \/ startswith l b = true.
Proof.
  revert b. induction l as [|a l IH]; intros b H; [by left|].
  destruct b as [|c b]; [by right|].
  cbn in H |- *. apply andb_prop in H as [Hc H]. rewrite Hc.
  unfold char_eqb in *. apply N.eqb_eq in Hc as ->. rewrite N.eqb_refl.
  cbn. by apply IH.
Qed.

Lemma startswith_elem l b c : startswith l b = true -> c ∈ b -> c ∈ l.
Proof.
  revert l. induction b as [|a b IH]; intros l H Hc.
  - by apply elem_of_nil in Hc.
  - destruct l as [|x l]; [done|]. cbn in H.
    apply andb_prop in H as [Ha H]. unfold char_eqb in Ha.
    apply N.eqb_eq in Ha as ->.
    apply elem_of_cons in Hc as [->|Hc]; [apply list_elem_of_here|].
    apply list_elem_of_further. by apply IH.
Qed.

Lemma startswith_str_in l a b : startswith b l = true -> str_in l (a ++ b) = true.
Proof.
  intros H. apply str_in_app_r. destruct b; cbn [str_in]; by rewrite H.
Qed.

(** In a text [P] that does not hold the literal and ends with a character
    foreign to it, the literal starts nowhere, whatever follows [P]. *)
Lemma lit_starts_nowhere l P c X a b :
  str_in l (P ++ [c]) = false -> c ∉ l ->
  P ++ [c] = a ++ b -> b <> [] ->
  startswith (b ++ X) l = false.
Proof.
  intros Hin Hc Hab Hb.
  destruct (startswith (b ++ X) l) eqn:E; [|done].
  apply startswith_app_inv in E as [E|E].
  - apply (startswith_str_in l a b) in E. rewrite <- Hab in E. congruence.
  - exfalso. apply Hc. apply (startswith_elem l b c E).
    assert (exists b', b = b' ++ [c]) as [b' ->].
    { destruct (exists_last Hb) as (b' & c' & ->).
      rewrite app_assoc in Hab. apply app_inj_tail in Hab as [_ ->]. by exists b'. }
    apply elem_of_app. right. apply list_elem_of_here.
Qed.

Lemma str_in_skip l A s :
  l <> [] -> forallb (fun c => negb (startswith l [c])) A = true ->
  str_in l (A ++ s) = str_in l s.
Proof.
  intros Hl H. destruct l as [|x l]; [done|]. apply str_in_skip_head.
  clear -H. induction A as [|c A IH]; [done|].
  cbn in H |- *. apply andb_prop in H as [Hc H].
  rewrite (IH H), andb_true_r. unfold char_eqb in *.
  rewrite andb_true_r in Hc. by rewrite N.eqb_sym.
Qed.

(** ** Tokens, lines and stripping *)

Lemma isspace_range c : isspace c = true -> (c <= 32 \/ 133 <= c)%N.
Proof.
  unfold isspace.
  rewrite !orb_true_iff, !andb_true_iff, !N.leb_le, !N.eqb_eq. lia.
Qed.

Lemma is_break_isspace c : is_break c = true -> isspace c = true.
Proof.
  unfold is_break, linebreak, isspace, char_eqb, cr.
  rewrite !orb_true_iff, !andb_true_iff, !N.leb_le, !N.eqb_eq. lia.
Qed.

Lemma nonspace_one_line v : forallb nonspace v = true -> one_line v.
Proof.
  unfold one_line. induction v as [|c v IH]; [done|]. cbn.
  intros H. apply andb_prop in H as [Hc Hv]. rewrite (IH Hv), andb_true_r.
  unfold nonspace in Hc. apply negb_true_iff in Hc. apply negb_true_iff.
  destruct (is_break c) eqn:E; [|done]. apply is_break_isspace in E. congruence.
Qed.

Lemma one_line_app a b : one_line a -> one_line b -> one_line (a ++ b).
Proof. unfold one_line. rewrite forallb_app. by intros -> ->. Qed.

Lemma one_line_no_nl l : one_line l -> forallb (fun c => negb (char_eqb c nl)) l = true.
Proof.
  unfold one_line. induction l as [|c l IH]; [done|]. cbn.
  intros H. apply andb_prop in H as [Hc Hl]. rewrite (IH Hl), andb_true_r.
  apply negb_true_iff. apply negb_true_iff in Hc.
  unfold is_break in Hc. apply orb_false_iff in Hc as [_ Hc].
  unfold char_eqb, nl. destruct (N.eqb_spec c 10) as [->|]; [|done].
  by vm_compute in Hc.
Qed.

Lemma lstrip_by_length f s : length (lstrip_by f s) <= length s.
Proof.
  induction s as [|c s IH]; cbn; [lia|]. destruct (f c); cbn; lia.
Qed.

Lemma lstrip_by_fixed f s : lstrip_by f s = s \/ length (lstrip_by f s) < length s.
Proof.
  destruct s as [|c s]; [by left|]. cbn. destruct (f c); [|by left].
  right. pose proof (lstrip_by_length f s). cbn. lia.
Qed.

Lemma rstrip_by_length f s : length (rstrip_by f s) <= length s.
Proof.
  unfold rstrip_by. rewrite length_rev.
  pose proof (lstrip_by_length f (rev s)). by rewrite length_rev in *.
Qed.

(** Text that [strip] leaves as it is has no white space at either end. *)
Lemma strip_fixed s :
  strip s = s -> lstrip_by isspace s = s /\ rstrip_by isspace s = s.
Proof.
  intros H. unfold strip in H.
  destruct (lstrip_by_fixed isspace s) as [E|E].
  - split; [done|]. by rewrite E in H.
  - pose proof (rstrip_by_length isspace (lstrip_by isspace s)).
    rewrite H in *. lia.
Qed.

Lemma lstrip_by_app f s t :
  s <> [] -> lstrip_by f s = s -> lstrip_by f (s ++ t) = s ++ t.
Proof.
  intros Hs H. destruct s as [|c s]; [done|]. cbn in *.
  destruct (f c); [|done].
  pose proof (lstrip_by_length f s). apply (f_equal (@length _)) in H.
  cbn in H. lia.
Qed.

Lemma rstrip_by_app f a s :
  s <> [] -> rstrip_by f s = s -> rstrip_by f (a ++ s) = a ++ s.
Proof.
  unfold rstrip_by. intros Hs H.
  apply (f_equal (@rev _)) in H. rewrite rev_involutive in H.
  rewrite rev_app_distr, lstrip_by_app; [|by destruct s using rev_ind; [|rewrite rev_app_distr]|done].
  by rewrite <- rev_app_distr, rev_involutive.
Qed.

Lemma lstrip_by_all f s : forallb (fun c => negb (f c)) s = true -> lstrip_by f s = s.
Proof.
  destruct s as [|c s]; [done|]. cbn. intros H.
  apply andb_prop in H as [H _]. apply negb_true_iff in H. by rewrite H.
Qed.

Lemma token_strip v : token v -> strip v = v.
Proof.
  intros [Hne Hv]. unfold strip, rstrip_by.
  rewrite (lstrip_by_all isspace v Hv).
  rewrite lstrip_by_all; [apply rev_involutive|].
  by rewrite forallb_rev.
Qed.

(** A line made of a head that [strip] leaves alone at its left and a text
    that [strip] leaves alone: [strip] leaves it alone. *)
Lemma strip_app a s :
  a <> [] -> lstrip_by isspace a = a -> s <> [] -> strip s = s ->
  strip (a ++ s) = a ++ s.
Proof.
  intros Ha Hl Hs Hstrip. unfold strip.
  rewrite (lstrip_by_app _ a s Ha Hl).
  apply rstrip_by_app; [done|]. by apply strip_fixed.
Qed.

(** [splitlines] on lines joined by newlines. *)
Lemma splitlines_single l : one_line l -> l <> [] -> splitlines l = [l].
Proof.
  induction l as [|c l IH]; intros H Hne; [done|].
  unfold one_line in H. cbn in H. apply andb_prop in H as [Hc Hl].
  unfold is_break in Hc. apply negb_true_iff, orb_false_iff in Hc as [Ec El].
  cbn [splitlines]. rewrite Ec, El.
  destruct l as [|d l]; [done|]. by rewrite IH.
Qed.

Lemma splitlines_join ls :
  Forall one_line ls -> Forall (fun l => l <> []) ls ->
  splitlines (join [nl] ls) = ls.
Proof.
  induction ls as [|l ls IH]; intros H Hne; [done|].
  inversion H as [|? ? Hl Hls]; inversion Hne as [|? ? Hn Hns]; subst.
  destruct ls as [|l' ls'].
  - cbn [join]. by apply splitlines_single.
  - change (join [nl] (l :: l' :: ls')) with (l ++ [nl] ++ join [nl] (l' :: ls')).
    cbn [app]. rewrite splitlines_line by done. f_equal. by apply IH.
Qed.

(** ** The translation of line ends *)

(** Induction two characters at a time, as [universal_newlines] and
    [splitlines] recur. *)
Lemma pairs_ind {A} (P : list A -> Prop) :
  P [] -> (forall c, P [c]) ->
  (forall c d s, P s -> P (d :: s) -> P (c :: d :: s)) ->
  forall s, P s.
Proof.
  intros H0 H1 H2 s.
  assert (P s /\ forall c, P (c :: s)) as [H _]; [|exact H].
  induction s as [|d s [IH1 IH2]]; [by split|].
  split; [apply IH2|]. intros c. apply H2; [exact IH1|apply IH2].
Qed.

Lemma universal_newlines_cons c s :
  c <> cr -> universal_newlines (c :: s) = c :: universal_newlines s.
Proof.
  intros H. cbn [universal_newlines]. unfold char_eqb.
  by destruct (N.eqb_spec c cr).
Qed.

Lemma universal_newlines_cr_nl s :
  universal_newlines (cr :: nl :: s) = nl :: universal_newlines s.
Proof. done. Qed.

Lemma universal_newlines_cr d s :
  d <> nl -> universal_newlines (cr :: d :: s) = nl :: universal_newlines (d :: s).
Proof.
  intros H. change (universal_newlines (cr :: d :: s))
    with (if char_eqb d nl then nl :: universal_newlines s
          else nl :: universal_newlines (d :: s)).
  unfold char_eqb. by destruct (N.eqb_spec d nl).
Qed.

(** A text without CR is read as it is stored. *)
Lemma universal_newlines_fixed s : cr ∉ s -> universal_newlines s = s.
Proof.
  induction s as [|c s IH]; intros H; [done|].
  apply not_elem_of_cons in H as [Hc H].
  rewrite universal_newlines_cons by done. by rewrite IH.
Qed.

Lemma universal_newlines_head l t :
  cr ∉ l -> universal_newlines (l ++ t) = l ++ universal_newlines t.
Proof.
  induction l as [|c l IH]; intros H; [done|].
  apply not_elem_of_cons in H as [Hc H]. cbn [app].
  rewrite universal_newlines_cons by done. by rewrite IH.
Qed.

(** The text read holds no CR. *)
Lemma universal_newlines_no_cr s : cr ∉ universal_newlines s.
Proof.
  induction s as [|c|c d s IH1 IH2] using pairs_ind.
  - apply not_elem_of_nil.
  - destruct (decide (c = cr)) as [->|Hc].
    + cbn. rewrite not_elem_of_cons. split; [done|apply not_elem_of_nil].
    + rewrite universal_newlines_cons by done.
      rewrite not_elem_of_cons. split; [done|apply not_elem_of_nil].
  - destruct (decide (c = cr)) as [->|Hc].
    + destruct (decide (d = nl)) as [->|Hd].
      * rewrite universal_newlines_cr_nl, not_elem_of_cons. by split.
      * rewrite universal_newlines_cr by done.
        rewrite not_elem_of_cons. by split.
    + rewrite universal_newlines_cons by done.
      rewrite not_elem_of_cons. by split.
Qed.

Lemma universal_newlines_idem s :
  universal_newlines (universal_newlines s) = universal_newlines s.
Proof. apply universal_newlines_fixed, universal_newlines_no_cr. Qed.

(** The translation can be cut in front of any character but LF. *)
Lemma universal_newlines_app a c b :
  c <> nl ->
  universal_newlines (a ++ c :: b)
  = universal_newlines a ++ universal_newlines (c :: b).
Proof.
  intros Hc. induction a as [|x|x y s IH1 IH2] using pairs_ind.
  - done.
  - cbn [app]. destruct (decide (x = cr)) as [->|Hx].
    + by rewrite universal_newlines_cr.
    + by rewrite !(universal_newlines_cons x).
  - change ((x :: y :: s) ++ c :: b) with (x :: ((y :: s) ++ c :: b)).
    destruct (decide (x = cr)) as [->|Hx].
    + destruct (decide (y = nl)) as [->|Hy].
      * cbn [app]. by rewrite !universal_newlines_cr_nl, IH1.
      * cbn [app]. rewrite !universal_newlines_cr by done.
        change (y :: s ++ c :: b) with ((y :: s) ++ c :: b). by rewrite IH2.
    + rewrite !(universal_newlines_cons x) by done. by rewrite IH2.
Qed.

(** A text closed by LF is read as a text closed by LF. *)
Lemma universal_newlines_closed b :
  exists z, universal_newlines (b ++ [nl]) = z ++ [nl].
Proof.
  induction b as [|c|c d s IH1 IH2] using pairs_ind.
  - by exists [].
  - cbn [app]. destruct (decide (c = cr)) as [->|Hc].
    + by exists [].
    + rewrite universal_newlines_cons by done. by exists [c].
  - change ((c :: d :: s) ++ [nl]) with (c :: ((d :: s) ++ [nl])).
    destruct (decide (c = cr)) as [->|Hc].
    + destruct (decide (d = nl)) as [->|Hd].
      * cbn [app]. rewrite universal_newlines_cr_nl.
        destruct IH1 as [z ->]. by exists (nl :: z).
      * cbn [app]. rewrite universal_newlines_cr by done.
        destruct IH2 as [z Hz]. cbn [app] in Hz. rewrite Hz. by exists (nl :: z).
    + rewrite universal_newlines_cons by done.
      destruct IH2 as [z ->]. by exists (c :: z).
Qed.

Lemma splitlines_cons c t :
  c <> cr ->
  splitlines (c :: t)
  = if linebreak c then [] :: splitlines t
    else match splitlines t with
         | [] => [[c]]
         | l :: ls => (c :: l) :: ls
         end.
Proof.
  intros H. cbn [splitlines]. unfold char_eqb. by destruct (N.eqb_spec c cr).
Qed.

Lemma splitlines_cr d s :
  d <> nl -> splitlines (cr :: d :: s) = [] :: splitlines (d :: s).
Proof.
  intros H. change (splitlines (cr :: d :: s))
    with (if char_eqb d nl then [] :: splitlines s
          else [] :: splitlines (d :: s)).
  unfold char_eqb. by destruct (N.eqb_spec d nl).
Qed.

(** The lines of a file do not depend on the translation: CR LF, CR and
    LF are the same boundary to [splitlines]. *)
Lemma splitlines_universal_newlines s :
  splitlines (universal_newlines s) = splitlines s.
Proof.
  induction s as [|c|c d s IH1 IH2] using pairs_ind.
  - done.
  - destruct (decide (c = cr)) as [->|Hc]; [done|].
    by rewrite universal_newlines_cons.
  - destruct (decide (c = cr)) as [->|Hc].
    + destruct (decide (d = nl)) as [->|Hd].
      * rewrite universal_newlines_cr_nl.
        change (splitlines (cr :: nl :: s)) with ([] :: splitlines s).
        rewrite <- IH1. done.
      * rewrite universal_newlines_cr, splitlines_cr by done.
        rewrite <- IH2. done.
    + rewrite universal_newlines_cons by done.
      rewrite !(splitlines_cons c) by done. by rewrite IH2.
Qed.

(** ** The matcher *)

Lemma adv_0 st : adv 0 st = st.
Proof. by destruct st. Qed.

Lemma adv_adv n m st : adv n (adv m st) = adv (m + n) st.
Proof. unfold adv. cbn. f_equal. lia. Qed.

Lemma pos_adv n st : pos (adv n st) = n + pos st.
Proof. reflexivity. Qed.

(** A greedy repetition that succeeds consumed some run of the class. *)
Lemma greedy_sound p k s : forall st r,
  greedy p k s st = Some r ->
  exists n, n <= length s /\ forallb p (firstn n s) = true
            /\ k (skipn n s) (adv n st) = Some r.
Proof.
  induction s as [|c s IH]; intros st r H; cbn in H.
  - exists 0. rewrite adv_0. cbn. repeat split; [lia|done].
  - destruct (p c) eqn:Epc.
    + destruct (greedy p k s (adv 1 st)) as [r'|] eqn:E.
      * injection H as <-. apply IH in E as (n & Hn & Hp & Hk).
        exists (S n). cbn. rewrite Epc, Hp. rewrite adv_adv in Hk.
        repeat split; [lia|done].
      * exists 0. rewrite adv_0. cbn. repeat split; [lia|done].
    + exists 0. rewrite adv_0. cbn. repeat split; [lia|done].
Qed.

(** A lazy repetition that succeeds stopped at the first place where the
    rest of the pattern matches. *)
Lemma lazy_sound p k s : forall st r,
  lazy p k s st = Some r ->
  exists n, n <= length s /\ forallb p (firstn n s) = true
            /\ k (skipn n s) (adv n st) = Some r
            /\ forall m, m < n -> k (skipn m s) (adv m st) = None.
Proof.
  induction s as [|c s IH]; intros st r H; cbn in H.
  - destruct (k [] st) eqn:E; [|done]. injection H as <-.
    exists 0. rewrite adv_0. cbn. repeat split; [lia|done|lia].
  - destruct (k (c :: s) st) eqn:E.
    + injection H as <-. exists 0. rewrite adv_0. cbn.
      repeat split; [lia|done|lia].
    + destruct (p c) eqn:Epc; [|done].
      apply IH in H as (n & Hn & Hp & Hk & Hmin).
      exists (S n). cbn. rewrite Epc, Hp. rewrite adv_adv in Hk.
      repeat split; [lia|done|].
      intros [|m] Hm; [by rewrite adv_0|].
      cbn. specialize (Hmin m ltac:(lia)). by rewrite adv_adv in Hmin.
Qed.

Lemma lazy_complete p k s : forall st n,
  n <= length s -> forallb p (firstn n s) = true ->
  is_Some (k (skipn n s) (adv n st)) -> is_Some (lazy p k s st).
Proof.
  induction s as [|c s IH]; intros st n Hn Hp Hk.
  - assert (n = 0) as -> by (cbn in Hn; lia). rewrite adv_0 in Hk. cbn in *.
    destruct (k [] st); [done|]. by destruct Hk.
  - cbn. destruct (k (c :: s) st) eqn:E; [done|].
    destruct n as [|n]; [rewrite adv_0 in Hk; cbn in Hk; rewrite E in Hk; by destruct Hk|].
    cbn in Hp. apply andb_prop in Hp as [-> Hp].
    apply (IH _ n); [cbn in Hn; lia|done|]. by rewrite adv_adv.
Qed.

Lemma greedy_complete p k s : forall st n,
  n <= length s -> forallb p (firstn n s) = true ->
  is_Some (k (skipn n s) (adv n st)) -> is_Some (greedy p k s st).
Proof.
  induction s as [|c s IH]; intros st n Hn Hp Hk.
  - assert (n = 0) as -> by (cbn in Hn; lia). rewrite adv_0 in Hk. done.
  - cbn. destruct n as [|n].
    + rewrite adv_0 in Hk. cbn in Hk.
      destruct (p c); [|done]. by destruct (greedy p k s (adv 1 st)).
    + cbn in Hp. apply andb_prop in Hp as [-> Hp].
      assert (is_Some (greedy p k s (adv 1 st))) as [r ->]; [|done].
      apply (IH _ n); [cbn in Hn; lia|done|]. by rewrite adv_adv.
Qed.

(** Skipping what the lazy repetition cannot stop at. *)
Lemma lazy_skip p k s n : forall st,
  n <= length s -> forallb p (firstn n s) = true ->
  (forall m, m < n -> k (skipn m s) (adv m st) = None) ->
  lazy p k s st = lazy p k (skipn n s) (adv n st).
Proof.
  revert s. induction n as [|n IH]; intros s st Hn Hp Hnone.
  - by rewrite adv_0.
  - destruct s as [|c s]; [cbn in Hn; lia|].
    cbn in Hp. apply andb_prop in Hp as [Hc Hp].
    cbn [lazy]. pose proof (Hnone 0 ltac:(lia)) as H0.
    rewrite adv_0 in H0. cbn in H0. rewrite H0, Hc.
    rewrite (IH s (adv 1 st)); [by rewrite adv_adv|cbn in Hn; lia|done|].
    intros m Hm. specialize (Hnone (S m) ltac:(lia)).
    by rewrite adv_adv.
Qed.

Lemma lazy_stop p k s st r : k s st = Some r -> lazy p k s st = Some r.
Proof. intros H. destruct s; cbn; by rewrite H. Qed.

(** A greedy repetition takes the whole run when the rest matches after
    it. *)
Lemma greedy_run p k run rest st r :
  forallb p run = true ->
  match rest with [] => True | c :: _ => p c = false end ->
  k rest (adv (length run) st) = Some r ->
  greedy p k (run ++ rest) st = Some r.
Proof.
  revert st. induction run as [|c run IH]; intros st Hp Hrest Hk.
  - rewrite adv_0 in Hk. cbn. destruct rest as [|c rest]; [done|].
    cbn. by rewrite Hrest.
  - cbn in Hp. apply andb_prop in Hp as [Hc Hp]. cbn. rewrite Hc.
    rewrite (IH (adv 1 st)); [done..|]. by rewrite adv_adv.
Qed.

(** What a successful match of [r] followed by [k] did. *)
Lemma match_k_sound r : forall k s st st',
  match_k r k s st = Some st' ->
  exists n st1,
    min_len r <= n /\ n <= length s /\ pos st1 = n + pos st
    /\ k (skipn n s) st1 = Some st'
    /\ (forall i, ~ In (Open i) r -> g_start st1 i = g_start st i)
    /\ (forall i, ~ In (Close i) r -> g_end st1 i = g_end st i).
Proof.
  induction r as [|a r IH]; intros k s st st' H.
  - exists 0, st. cbn. repeat split; [lia|lia|done].
  - destruct a as [l|p|p|p|j|j]; cbn [match_k min_len atom_len] in *.
    + destruct (startswith s l) eqn:E; [|done].
      apply IH in H as (n & st1 & Hmin & Hn & Hpos & Hk & Hs & He).
      exists (n + length l), st1.
      rewrite length_skipn in Hn. rewrite skipn_skipn in Hk.
      rewrite pos_adv in Hpos.
      assert (length l <= length s).
      { clear -E. revert s E. induction l as [|a l IHl]; intros s E; cbn; [lia|].
        destruct s as [|b s]; [done|]. cbn in E.
        apply andb_prop in E as [_ E]. apply IHl in E. cbn. lia. }
      repeat split; [lia|lia|lia|done|..].
      * intros i Hi. rewrite Hs; [done|]. intros ?; apply Hi; by right.
      * intros i Hi. rewrite He; [done|]. intros ?; apply Hi; by right.
    + apply greedy_sound in H as (n0 & Hn0 & _ & H).
      apply IH in H as (n & st1 & Hmin & Hn & Hpos & Hk & Hs & He).
      exists (n + n0), st1. rewrite length_skipn in Hn.
      rewrite skipn_skipn in Hk. rewrite pos_adv in Hpos.
      repeat split; [lia|lia|lia|done|..].
      * intros i Hi. rewrite Hs; [done|]. intros ?; apply Hi; by right.
      * intros i Hi. rewrite He; [done|]. intros ?; apply Hi; by right.
    + destruct s as [|c s]; [done|]. destruct (p c); [|done].
      apply greedy_sound in H as (n0 & Hn0 & _ & H).
      apply IH in H as (n & st1 & Hmin & Hn & Hpos & Hk & Hs & He).
      exists (S (n + n0)), st1. rewrite length_skipn in Hn.
      rewrite skipn_skipn in Hk. rewrite adv_adv, pos_adv in Hpos.
      cbn [skipn length].
      repeat split; [lia|lia|lia|done|..].
      * intros i Hi. rewrite Hs; [done|]. intros ?; apply Hi; by right.
      * intros i Hi. rewrite He; [done|]. intros ?; apply Hi; by right.
    + apply lazy_sound in H as (n0 & Hn0 & _ & H & _).
      apply IH in H as (n & st1 & Hmin & Hn & Hpos & Hk & Hs & He).
      exists (n + n0), st1. rewrite length_skipn in Hn.
      rewrite skipn_skipn in Hk. rewrite pos_adv in Hpos.
      repeat split; [lia|lia|lia|done|..].
      * intros i Hi. rewrite Hs; [done|]. intros ?; apply Hi; by right.
      * intros i Hi. rewrite He; [done|]. intros ?; apply Hi; by right.
    + apply IH in H as (n & st1 & Hmin & Hn & Hpos & Hk & Hs & He).
      exists n, st1. repeat split; [lia|done..| |].
      * intros i Hi. rewrite Hs by (intros ?; apply Hi; by right).
        cbn. unfold upd. destruct (Nat.eqb_spec i j) as [->|]; [|done].
        exfalso. apply Hi. by left.
      * intros i Hi. rewrite He; [done|]. intros ?; apply Hi; by right.
    + apply IH in H as (n & st1 & Hmin & Hn & Hpos & Hk & Hs & He).
      exists n, st1. repeat split; [lia|done..| |].
      * intros i Hi. rewrite Hs; [done|]. intros ?; apply Hi; by right.
      * intros i Hi. rewrite He by (intros ?; apply Hi; by right).
        cbn. unfold upd. destruct (Nat.eqb_spec i j) as [->|]; [|done].
        exfalso. apply Hi. by left.
Qed.


Lemma search_from_sound r s : forall start m,
  search_from r s start = Some m ->
  exists n, n <= length s /\ m_start m = start + n
    /\ match_at r (skipn n s) (init_state (start + n)) = Some (m_state m)
    /\ forall j, j < n -> match_at r (skipn j s) (init_state (start + j)) = None.
Proof.
  induction s as [|c s IH]; intros start m H; cbn in H.
  - destruct (match_at r [] (init_state start)) eqn:E; [|done].
    injection H as <-. exists 0. rewrite Nat.add_0_r. cbn.
    repeat split; [lia|done|lia].
  - destruct (match_at r (c :: s) (init_state start)) eqn:E.
    + injection H as <-. exists 0. rewrite Nat.add_0_r. cbn.
      repeat split; [lia|done|lia].
    + apply IH in H as (n & Hn & Hst & Hm & Hmin).
      exists (S n). cbn [skipn length].
      replace (start + S n) with (S start + n) by lia.
      repeat split; [lia|done|done|].
      intros [|j] Hj; [by rewrite Nat.add_0_r|].
      cbn [skipn]. replace (start + S j) with (S start + j) by lia.
      apply Hmin. lia.
Qed.

Lemma search_from_skip r s n : forall start,
  n <= length s ->
  (forall j, j < n -> match_at r (skipn j s) (init_state (start + j)) = None) ->
  search_from r s start = search_from r (skipn n s) (start + n).
Proof.
  revert s. induction n as [|n IH]; intros s start Hn Hnone.
  - by rewrite Nat.add_0_r.
  - destruct s as [|c s]; [cbn in Hn; lia|].
    cbn [search_from skipn].
    pose proof (Hnone 0 ltac:(lia)) as H0. rewrite Nat.add_0_r in H0.
    cbn in H0. rewrite H0.
    replace (start + S n) with (S start + n) by lia.
    apply IH; [cbn in Hn; lia|].
    intros j Hj. specialize (Hnone (S j) ltac:(lia)).
    by replace (S start + j) with (start + S j) by lia.
Qed.

Lemma search_from_complete r s n : forall start,
  n <= length s ->
  is_Some (match_at r (skipn n s) (init_state (start + n))) ->
  is_Some (search_from r s start).
Proof.
  revert s. induction n as [|n IH]; intros s start Hn Hm.
  - rewrite Nat.add_0_r, drop_0 in Hm. destruct Hm as [x Hx].
    destruct s; cbn; by rewrite Hx.
  - destruct s as [|c s]; [cbn in Hn; lia|].
    cbn [search_from]. destruct (match_at r (c :: s) (init_state start)); [done|].
    apply IH; [cbn in Hn; lia|].
    by replace (S start + n) with (start + S n) by lia.
Qed.

Lemma search_from_hit r s start st :
  match_at r s (init_state start) = Some st ->
  search_from r s start = Some (RMatch start st).
Proof. intros H. destruct s; cbn; by rewrite H. Qed.

(** Slices *)
Lemma slice_parts (s : str) a b :
  a <= b -> b <= length s ->
  s = firstn a s ++ slice s a b ++ skipn b s.
Proof.
  intros Hab Hb. unfold slice.
  rewrite <- (firstn_skipn a s) at 1. f_equal.
  rewrite <- (firstn_skipn (b - a) (skipn a s)) at 1. f_equal.
  rewrite skipn_skipn. f_equal. lia.
Qed.

Lemma slice_length (s : str) a b :
  a <= b -> b <= length s -> length (slice s a b) = b - a.
Proof.
  intros Hab Hb. unfold slice. rewrite length_firstn, length_skipn. lia.
Qed.


Lemma greedy_ext p k1 k2 :
  (forall s st, k1 s st = k2 s st) ->
  forall s st, greedy p k1 s st = greedy p k2 s st.
Proof.
  intros Hk s. induction s as [|c s IH]; intros st; cbn; [apply Hk|].
  by rewrite IH, Hk.
Qed.

Lemma lazy_ext p k1 k2 :
  (forall s st, k1 s st = k2 s st) ->
  forall s st, lazy p k1 s st = lazy p k2 s st.
Proof.
  intros Hk s. induction s as [|c s IH]; intros st; cbn; rewrite Hk; [done|].
  by rewrite IH.
Qed.

Lemma match_k_ext r : forall k1 k2,
  (forall s st, k1 s st = k2 s st) ->
  forall s st, match_k r k1 s st = match_k r k2 s st.
Proof.
  induction r as [|a r IH]; intros k1 k2 Hk s st; [apply Hk|].
  destruct a; cbn [match_k].
  - destruct (startswith s l); [by apply IH|done].
  - apply greedy_ext. by apply IH.
  - destruct s as [|c s]; [done|]. destruct (p c); [|done].
    apply greedy_ext. by apply IH.
  - apply lazy_ext. by apply IH.
  - by apply IH.
  - by apply IH.
Qed.

Lemma match_k_app r1 r2 : forall k s st,
  match_k (r1 ++ r2) k s st = match_k r1 (match_k r2 k) s st.
Proof.
  induction r1 as [|a r1 IH]; intros k s st; [done|].
  destruct a; cbn [app match_k].
  - destruct (startswith s l); [apply IH|done].
  - apply greedy_ext. intros; apply IH.
  - destruct s as [|c s]; [done|]. destruct (p c); [|done].
    apply greedy_ext. intros; apply IH.
  - apply lazy_ext. intros; apply IH.
  - apply IH.
  - apply IH.
Qed.

(** Where group [i] lies after a match of a pattern that brackets [mid]
    with it. *)
Lemma group_span r1 mid r3 i s st st' :
  match_at (r1 ++ Open i :: mid ++ Close i :: r3) s st = Some st' ->
  ~ In (Open i) mid -> ~ In (Open i) r3 -> ~ In (Close i) r3 ->
  pos st <= g_start st' i
  /\ g_start st' i + min_len mid <= g_end st' i
  /\ g_end st' i <= pos st + length s.
Proof.
  unfold match_at. intros H Hmid Hr3o Hr3c.
  rewrite match_k_app in H.
  apply match_k_sound in H as (n1 & st1 & _ & Hn1 & Hp1 & H & _ & _).
  cbn [match_k] in H. rewrite match_k_app in H.
  apply match_k_sound in H as (n2 & st2 & Hmin & Hn2 & Hp2 & H & Hs2 & _).
  cbn [match_k] in H.
  apply match_k_sound in H as (n3 & st3 & _ & Hn3 & Hp3 & H & Hs3 & He3).
  unfold accept in H. injection H as <-.
  rewrite Hs3, He3 by done. cbn [mark_close g_start g_end].
  rewrite Hs2 by done. cbn [mark_open g_start pos] in *.
  unfold upd. rewrite Nat.eqb_refl.
  rewrite !length_skipn in *. lia.
Qed.

Lemma search_span r s m :
  re_search r s = Some m ->
  exists n, n <= length s
    /\ match_at r (skipn n s) (init_state n) = Some (m_state m).
Proof.
  intros H. apply search_from_sound in H as (n & Hn & _ & H & _).
  exists n. by split.
Qed.

(** The group of a pattern that brackets [mid] is a slice of the text, no
    shorter than [mid] requires. *)
Lemma search_group_span r1 mid r3 i s m :
  re_search (r1 ++ Open i :: mid ++ Close i :: r3) s = Some m ->
  ~ In (Open i) mid -> ~ In (Open i) r3 -> ~ In (Close i) r3 ->
  start_of m i + min_len mid <= end_of m i /\ end_of m i <= length s.
Proof.
  intros H Hmid Hr3o Hr3c.
  apply search_span in H as (n & Hn & H).
  apply group_span in H as (H1 & H2 & H3); [|done..].
  unfold start_of, end_of. rewrite length_skipn in H3. cbn in H3. lia.
Qed.

Lemma no_open_lit i (r : regex) :
  forallb (fun a => match a with Open j => negb (Nat.eqb j i) | _ => true end) r = true ->
  ~ In (Open i) r.
Proof.
  intros H Hin. rewrite forallb_forall in H. apply H in Hin.
  by rewrite Nat.eqb_refl in Hin.
Qed.

Lemma no_close_lit i (r : regex) :
  forallb (fun a => match a with Close j => negb (Nat.eqb j i) | _ => true end) r = true ->
  ~ In (Close i) r.
Proof.
  intros H Hin. rewrite forallb_forall in H. apply H in Hin.
  by rewrite Nat.eqb_refl in Hin.
Qed.

(** The span of group 2 of the update tool's pattern lies in the text. *)
Lemma update_group_span content m :
  re_search ContextUpdateHash.FRESHNESS_PATTERN content = Some m ->
  start_of m 2 <= end_of m 2 /\ end_of m 2 <= length content.
Proof.
  intros H.
  apply (search_group_span
    [Open 1; Lit (lit "<!--"); StarG isspace; Lit (lit "freshness");
     StarG isspace; Lit [nl]; Close 1]
    [StarL any_char]
    [Open 3; Lit [nl]; StarG isspace; Lit (lit "-->"); Close 3] 2) in H.
  - cbn in H. lia.
  - by apply no_open_lit.
  - by apply no_open_lit.
  - by apply no_close_lit.
Qed.

Lemma audit_hash_field_nonempty block h :
  ContextAudit.field ContextAudit.HASH_RE block = Some h -> h <> [].
Proof.
  unfold ContextAudit.field. intros H.
  destruct (re_search ContextAudit.HASH_RE block) as [m|] eqn:E; [|done].
  injection H as <-.
  apply (search_group_span [Lit (lit "watches_hash:"); StarG isspace]
           [PlusG nonspace] [] 1) in E;
    [|by apply no_open_lit|by apply no_open_lit|by apply no_close_lit].
  cbn in E. intros Hnil. apply (f_equal (@length _)) in Hnil.
  unfold group in Hnil. rewrite slice_length in Hnil by lia. cbn in Hnil. lia.
Qed.

Lemma startswith_app s p : startswith (p ++ s) p = true.
Proof.
  induction p as [|a p IH]; [done|]. cbn. unfold char_eqb.
  by rewrite N.eqb_refl, IH.
Qed.

Lemma match_k_lit_app l r k s st :
  match_k (Lit l :: r) k (l ++ s) st = match_k r k s (adv (length l) st).
Proof.
  cbn [match_k]. by rewrite startswith_app, drop_app_length.
Qed.

Lemma match_k_lit_cons c r k s st :
  match_k (Lit [c] :: r) k (c :: s) st = match_k r k s (adv 1 st).
Proof. apply (match_k_lit_app [c]). Qed.

Lemma forallb_any_char s : forallb any_char s = true.
Proof. by induction s. Qed.

Lemma match_k_starG p r k s st :
  match_k (StarG p :: r) k s st = greedy p (match_k r k) s st.
Proof. reflexivity. Qed.

Lemma match_k_starL p r k s st :
  match_k (StarL p :: r) k s st = lazy p (match_k r k) s st.
Proof. reflexivity. Qed.

Lemma match_k_open i r k s st :
  match_k (Open i :: r) k s st = match_k r k s (mark_open i st).
Proof. reflexivity. Qed.

Lemma match_k_close i r k s st :
  match_k (Close i :: r) k s st = match_k r k s (mark_close i st).
Proof. reflexivity. Qed.

Lemma lazy_any_here k s st :
  is_Some (k s st) -> is_Some (lazy any_char k s st).
Proof. intros [r H]. rewrite (lazy_stop _ _ _ _ _ H). done. Qed.

Lemma lazy_any_cons k c s st :
  is_Some (lazy any_char k s (adv 1 st)) ->
  is_Some (lazy any_char k (c :: s) st).
Proof.
  intros H. cbn [lazy]. destruct (k (c :: s) st); [done|]. exact H.
Qed.

Lemma lazy_any_app k a s st :
  is_Some (lazy any_char k s (adv (length a) st)) ->
  is_Some (lazy any_char k (a ++ s) st).
Proof.
  revert st. induction a as [|c a IH]; intros st H.
  - by rewrite adv_0 in H.
  - cbn [app]. apply lazy_any_cons, IH. by rewrite adv_adv.
Qed.


(** ** Substitution *)

Lemma sub_from_skip r repl a s :
  sub_from r repl (a ++ s) (length a) = sub_from r repl s 0.
Proof. induction a as [|c a IH]; [done|]. apply IH. Qed.

Lemma match_lit_fails l r s st :
  startswith s l = false -> match_at (Lit l :: r) s st = None.
Proof. unfold match_at. cbn [match_k]. by intros ->. Qed.

(** Where the literal that opens the pattern starts nowhere, nothing is
    replaced. *)
Lemma sub_from_passes l r repl P X :
  (forall a b, P = a ++ b -> b <> [] -> startswith (b ++ X) l = false) ->
  sub_from (Lit l :: r) repl (P ++ X) 0 = P ++ sub_from (Lit l :: r) repl X 0.
Proof.
  induction P as [|c P IH]; intros H; [done|].
  cbn [app sub_from].
  rewrite (match_lit_fails l r (c :: P ++ X)) by (by apply (H [] (c :: P))).
  f_equal. apply IH. intros a b -> Hb. by apply (H (c :: a) b).
Qed.

Lemma sub_from_none l r repl s :
  str_in l s = false -> sub_from (Lit l :: r) repl s 0 = s.
Proof.
  induction s as [|c s IH]; intros H; [done|].
  cbn [str_in] in H. apply orb_false_iff in H as [H1 H2].
  cbn [sub_from]. rewrite (match_lit_fails l r _ _ H1). f_equal. by apply IH.
Qed.

(** A match at the head is replaced, and the substitution goes on after
    it. *)
Lemma sub_from_hit r repl a s st :
  a <> [] ->
  match_at r (a ++ s) (init_state 0) = Some st ->
  pos st = length a ->
  sub_from r repl (a ++ s) 0 = repl ++ sub_from r repl s 0.
Proof.
  intros Ha Hm Hp. destruct a as [|c a]; [done|].
  cbn [app sub_from]. cbn [app] in Hm. rewrite Hm, Hp.
  cbn [length]. by rewrite sub_from_skip.
Qed.

(** ** Fields [label: value] *)

Lemma greedy_plus_run p r k c v rest st res :
  p c = true -> forallb p v = true ->
  match rest with [] => True | d :: _ => p d = false end ->
  match_k r k rest (adv (length (c :: v)) st) = Some res ->
  match_k (PlusG p :: r) k ((c :: v) ++ rest) st = Some res.
Proof.
  intros Hc Hv Hrest Hk. cbn [match_k app]. rewrite Hc.
  apply greedy_run; [done..|]. rewrite adv_adv. exact Hk.
Qed.

Lemma update_field_match label v rest st :
  token v -> match rest with [] => True | d :: _ => isspace d = true end ->
  match_at [Lit label; StarG isspace; PlusG nonspace]
    (label ++ 32%N :: v ++ rest) st
  = Some (adv (length (label ++ 32%N :: v)) st).
Proof.
  intros [Hne Hv] Hrest. unfold match_at.
  destruct v as [|c v]; [done|]. cbn in Hv. apply andb_prop in Hv as [Hc Hv].
  rewrite match_k_lit_app, match_k_starG.
  apply (greedy_run isspace _ [32%N]); [done|by apply negb_true_iff in Hc|].
  apply greedy_plus_run; [done|done| |].
  - destruct rest; [done|]. unfold nonspace. by rewrite Hrest.
  - cbn [match_k accept]. rewrite !adv_adv. do 2 f_equal.
    rewrite length_app. cbn [length]. lia.
Qed.

(** ** Removing a hook file: which lines stay *)

Section RemoveHook.
Import InstallHooks.

Lemma marker_is_ours line :
str_in CONTEXT_HOOK_MARKER line = true -> _is_ours line = true.
Proof.
intros H. unfold _is_ours. rewrite H.
repeat (case_match; try reflexivity).
Qed.

Lemma signature_is_ours line : has_signature line = true -> _is_ours line = true.
Proof.
intros H. unfold _is_ours. rewrite H.
repeat (case_match; try reflexivity).
Qed.

Lemma blank_is_ours line : strip line = [] -> _is_ours line = true.
Proof.
intros H. unfold _is_ours. rewrite H.
rewrite bool_decide_eq_true_2 by reflexivity. reflexivity.
Qed.

Lemma foreign_inv line :
foreign line ->
str_in CONTEXT_HOOK_MARKER line = false /\ has_signature line = false
/\ strip line <> [] /\ startswith line (lit "#!/") = false.
Proof.
unfold foreign. intros H. repeat split.
- destruct (str_in CONTEXT_HOOK_MARKER line) eqn:E; [|done].
  apply marker_is_ours in E. congruence.
- destruct (has_signature line) eqn:E; [|done].
  apply signature_is_ours in E. congruence.
- intros E. apply blank_is_ours in E. congruence.
- unfold _is_ours in H.
  destruct (startswith line (lit "#!/")); [|done].
  rewrite !orb_true_r in H. discriminate.
Qed.


Lemma clean_lines_sublist lines : forall skip_block,
sublist (clean_lines lines skip_block) lines.
Proof.
induction lines as [|line rest IH]; intros skip_block; [constructor|].
cbn [clean_lines].
repeat case_match; try (apply sublist_cons; apply IH).
apply sublist_skip, IH.
Qed.

Lemma clean_lines_kept lines : forall skip_block,
Forall (fun l => foreign l \/ shebang l) (clean_lines lines skip_block).
Proof.
induction lines as [|line rest IH]; intros skip_block; [constructor|].
cbn [clean_lines].
repeat case_match; try apply IH.
constructor; [|apply IH].
unfold foreign, shebang.
destruct (_is_ours line) eqn:E1; [|by left].
destruct (startswith line (lit "#!/")) eqn:E2; [by right|].
discriminate.
Qed.











End RemoveHook.

(** ** The staleness evaluator *)

Section Audit.
Import ContextAudit.
Variable fnmatch : str -> str -> bool.

(** C5.  A document in which no marker is parsed is Unmarked.  Otherwise
    the fingerprint is recomputed from the watches stored in the marker,
    and the document is Current exactly when that fingerprint equals the
    stored hash, Stale exactly when it differs. *)
Theorem audit_classifies git content :
  match parse_freshness_marker content with
  | None => audit_verdict fnmatch git content = Some Unmarked
  | Some m =>
      let current := compute_hash fnmatch git (watches m) in
      (audit_verdict fnmatch git content = Some Current <-> current = watches_hash m)
      /\ (audit_verdict fnmatch git content = Some Stale <-> current <> watches_hash m)
  end.
Proof.
  unfold audit_verdict, audit_file.
  destruct (parse_freshness_marker content) as [m|]; [|reflexivity].
  cbn zeta. case_bool_decide as E; cbn [verdict_of].
  - split; split; intros; try done; congruence.
  - assert (compute_hash fnmatch git (watches m) = watches_hash m) as E'.
    { destruct (decide (watches_hash m = compute_hash fnmatch git (watches m)));
        [done|contradiction]. }
    split; split; done.
Qed.

(** Every row of the report counts in exactly one place: unreadable files
    in none, the others in the counter of their verdict. *)
Lemma count_row_verdict c r :
  count_row c r =
  match verdict_of r with
  | None => c
  | Some Unmarked => Counts (stale_count c) (ok_count c) (S (missing_count c))
  | Some Stale => Counts (S (stale_count c)) (ok_count c) (missing_count c)
  | Some Current => Counts (stale_count c) (S (ok_count c)) (missing_count c)
  end.
Proof. by destruct r. Qed.

Lemma search_lit_none l r s : forall start,
  str_in l s = false -> search_from (Lit l :: r) s start = None.
Proof.
  induction s as [|c s IH]; intros start H; cbn [str_in] in H.
  - apply orb_false_iff in H as [H _]. cbn [search_from]. unfold match_at.
    cbn [match_k]. by rewrite H.
  - apply orb_false_iff in H as [H1 H2]. cbn [search_from].
    unfold match_at. cbn [match_k]. rewrite H1. by apply IH.
Qed.

(** A block that does not spell the label has no hash field. *)
Lemma no_label_no_hash block :
  str_in (lit "watches_hash:") block = false -> field HASH_RE block = None.
Proof.
  intros H. unfold field, re_search, HASH_RE.
  by rewrite search_lit_none.
Qed.

(** With no watches, nothing matches: the fingerprint is the empty-match
    sentinel when the listing succeeds. *)
Lemma compute_hash_no_watches git :
  compute_hash fnmatch git [] =
  match git_ls_files git with
  | Completed _ => EMPTY_MATCH
  | CalledProcessError => ERROR
  end.
Proof.
  unfold compute_hash. destruct (git_ls_files git) as [out|]; [|done].
  assert (matched_files fnmatch (stdout_lines out) [] = ∅) as ->; [|done].
  unfold matched_files. generalize (∅ : gset str).
  induction (stdout_lines out) as [|f fs IH]; intros X; [done|]. apply IH.
Qed.

(** C2, as amended.  For a document whose delimiter block exists: when
    the block has no [watches_hash] field the document is Unmarked; when
    it has one, the marker is not treated as absent, whether or not it
    lists watches: with no watches entries the document is Current exactly
    when the stored hash is what the hash engine returns for the empty
    pattern list (the empty-match sentinel when the listing succeeds), and
    Stale otherwise. *)
Theorem block_without_hash_is_unmarked git content block :
  freshness_block content = Some block ->
  (field HASH_RE block = None -> audit_verdict fnmatch git content = Some Unmarked)
  /\ (forall h, field HASH_RE block = Some h ->
        audit_verdict fnmatch git content <> Some Unmarked
        /\ (block_watches block = [] ->
            let current :=
              match git_ls_files git with
              | Completed _ => EMPTY_MATCH
              | CalledProcessError => ERROR
              end in
            (audit_verdict fnmatch git content = Some Current <-> h = current)
            /\ (audit_verdict fnmatch git content = Some Stale <-> h <> current))).
Proof.
  intros Hb. unfold audit_verdict, audit_file, parse_freshness_marker.
  rewrite Hb. split.
  - intros ->. reflexivity.
  - intros h Hh. pose proof (audit_hash_field_nonempty _ _ Hh) as Hne.
    rewrite Hh. destruct h as [|c h]; [done|]. cbn [watches watches_hash].
    split.
    + by case_bool_decide.
    + intros ->. rewrite compute_hash_no_watches. cbn zeta.
      set (cur := match git_ls_files git with
                  | Completed _ => EMPTY_MATCH | CalledProcessError => ERROR end).
      case_bool_decide as E; cbn [verdict_of].
      * split; split; intros; try done; congruence.
      * assert (c :: h = cur) as E'.
        { destruct (decide (c :: h = cur)); [done|contradiction]. }
        split; split; done.
Qed.
End Audit.

(** Witness of [audit_classifies]: the sample document is Current in the
    sample repository. *)
Lemma audit_classifies_witness :
  audit_verdict glob_match sample_git sample_doc = Some ContextAudit.Current.
Proof.
  pose proof (audit_classifies glob_match sample_git sample_doc) as H.
  assert (ContextAudit.parse_freshness_marker sample_doc
          = Some (ContextAudit.Marker (lit "2dd1d0b") (Some (lit "2026-01-15"))
                    [lit "src/*"])) as E by (vm_compute; reflexivity).
  rewrite E in H. apply H. vm_compute. reflexivity.
Defined.

(** Witness of [block_without_hash_is_unmarked]. *)
Lemma block_without_hash_is_unmarked_witness :
  audit_verdict glob_match sample_git doc_without_watches
  = Some ContextAudit.Stale.
Proof.
  pose proof (block_without_hash_is_unmarked glob_match sample_git
                doc_without_watches (lit "watches_hash: abc1234")
                ltac:(vm_compute; reflexivity)) as [_ H].
  destruct (H (lit "abc1234") ltac:(vm_compute; reflexivity)) as [_ H'].
  apply (H' ltac:(vm_compute; reflexivity)).
  vm_compute. discriminate.
Defined.

(** C2 as stated fails: a block with a hash and no watches entries is
    classified, here as Stale. *)
Lemma block_without_watches_is_classified :
  ContextAudit.freshness_block doc_without_watches
  = Some (lit "watches_hash: abc1234")
  /\ ContextAudit.block_watches (lit "watches_hash: abc1234") = []
  /\ audit_verdict glob_match sample_git doc_without_watches
     = Some ContextAudit.Stale
  /\ audit_verdict glob_match sample_git doc_without_watches
     <> Some ContextAudit.Unmarked.
Proof.
  repeat split; try (vm_compute; reflexivity). vm_compute. discriminate.
Qed.

(** ** The hash engine *)

Lemma str_leb_refl a : str_leb a a = true.
Proof.
  induction a as [|x a IH]; [done|]. cbn. by rewrite N.ltb_irrefl.
Qed.

#[global] Instance str_le_total : Total str_le.
Proof.
  intros a. unfold str_le. induction a as [|x a IH]; intros b; [by left|].
  destruct b as [|y b]; [by right|]. cbn.
  destruct (N.ltb_spec x y), (N.ltb_spec y x); try lia; auto.
Qed.

#[global] Instance str_le_trans : Transitive str_le.
Proof.
  intros a. unfold str_le. induction a as [|x a IH]; intros b c Hab Hbc; [done|].
  destruct b as [|y b]; [done|]. destruct c as [|z c]; [done|].
  cbn in *.
  destruct (N.ltb_spec x y), (N.ltb_spec y x), (N.ltb_spec y z),
    (N.ltb_spec z y), (N.ltb_spec x z), (N.ltb_spec z x);
    try done; try lia.
  by apply (IH b).
Qed.

#[global] Instance str_le_antisym : AntiSymm (=) str_le.
Proof.
  intros a. unfold str_le. induction a as [|x a IH]; intros b Hab Hba.
  - by destruct b.
  - destruct b as [|y b]; [done|]. cbn in *.
    destruct (N.ltb_spec x y), (N.ltb_spec y x); try done; try lia.
    assert (x = y) as -> by lia. f_equal. by apply IH.
Qed.

(** [sorted] lists the members of the set, each once, in order. *)
Lemma sorted_spec (X : gset str) :
  StronglySorted str_le (sorted X) /\ NoDup (sorted X)
  /\ forall f, f ∈ sorted X <-> f ∈ X.
Proof.
  unfold sorted. split; [apply StronglySorted_merge_sort; apply _|].
  split.
  - rewrite merge_sort_Permutation. apply NoDup_elements.
  - intros f. rewrite merge_sort_Permutation. apply elem_of_elements.
Qed.

Lemma sentinels_differ : ERROR <> EMPTY_MATCH.
Proof. unfold ERROR, EMPTY_MATCH. discriminate. Qed.

Section Hashing.
Variable fnmatch : str -> str -> bool.

Lemma elem_of_matched_fold files ws : forall (X : gset str) f,
  f ∈ fold_left
        (fun (matched : gset str) f =>
           if existsb (fnmatch f) ws then matched ∪ {[ f ]} else matched)
        files X
  <-> f ∈ X \/ (f ∈ files /\ existsb (fnmatch f) ws = true).
Proof.
  induction files as [|g files IH]; intros X f; cbn [fold_left].
  - split; [by left|]. intros [?|[H _]]; [done|]. by apply elem_of_nil in H.
  - rewrite IH. rewrite elem_of_cons.
    destruct (existsb (fnmatch g) ws) eqn:E.
    + rewrite elem_of_union, elem_of_singleton.
      split; [intros [[?| ->]|[? ?]]|intros [?|[[-> |?] ?]]]; auto.
    + split; [intros [?|[? ?]]|intros [?|[[-> |?] ?]]]; auto. congruence.
Qed.

(** The matched set: the listed files that some pattern matches. *)
Lemma elem_of_matched_files files ws f :
  f ∈ matched_files fnmatch files ws
  <-> f ∈ files /\ existsb (fnmatch f) ws = true.
Proof.
  unfold matched_files. rewrite elem_of_matched_fold.
  split; [intros [H|H]; [by apply not_elem_of_empty in H|done]|by right].
Qed.

Lemma matched_files_empty files ws :
  matched_files fnmatch files ws = ∅
  <-> forall f, f ∈ files -> existsb (fnmatch f) ws = false.
Proof.
  split.
  - intros H f Hf. destruct (existsb (fnmatch f) ws) eqn:E; [|done].
    assert (f ∈ matched_files fnmatch files ws) as Hin
      by (by apply elem_of_matched_files).
    rewrite H in Hin. by apply not_elem_of_empty in Hin.
  - intros H. apply leibniz_equiv. apply elem_of_equiv_empty. intros f Hf.
    apply elem_of_matched_files in Hf as [Hf E]. rewrite (H f Hf) in E. done.
Qed.

Lemma existsb_Permutation {A} (g : A -> bool) l1 l2 :
  l1 ≡ₚ l2 -> existsb g l1 = existsb g l2.
Proof.
  induction 1; cbn; try congruence.
  - by rewrite !orb_assoc, (orb_comm (g y)).
Qed.

(** The three tools agree on everything but failures: each returns a
    function of the matched set. *)
Lemma compute_hash_matched git ws1 ws2 :
  matched fnmatch git ws1 = matched fnmatch git ws2 ->
  ContextAudit.compute_hash fnmatch git ws1
  = ContextAudit.compute_hash fnmatch git ws2
  /\ ContextBootstrap.compute_hash fnmatch git ws1
     = ContextBootstrap.compute_hash fnmatch git ws2
  /\ ContextUpdateHash.compute_hash fnmatch git ws1
     = ContextUpdateHash.compute_hash fnmatch git ws2.
Proof.
  unfold matched, tracked, ContextAudit.compute_hash,
    ContextBootstrap.compute_hash, ContextUpdateHash.compute_hash.
  destruct (git_ls_files git) as [out|]; [|done].
  by intros ->.
Qed.

(** C4.  Two pattern lists that match the same set of tracked files get the
    same fingerprint; so do, in particular, two orderings of one list.  What
    is hashed is the matched paths, each once, in sorted order. *)
Theorem fingerprint_order_independent git ws1 ws2 :
  ((forall f, f ∈ matched fnmatch git ws1 <-> f ∈ matched fnmatch git ws2) ->
   ContextAudit.compute_hash fnmatch git ws1
   = ContextAudit.compute_hash fnmatch git ws2)
  /\ (ws1 ≡ₚ ws2 ->
      ContextAudit.compute_hash fnmatch git ws1
      = ContextAudit.compute_hash fnmatch git ws2)
  /\ StronglySorted str_le (sorted (matched fnmatch git ws1))
  /\ NoDup (sorted (matched fnmatch git ws1))
  /\ (forall f, f ∈ sorted (matched fnmatch git ws1)
                <-> f ∈ tracked git /\ existsb (fnmatch f) ws1 = true).
Proof.
  assert (forall a b,
    (forall f, f ∈ matched fnmatch git a <-> f ∈ matched fnmatch git b) ->
    ContextAudit.compute_hash fnmatch git a
    = ContextAudit.compute_hash fnmatch git b) as Hset.
  { intros a b H. apply compute_hash_matched.
    apply leibniz_equiv. intros f. apply H. }
  split; [apply Hset|]. split.
  - intros Hp. apply Hset. intros f. unfold matched.
    rewrite !elem_of_matched_files. by rewrite (existsb_Permutation _ _ _ Hp).
  - destruct (sorted_spec (matched fnmatch git ws1)) as (Hs & Hn & Hin).
    split; [done|]. split; [done|]. intros f. rewrite Hin.
    apply elem_of_matched_files.
Qed.

(** C3, as amended.  When a git command of the hashing fails, the audit
    tool returns the error sentinel, which differs from the empty-match
    sentinel; the bootstrap tool returns the empty-match sentinel; the
    update tool exits with status 1. *)
Theorem hashing_failure_by_tool git ws :
  hashing_fails fnmatch git ws ->
  ContextAudit.compute_hash fnmatch git ws = ERROR
  /\ ERROR <> EMPTY_MATCH
  /\ ContextBootstrap.compute_hash fnmatch git ws = EMPTY_MATCH
  /\ exists message,
       ContextUpdateHash.compute_hash fnmatch git ws
       = ContextUpdateHash.SysExit 1 message.
Proof.
  unfold hashing_fails, matched, tracked, ContextAudit.compute_hash,
    ContextBootstrap.compute_hash, ContextUpdateHash.compute_hash.
  intros [H|[Hne H]].
  - rewrite H. split; [done|]. split; [apply sentinels_differ|].
    split; [done|]. by eexists.
  - destruct (git_ls_files git) as [out|].
    + destruct (decide (matched_files fnmatch (stdout_lines out) ws = ∅));
        [done|]. rewrite H.
      split; [done|]. split; [apply sentinels_differ|].
      split; [done|]. by eexists.
    + split; [done|]. split; [apply sentinels_differ|].
      split; [done|]. by eexists.
Qed.

(** C10, as amended.  When the listing succeeds and no tracked file matches
    a pattern, each tool returns the empty-match sentinel, whatever
    [git hash-object] would answer.  The sentinel differs from the error
    sentinel.  For a non-empty match the fingerprint is the first seven
    characters of the digest, so it equals the sentinel exactly when the
    digest begins with seven zeros. *)
Theorem empty_match_gives_sentinel git ws out :
  git_ls_files git = Completed out ->
  ((forall f, f ∈ tracked git -> existsb (fnmatch f) ws = false) ->
   ContextAudit.compute_hash fnmatch git ws = EMPTY_MATCH
   /\ ContextBootstrap.compute_hash fnmatch git ws = EMPTY_MATCH
   /\ ContextUpdateHash.compute_hash fnmatch git ws
      = ContextUpdateHash.Ret EMPTY_MATCH)
  /\ EMPTY_MATCH <> ERROR
  /\ (forall f digest,
        f ∈ tracked git -> existsb (fnmatch f) ws = true ->
        git_hash_object git (sorted_files (matched fnmatch git ws))
        = Completed digest ->
        (ContextAudit.compute_hash fnmatch git ws = EMPTY_MATCH
         <-> firstn 7 (strip digest) = EMPTY_MATCH)).
Proof.
  intros Hls. unfold matched, tracked, ContextAudit.compute_hash,
    ContextBootstrap.compute_hash, ContextUpdateHash.compute_hash.
  rewrite Hls.
  split; [|split; [intros E; symmetry in E; by apply sentinels_differ in E|]].
  - intros H. apply matched_files_empty in H. rewrite H.
    by destruct (decide ((∅ : gset str) = ∅)).
  - intros f digest Hf Hm Hd.
    destruct (decide (matched_files fnmatch (stdout_lines out) ws = ∅)) as [E|_].
    + rewrite matched_files_empty in E. rewrite (E f Hf) in Hm. done.
    + by rewrite Hd.
Qed.
End Hashing.

(** Witness of [fingerprint_order_independent]. *)
Lemma fingerprint_order_independent_witness :
  ContextAudit.compute_hash glob_match sample_git [lit "src/*"]
  = ContextAudit.compute_hash glob_match sample_git [lit "src/m*"; lit "src/a*"]
  /\ ContextAudit.compute_hash glob_match sample_git [lit "*.md"; lit "src/*"]
     = ContextAudit.compute_hash glob_match sample_git [lit "src/*"; lit "*.md"].
Proof.
  split.
  - apply (proj1 (fingerprint_order_independent glob_match sample_git
                      [lit "src/*"] [lit "src/m*"; lit "src/a*"])).
    assert (matched glob_match sample_git [lit "src/*"]
            = matched glob_match sample_git [lit "src/m*"; lit "src/a*"]) as E
      by (vm_compute; reflexivity).
    intros f. by rewrite E.
  - apply (proj1 (proj2 (fingerprint_order_independent glob_match sample_git
                           [lit "*.md"; lit "src/*"] [lit "src/*"; lit "*.md"]))).
    apply perm_swap.
Defined.

Lemma sample_match_nonempty :
  matched glob_match git_hash_fails [lit "src/*"] <> ∅.
Proof.
  intros E.
  assert (lit "src/app.py" ∈ matched glob_match git_hash_fails [lit "src/*"]) as H.
  { apply elem_of_matched_files. split; [|vm_compute; reflexivity].
    vm_compute. apply list_elem_of_further, list_elem_of_further, list_elem_of_here. }
  rewrite E in H. by apply not_elem_of_empty in H.
Qed.

(** Witness of [hashing_failure_by_tool]. *)
Lemma hashing_failure_by_tool_witness :
  ContextAudit.compute_hash glob_match git_hash_fails [lit "src/*"] = ERROR
  /\ ERROR <> EMPTY_MATCH
  /\ ContextBootstrap.compute_hash glob_match git_hash_fails [lit "src/*"]
     = EMPTY_MATCH
  /\ exists message,
       ContextUpdateHash.compute_hash glob_match git_hash_fails [lit "src/*"]
       = ContextUpdateHash.SysExit 1 message.
Proof.
  apply (hashing_failure_by_tool glob_match git_hash_fails [lit "src/*"]).
  right. split; [apply sample_match_nonempty|reflexivity].
Defined.

(** C3 as stated fails: in the bootstrap tool a failed [git hash-object]
    gives the empty-match sentinel, the answer it also gives when no file
    matches. *)
Lemma bootstrap_failure_is_not_error :
  hashing_fails glob_match git_hash_fails [lit "src/*"]
  /\ ContextBootstrap.compute_hash glob_match git_hash_fails [lit "src/*"]
     = EMPTY_MATCH
  /\ ContextBootstrap.compute_hash glob_match git_hash_fails [lit "src/*"]
     <> ERROR
  /\ ContextBootstrap.compute_hash glob_match sample_git [lit "*.txt"]
     = EMPTY_MATCH.
Proof.
  split; [right; split; [apply sample_match_nonempty|reflexivity]|].
  split; [vm_compute; reflexivity|].
  split; [vm_compute; discriminate|vm_compute; reflexivity].
Qed.

(** Witness of [empty_match_gives_sentinel]. *)
Lemma empty_match_gives_sentinel_witness :
  ContextAudit.compute_hash glob_match sample_git [lit "*.txt"] = EMPTY_MATCH
  /\ ContextBootstrap.compute_hash glob_match sample_git [lit "*.txt"]
     = EMPTY_MATCH
  /\ ContextUpdateHash.compute_hash glob_match sample_git [lit "*.txt"]
     = ContextUpdateHash.Ret EMPTY_MATCH.
Proof.
  apply (empty_match_gives_sentinel glob_match sample_git [lit "*.txt"]
           sample_tracked eq_refl).
  intros f Hf. vm_compute in Hf.
  repeat (apply elem_of_cons in Hf as [->|Hf]; [vm_compute; reflexivity|]).
  by apply elem_of_nil in Hf.
Defined.

(** C10 as stated fails: a non-empty match whose digest begins with seven
    zeros has the fingerprint of the empty match. *)
Lemma digest_prefix_equals_sentinel :
  zero_prefix_path ∈ matched glob_match zero_prefix_git [lit "notes/*"]
  /\ ContextAudit.compute_hash glob_match zero_prefix_git [lit "notes/*"]
     = EMPTY_MATCH
  /\ matched glob_match zero_prefix_git [lit "*.txt"] = ∅
  /\ ContextAudit.compute_hash glob_match zero_prefix_git [lit "*.txt"]
     = EMPTY_MATCH.
Proof.
  split.
  { apply elem_of_matched_files. split; [|vm_compute; reflexivity].
    vm_compute. apply list_elem_of_further, list_elem_of_here. }
  split; [vm_compute; reflexivity|].
  split; [vm_compute; reflexivity|vm_compute; reflexivity].
Qed.

(** ** Installing the hooks *)

Lemma spells_signature_app_r s t :
  spells_signature t = true -> spells_signature (s ++ t) = true.
Proof.
  unfold spells_signature. intros H. apply orb_prop in H as [H|H].
  - by rewrite (str_in_app_r _ s t H).
  - rewrite (str_in_app_r _ s t H). apply orb_true_r.
Qed.

Section Install.
Import InstallHooks.
Variable h : Host.

(** A hook file that spells a call signature is left as it is. *)
Lemma write_hook_skips f content :
  spells_signature (text f) = true ->
  write_hook h (Some f) content = (Some f, false).
Proof.
  unfold write_hook, spells_signature. by intros ->.
Qed.

(** After [write_hook] the file spells a call signature. *)
Lemma write_hook_signed hook_file content :
  template_ok content = true ->
  exists f, fst (write_hook h hook_file content) = Some f
            /\ spells_signature (text f) = true.
Proof.
  unfold template_ok. intros H. apply andb_prop in H as [Ht Ha].
  destruct hook_file as [f|]; cbn [write_hook].
  - fold (spells_signature (text f)).
    destruct (spells_signature (text f)) eqn:E; cbn [fst].
    + by exists f.
    + eexists. split; [reflexivity|]. cbn [make_executable text].
      by apply spells_signature_app_r.
  - eexists. split; [reflexivity|]. done.
Qed.

Lemma write_hook_twice hook_file content content' :
  template_ok content = true ->
  fst (write_hook h (fst (write_hook h hook_file content)) content')
  = fst (write_hook h hook_file content).
Proof.
  intros H. destruct (write_hook_signed hook_file content H) as (f & -> & Hf).
  by rewrite write_hook_skips.
Qed.

Lemma hook_entry_signed : str_in (lit "context_check_watches") (hook_entry h) = true.
Proof.
  unfold hook_entry.
  do 13 apply str_in_app_r. apply str_in_app_l. vm_compute. reflexivity.
Qed.

Lemma install_precommit_text_twice content :
  install_precommit_text h (install_precommit_text h content)
  = install_precommit_text h content.
Proof.
  unfold install_precommit_text.
  destruct (str_in (lit "context_check_watches") content) eqn:E.
  - by rewrite E.
  - by rewrite (str_in_app_r _ content _ hook_entry_signed).
Qed.

Lemma strip_githooks : strip (lit ".githooks") = lit ".githooks".
Proof. vm_compute. reflexivity. Qed.

(** C9.  When the templates spell a call signature (the built-in ones do),
    installing a second time changes nothing: every hook file and the
    pre-commit configuration keep the content, and the repository the state,
    that the first install produced. *)
Theorem install_twice (r : repo) :
  (forall name, template_ok (read_template h name) = true) ->
  install h (install h r) = install h r.
Proof.
  intros Hok. destruct r as [hu hpc hpm pc gd gpc gpm hp].
  unfold install, detect_husky, detect_precommit.
  cbn [husky precommit_config]. destruct hu.
  - unfold install_husky.
    cbn [husky husky_post_commit husky_post_merge precommit_config
      githooks_dir githooks_post_commit githooks_post_merge hooks_path].
    by rewrite !write_hook_twice.
  - destruct pc as [c|].
    + change (bool_decide (is_Some (Some c))) with true. cbn iota.
      unfold install_precommit.
      cbn [husky husky_post_commit husky_post_merge precommit_config
        githooks_dir githooks_post_commit githooks_post_merge hooks_path
        fmap option_fmap option_map].
      change (bool_decide (is_Some (Some (install_precommit_text h c))))
        with true. cbn iota.
      by rewrite install_precommit_text_twice.
    + change (bool_decide (is_Some (@None str))) with false. cbn iota.
      unfold install_plain_git.
      cbn [husky husky_post_commit husky_post_merge precommit_config
        githooks_dir githooks_post_commit githooks_post_merge hooks_path].
      change (bool_decide (is_Some (@None str))) with false. cbn iota.
      rewrite !write_hook_twice by done. f_equal.
      destruct (bool_decide (strip hp ≠ lit ".githooks")) eqn:E1;
        destruct (config_writable h); rewrite ?strip_githooks, ?E1; try done.
Qed.
End Install.

(** The built-in templates qualify. *)
Lemma inline_templates_ok (h : InstallHooks.Host) name :
  InstallHooks.template_file h name = None ->
  template_ok (InstallHooks.read_template h name) = true.
Proof.
  unfold InstallHooks.read_template. intros ->.
  destruct name; vm_compute; reflexivity.
Qed.

(** Witness of [install_twice]. *)
Lemma install_twice_witness :
  InstallHooks.install sample_host (InstallHooks.install sample_host sample_repo)
  = InstallHooks.install sample_host sample_repo.
Proof.
  apply (install_twice sample_host sample_repo).
  intros name. destruct name; vm_compute; reflexivity.
Defined.

(** ** Adding a marker *)

(** The block the bootstrap tool writes is found by its own pattern,
    whatever the hash, the date and the patterns are. *)
Lemma built_marker_matches today h globs st :
  is_Some (match_at ContextBootstrap.FRESHNESS_PATTERN
             (skipn 1 (ContextBootstrap.build_marker today h globs)) st).
Proof.
  unfold ContextBootstrap.build_marker, match_at,
    ContextBootstrap.FRESHNESS_PATTERN.
  cbn [app skipn]. rewrite drop_0.
  change (lit "<!-- freshness") with (lit "<!--" ++ 32%N :: lit "freshness").
  rewrite <- app_assoc. rewrite match_k_lit_app, match_k_starG.
  cbn [app].
  apply (greedy_complete _ _ _ _ 1); [cbn; lia|done|].
  cbn [skipn]. rewrite drop_0.
  rewrite match_k_lit_app, match_k_starG.
  apply (greedy_complete _ _ _ _ 0); [cbn; lia|done|]. rewrite drop_0.
  rewrite match_k_lit_cons, match_k_starL.
  remember (nl :: lit "-->" ++ [nl]) as tail eqn:Htail.
  repeat (apply lazy_any_app || apply lazy_any_cons).
  apply lazy_any_here. subst tail. vm_compute. by eexists.
Qed.

Lemma has_marker_after_build content today h globs :
  ContextBootstrap.has_freshness_marker
    (content ++ ContextBootstrap.build_marker today h globs) = true.
Proof.
  unfold ContextBootstrap.has_freshness_marker.
  apply bool_decide_eq_true_2. unfold re_search.
  apply (search_from_complete _ _ (length content + 1)).
  - rewrite length_app. unfold ContextBootstrap.build_marker. cbn. lia.
  - rewrite <- drop_drop, drop_app_length. apply built_marker_matches.
Qed.

Section AddMarker.
Import ContextBootstrap.
Variable fnmatch : str -> str -> bool.

(** C8.  On a document that already holds a marker block, [add_marker]
    leaves the text as it is and reports that the file is already tracked.
    And whatever the first call did, a second call changes nothing: the
    text after the second call is the text after the first. *)
Theorem add_marker_twice git git' today today' content globs globs' :
  (has_freshness_marker content = true ->
   add_marker fnmatch git today content globs = (content, AlreadyTracked))
  /\ add_marker fnmatch git' today'
       (fst (add_marker fnmatch git today content globs)) globs'
     = (fst (add_marker fnmatch git today content globs), AlreadyTracked).
Proof.
  split.
  - unfold add_marker. by intros ->.
  - unfold add_marker at 2 3.
    destruct (has_freshness_marker content) eqn:E; cbn [fst].
    + unfold add_marker. by rewrite E.
    + unfold add_marker. by rewrite has_marker_after_build.
Qed.
End AddMarker.

(** Witness of [add_marker_twice]. *)
Lemma add_marker_twice_witness :
  ContextBootstrap.add_marker glob_match sample_git (lit "2026-11-04")
    sample_doc [lit "docs/*"]
  = (sample_doc, ContextBootstrap.AlreadyTracked)
  /\ ContextBootstrap.add_marker glob_match git_hash_fails (lit "2026-11-05")
       (fst (ContextBootstrap.add_marker glob_match sample_git
               (lit "2026-11-04") plain_doc [lit "src/*"])) [lit "*.md"]
     = (fst (ContextBootstrap.add_marker glob_match sample_git
               (lit "2026-11-04") plain_doc [lit "src/*"]),
        ContextBootstrap.AlreadyTracked).
Proof.
  split.
  - apply (proj1 (add_marker_twice glob_match sample_git sample_git
                      (lit "2026-11-04") (lit "2026-11-04") sample_doc
                      [lit "docs/*"] [])).
    vm_compute. reflexivity.
  - apply (proj2 (add_marker_twice glob_match sample_git git_hash_fails
                    (lit "2026-11-04") (lit "2026-11-05") plain_doc
                    [lit "src/*"] [lit "*.md"])).
Defined.

(** ** Updating the hash in place *)

Lemma nl_not_in_date_label : nl ∉ lit "last_verified:".
Proof.
  intros H. apply list_elem_of_In in H. vm_compute in H.
  repeat (destruct H as [H|H]; [discriminate|]). exact H.
Qed.

Section Update.
Import ContextUpdateHash.
Variable fnmatch : str -> str -> bool.

Lemma compute_hash_length git ws h :
  compute_hash fnmatch git ws = Ret h -> length h <= 7.
Proof.
  unfold compute_hash. destruct (git_ls_files git) as [out|]; [|done].
  destruct (decide _); [by intros [= <-]|].
  destruct (git_hash_object git _) as [digest|]; [|done].
  intros [= <-]. rewrite length_firstn. lia.
Qed.

(** On a block in the form the bootstrap tool writes, the two
    substitutions exchange the two values. *)
Lemma rewrite_block_fields new_hash today v1 v2 rest :
  length new_hash <= 7 -> token v1 -> token v2 ->
  str_in (lit "watches_hash:") (v2 ++ nl :: rest) = false ->
  str_in (lit "last_verified:") rest = false ->
  rewrite_block new_hash today
    ((lit "watches_hash:" ++ 32%N :: v1)
     ++ nl :: (lit "last_verified:" ++ 32%N :: v2) ++ nl :: rest)
  = (lit "watches_hash:" ++ 32%N :: new_hash)
    ++ nl :: (lit "last_verified:" ++ 32%N :: today) ++ nl :: rest.
Proof.
  intros Hlen Hv1 Hv2 Hh Hd. unfold rewrite_block, re_sub, HASH_RE, DATE_RE.
  change (lit "watches_hash: ") with (lit "watches_hash:" ++ [32%N]).
  change (lit "last_verified: ") with (lit "last_verified:" ++ [32%N]).
  rewrite <- !(app_assoc _ [32%N]). cbn ["++"].
  (* the hash field *)
  rewrite (sub_from_hit _ _ _ _
             (adv (length (lit "watches_hash:" ++ 32%N :: v1)) (init_state 0))).
  2:{ by destruct (lit "watches_hash:"). }
  2:{ rewrite <- app_assoc. cbn [app]. by apply update_field_match. }
  2:{ cbn [adv pos init_state]. lia. }
  rewrite (sub_from_none (lit "watches_hash:")).
  2:{ rewrite <- app_assoc. cbn [app].
      change (nl :: lit "last_verified:" ++ 32%N :: v2 ++ nl :: rest)
        with ((nl :: lit "last_verified:" ++ [32%N]) ++ v2 ++ nl :: rest).
      rewrite str_in_skip; [done|by_computing..]. }
  (* the date field *)
  rewrite !(cons_middle nl (lit "watches_hash:" ++ 32%N :: new_hash)).
  rewrite !(app_assoc (lit "watches_hash:" ++ 32%N :: new_hash) [nl]).
  rewrite (sub_from_passes _ _ _ ((lit "watches_hash:" ++ 32%N :: new_hash) ++ [nl])).
  2:{ intros a b Hab Hb.
      apply (lit_starts_nowhere _ (lit "watches_hash:" ++ 32%N :: new_hash) nl _ a b);
        [|apply nl_not_in_date_label|done..].
      change ((lit "watches_hash:" ++ 32%N :: new_hash) ++ [nl])
        with ((lit "watches_hash:" ++ [32%N]) ++ new_hash ++ [nl]).
      rewrite str_in_skip; [|by_computing..].
      apply str_in_short. rewrite length_app. cbn. lia. }
  rewrite (sub_from_hit _ _ _ _
             (adv (length (lit "last_verified:" ++ 32%N :: v2)) (init_state 0))).
  2:{ by destruct (lit "last_verified:"). }
  2:{ rewrite <- app_assoc. cbn [app]. by apply update_field_match. }
  2:{ cbn [adv pos init_state]. lia. }
  rewrite sub_from_none.
  2:{ change (nl :: rest) with ([nl] ++ rest).
      rewrite str_in_skip; [done|by_computing..]. }
  done.
Qed.

Lemma rewrite_block_canonical new_hash today v1 v2 rest :
  length new_hash <= 7 -> token v1 -> token v2 ->
  str_in (lit "watches_hash:") (v2 ++ nl :: rest) = false ->
  str_in (lit "last_verified:") rest = false ->
  rewrite_block new_hash today
    (lit "watches_hash: " ++ v1 ++ nl :: lit "last_verified: " ++ v2
     ++ nl :: rest)
  = lit "watches_hash: " ++ new_hash ++ nl :: lit "last_verified: " ++ today
    ++ nl :: rest.
Proof.
  intros Hlen Hv1 Hv2 Hnh Hnd.
  pose proof (rewrite_block_fields new_hash today v1 v2 rest
                Hlen Hv1 Hv2 Hnh Hnd) as Hr.
  change (lit "watches_hash: ") with (lit "watches_hash:" ++ [32%N]).
  change (lit "last_verified: ") with (lit "last_verified:" ++ [32%N]).
  revert Hr. flatten_app. done.
Qed.

(** C7, as amended.  When the update tool rewrites a file, it works on the
    text [read_text] returns, in which every CR LF and every other CR of the
    file is an LF, and which is the text of the file when the file holds no
    CR.  Of that text, what stands before and after the inner text of the
    marker block is stored back unchanged, and the inner text is put
    through the two substitutions, each of which replaces a label together
    with the white space and the token after it.  When the block has the
    form the bootstrap tool writes (each label followed by one space and a
    token, and neither label spelled again further down), the new text is
    the text read with the two values exchanged. *)
Theorem update_rewrites_inside_block git today raw new_content :
  main fnmatch git today (Some (Utf8 raw)) = Ret new_content ->
  exists m new_hash,
    let content := universal_newlines raw in
    let pre := firstn (start_of m 2) content in
    let block := group m 2 content in
    let post := skipn (end_of m 2) content in
    re_search FRESHNESS_PATTERN content = Some m
    /\ content = pre ++ block ++ post
    /\ (cr ∉ raw -> content = raw)
    /\ compute_hash fnmatch git (parse_watches block) = Ret new_hash
    /\ new_content = pre ++ rewrite_block new_hash today block ++ post
    /\ forall v1 v2 rest,
         token v1 -> token v2 ->
         block = lit "watches_hash: " ++ v1 ++ nl :: lit "last_verified: " ++ v2
                 ++ nl :: rest ->
         str_in (lit "watches_hash:") (v2 ++ nl :: rest) = false ->
         str_in (lit "last_verified:") rest = false ->
         only_values_rewritten content new_content v1 v2 new_hash today.
Proof.
  unfold main. cbn [read_text]. intros H.
  set (content := universal_newlines raw) in *.
  destruct (re_search FRESHNESS_PATTERN content) as [m|] eqn:Em; [|done].
  destruct (parse_watches (group m 2 content)) as [|w ws] eqn:Ew; [done|].
  destruct (compute_hash fnmatch git (w :: ws)) as [new_hash|] eqn:Eh; [|done].
  injection H as <-. exists m, new_hash. cbn zeta.
  destruct (update_group_span _ _ Em) as [Hle Hlen].
  pose proof (slice_parts content _ _ Hle Hlen) as Hparts.
  split; [done|]. split; [exact Hparts|].
  split; [apply universal_newlines_fixed|].
  rewrite Ew. split; [done|]. split; [done|].
  intros v1 v2 rest Hv1 Hv2 Hblock Hnh Hnd.
  unfold group in *. rewrite Hblock in Hparts |- *.
  exists (firstn (start_of m 2) content ++ lit "watches_hash: "),
    (nl :: lit "last_verified: "),
    (nl :: rest ++ skipn (end_of m 2) content).
  split.
  - rewrite Hparts at 1. by flatten_app.
  - rewrite (rewrite_block_canonical new_hash today v1 v2 rest
               (compute_hash_length _ _ _ Eh) Hv1 Hv2 Hnh Hnd).
    by flatten_app.
Qed.
End Update.

(** Witness of [update_rewrites_inside_block]. *)
Lemma update_rewrites_inside_block_witness :
  only_values_rewritten sample_doc
    (lit "# Notes" ++ [nl] ++ [nl] ++ lit "<!-- freshness" ++ [nl]
     ++ lit "watches_hash: 2dd1d0b" ++ [nl]
     ++ lit "last_verified: 2026-11-04" ++ [nl]
     ++ lit "watches:" ++ [nl] ++ lit "  - src/*" ++ [nl]
     ++ lit "-->" ++ [nl])
    (lit "2dd1d0b") (lit "2026-01-15") (lit "2dd1d0b") (lit "2026-11-04").
Proof.
  destruct (update_rewrites_inside_block glob_match sample_git
              (lit "2026-11-04") sample_doc _ ltac:(vm_compute; reflexivity))
    as (m & new_hash & Hm & _ & _ & Hh & _ & H).
  vm_compute in Hm. injection Hm as <-.
  vm_compute in Hh. injection Hh as <-.
  apply (H (lit "2dd1d0b") (lit "2026-01-15")
           (lit "watches:" ++ [nl] ++ lit "  - src/*")).
  - split; by_computing.
  - split; by_computing.
  - vm_compute. reflexivity.
  - vm_compute. reflexivity.
  - vm_compute. reflexivity.
Defined.

(** C7 as stated fails, twice.  With two blanks after the hash label, the
    hash and the date written are those already there, yet the text
    changes: the white space after the label is rewritten with the value.
    And in a file stored with CR LF line ends, whose hash and date are
    those written, every line end is stored back as LF, outside the block
    as inside. *)
Lemma update_rewrites_white_space :
  ContextUpdateHash.main glob_match sample_git (lit "2026-01-15")
    (Some (Utf8 doc_two_spaces))
  = ContextUpdateHash.Ret doc_two_spaces_updated
  /\ ContextAudit.parse_freshness_marker doc_two_spaces
     = Some (ContextAudit.Marker (lit "2dd1d0b") (Some (lit "2026-01-15"))
               [lit "src/*"])
  /\ doc_two_spaces_updated <> doc_two_spaces
  /\ ~ only_values_rewritten doc_two_spaces doc_two_spaces_updated
         (lit "2dd1d0b") (lit "2026-01-15") (lit "2dd1d0b") (lit "2026-01-15")
  /\ ContextUpdateHash.main glob_match sample_git (lit "2026-01-15")
       (Some (Utf8 doc_crlf))
     = ContextUpdateHash.Ret doc_lf
  /\ firstn 9 doc_crlf = lit "# Notes" ++ [cr; nl]
  /\ firstn 9 doc_lf <> firstn 9 doc_crlf
  /\ ~ only_values_rewritten doc_crlf doc_lf
         (lit "2dd1d0b") (lit "2026-01-15") (lit "2dd1d0b") (lit "2026-01-15").
Proof.
  split; [vm_compute; reflexivity|].
  split; [vm_compute; reflexivity|].
  split; [by_computing|].
  split.
  { intros (pre & mid & post & H1 & H2). rewrite <- H1 in H2.
    vm_compute in H2. discriminate. }
  split; [vm_compute; reflexivity|].
  split; [vm_compute; reflexivity|].
  split; [by_computing|].
  intros (pre & mid & post & H1 & H2). rewrite <- H1 in H2.
  vm_compute in H2. discriminate.
Qed.

(** ** Round trip of a marker *)


Section RoundTrip.
Import ContextAudit.
Variables today h : str.
Hypothesis Hh : fingerprint_token h.
Hypothesis Hd : token today.

Lemma strip_item g : sound_pattern g -> strip (item g) = lit "- " ++ g.
Proof.
  intros (Hne & _ & Hs). unfold strip, item.
  change (lstrip_by isspace (lit "  - " ++ g)) with (lit "- " ++ g).
  apply rstrip_by_app; [done|]. by apply strip_fixed.
Qed.

Lemma item_step acc g :
  sound_pattern g ->
  watches_step (acc, true) (item g) = (acc ++ [g], true).
Proof.
  intros Hg. unfold watches_step. rewrite (strip_item g Hg).
  destruct Hg as (Hne & _ & Hs).
  change (startswith (lit "- " ++ g) (lit "watches:")) with false.
  change (startswith (lit "- " ++ g) (lit "- ")) with true.
  cbn iota. change (skipn 2 (lit "- " ++ g)) with g. by rewrite Hs.
Qed.

Lemma items_fold gs : forall acc,
  Forall sound_pattern gs ->
  fold_left watches_step (map item gs) (acc, true) = (acc ++ gs, true).
Proof.
  induction gs as [|g gs IH]; intros acc H; cbn [map fold_left].
  - by rewrite app_nil_r.
  - inversion H as [|? ? Hg Hgs]; subst.
    rewrite item_step by done. rewrite IH by done.
    by rewrite <- app_assoc.
Qed.

Lemma token_nonempty_strip v : token v -> v <> [] /\ strip v = v.
Proof. intros Hv. split; [apply Hv|by apply token_strip]. Qed.

Lemma hash_line_step :
  watches_step ([], false) (lit "watches_hash: " ++ h) = ([], false).
Proof.
  unfold watches_step.
  destruct Hh as [Ht _]. destruct (token_nonempty_strip h Ht) as [Hne Hs].
  rewrite strip_app; [|by_computing|by_computing|done|done].
  change (startswith (lit "watches_hash: " ++ h) (lit "watches:")) with false.
  done.
Qed.

Lemma date_line_step :
  watches_step ([], false) (lit "last_verified: " ++ today) = ([], false).
Proof.
  unfold watches_step.
  destruct (token_nonempty_strip today Hd) as [Hne Hs].
  rewrite strip_app; [|by_computing|by_computing|done|done].
  change (startswith (lit "last_verified: " ++ today) (lit "watches:")) with false.
  done.
Qed.

Lemma item_one_line g : sound_pattern g -> one_line (item g) /\ item g <> [].
Proof.
  intros (_ & Hl & _). split; [|done].
  apply one_line_app; [by_computing|done].
Qed.

Lemma built_block_lines gs :
  gs <> [] -> Forall sound_pattern gs ->
  splitlines (built_block today h gs)
  = (lit "watches_hash: " ++ h) :: (lit "last_verified: " ++ today)
    :: lit "watches:" :: map item gs.
Proof.
  intros Hne Hgs. unfold built_block.
  destruct Hh as [[_ Hhv] _]. destruct Hd as [_ Hdv].
  rewrite (app_assoc (lit "watches_hash: ") h).
  rewrite splitlines_line
    by (apply one_line_app; [by_computing|by apply nonspace_one_line]).
  rewrite (app_assoc (lit "last_verified: ") today).
  rewrite splitlines_line
    by (apply one_line_app; [by_computing|by apply nonspace_one_line]).
  rewrite splitlines_line by by_computing.
  do 3 f_equal. apply splitlines_join.
  - apply Forall_forall. intros l Hl. apply list_elem_of_In, in_map_iff in Hl as (g & <- & Hg).
    apply item_one_line. rewrite Forall_forall in Hgs. apply Hgs.
    by apply list_elem_of_In.
  - apply Forall_forall. intros l Hl. apply list_elem_of_In, in_map_iff in Hl as (g & <- & Hg).
    done.
Qed.

(** The list of watches read back from the block is the list written. *)
Lemma built_block_watches gs :
  gs <> [] -> Forall sound_pattern gs ->
  block_watches (built_block today h gs) = gs.
Proof.
  intros Hne Hgs. unfold block_watches.
  rewrite built_block_lines by done. cbn [fold_left].
  rewrite hash_line_step, date_line_step.
  change (watches_step ([], false) (lit "watches:")) with (([] : list str), true).
  by rewrite items_fold.
Qed.
End RoundTrip.

Lemma slice_mid (a v rest : str) :
  slice (a ++ v ++ rest) (length a) (length a + length v) = v.
Proof.
  unfold slice. rewrite drop_app_length.
  replace (length a + length v - length a) with (length v) by lia.
  by rewrite take_app_length.
Qed.

(** The pattern [label\s*(\S+)] on a label followed by one space and a
    token: the group is the token. *)
Lemma audit_field_match (label v rest : str) n :
  token v -> match rest with [] => True | d :: _ => isspace d = true end ->
  exists st,
    match_at [Lit label; StarG isspace; Open 1; PlusG nonspace; Close 1]
      (label ++ 32%N :: v ++ rest) (init_state n) = Some st
    /\ g_start st 1 = n + length (label ++ [32%N])
    /\ g_end st 1 = n + length (label ++ [32%N]) + length v.
Proof.
  intros [Hne Hv] Hrest.
  destruct v as [|c v]; [done|]. cbn in Hv. apply andb_prop in Hv as [Hc Hv].
  eexists. split.
  - unfold match_at. rewrite match_k_lit_app, match_k_starG.
    apply (greedy_run isspace _ [32%N]); [done|by apply negb_true_iff in Hc|].
    rewrite match_k_open.
    apply greedy_plus_run; [done|done| |].
    + destruct rest; [done|]. unfold nonspace. by rewrite Hrest.
    + rewrite match_k_close. cbn [match_k accept]. reflexivity.
  - cbn. rewrite length_app. cbn. split; lia.
Qed.

Lemma field_found (label P v rest : str) :
  token v -> match rest with [] => True | d :: _ => isspace d = true end ->
  (forall a b, P = a ++ b -> b <> [] ->
     startswith (b ++ label ++ 32%N :: v ++ rest) label = false) ->
  ContextAudit.field [Lit label; StarG isspace; Open 1; PlusG nonspace; Close 1]
    (P ++ label ++ 32%N :: v ++ rest) = Some v.
Proof.
  intros Hv Hrest HP. unfold ContextAudit.field, re_search.
  rewrite (search_from_skip _ _ (length P)).
  2:{ rewrite length_app. apply Nat.le_add_r. }
  2:{ intros j Hj. rewrite drop_app_le by lia. apply match_lit_fails.
      apply (HP (take j P)); [by rewrite take_drop|].
      intros E. apply (f_equal (@length _)) in E.
      rewrite length_drop in E. cbn in E. lia. }
  rewrite drop_app_length. cbn [Nat.add].
  destruct (audit_field_match label v rest (length P) Hv Hrest)
    as (st & Hm & Hs & He).
  rewrite (search_from_hit _ _ _ _ Hm).
  unfold group, start_of, end_of. cbn [m_state]. rewrite Hs, He.
  replace (P ++ label ++ 32%N :: v ++ rest)
    with ((P ++ label ++ [32%N]) ++ v ++ rest) by (by flatten_app).
  replace (length P + length (label ++ [32%N]))
    with (length (P ++ label ++ [32%N])) by (by rewrite length_app).
  by rewrite slice_mid.
Qed.

Section Fields.
Variables today h : str.
Hypothesis Hh : fingerprint_token h.
Hypothesis Hd : token today.

Lemma built_block_hash gs :
  ContextAudit.field ContextAudit.HASH_RE (built_block today h gs) = Some h.
Proof.
  unfold built_block, ContextAudit.HASH_RE.
  change (lit "watches_hash: ") with (lit "watches_hash:" ++ [32%N]).
  rewrite <- (app_assoc _ [32%N]). cbn ["++"].
  apply (field_found (lit "watches_hash:") [] h); [apply Hh|done|].
  intros a b Hab Hb. by destruct a, b.
Qed.

Lemma built_block_date gs :
  ContextAudit.field ContextAudit.DATE_RE (built_block today h gs) = Some today.
Proof.
  unfold built_block, ContextAudit.DATE_RE.
  change (lit "last_verified: ") with (lit "last_verified:" ++ [32%N]).
  rewrite <- (app_assoc _ [32%N]). cbn ["++"].
  rewrite (cons_middle nl h), (app_assoc h [nl]), (app_assoc (lit "watches_hash: ")).
  apply (field_found (lit "last_verified:") _ today); [done|done|].
  intros a b Hab Hb.
  rewrite app_assoc in Hab.
  apply (lit_starts_nowhere _ (lit "watches_hash: " ++ h) nl _ a b);
    [|apply nl_not_in_date_label|done..].
  rewrite <- app_assoc.
  rewrite str_in_skip; [|by_computing..].
  apply str_in_short. rewrite length_app. destruct Hh as [_ Hlen]. cbn. lia.
Qed.
End Fields.


Lemma closing_needs_nl c s st : char_eqb c nl = false -> closing (c :: s) st = None.
Proof.
  intros H. unfold closing. rewrite match_k_close. cbn [match_k startswith].
  unfold char_eqb in *. by rewrite N.eqb_sym, H.
Qed.

Lemma lazy_any_step k c s st :
  k (c :: s) st = None ->
  lazy any_char k (c :: s) st = lazy any_char k s (adv 1 st).
Proof. intros H. cbn [lazy]. by rewrite H. Qed.

(** The lazy repetition passes over text without a newline. *)
Lemma lazy_passes_line seg s : forall st,
  forallb (fun c => negb (char_eqb c nl)) seg = true ->
  lazy any_char closing (seg ++ s) st
  = lazy any_char closing s (adv (length seg) st).
Proof.
  induction seg as [|c seg IH]; intros st H.
  - by rewrite adv_0.
  - cbn in H. apply andb_prop in H as [Hc H]. apply negb_true_iff in Hc.
    cbn [app]. rewrite lazy_any_step by (by apply closing_needs_nl).
    rewrite IH by done. by rewrite adv_adv.
Qed.

Lemma closing_not_at_item s st : closing (nl :: lit "  - " ++ s) st = None.
Proof. reflexivity. Qed.

Lemma closing_not_at_date s st : closing (nl :: lit "last_verified: " ++ s) st = None.
Proof. reflexivity. Qed.

Lemma closing_not_at_watches s st : closing (nl :: lit "watches:" ++ s) st = None.
Proof. reflexivity. Qed.

Lemma closing_at_end st :
  closing (nl :: lit "-->" ++ [nl]) st = Some (adv 3 (adv 1 (mark_close 1 st))).
Proof. reflexivity. Qed.

Lemma adv_eq n m st : n = m -> adv n st = adv m st.
Proof. by intros ->. Qed.

Lemma item_no_nl g :
  sound_pattern g -> forallb (fun c => negb (char_eqb c nl)) (item g) = true.
Proof.
  intros (_ & Hl & _). apply one_line_no_nl.
  apply one_line_app; [by_computing|done].
Qed.

Lemma length_join_cons (l l' : str) (ls : list str) :
  length (join [nl] (l :: l' :: ls)) = length l + 1 + length (join [nl] (l' :: ls)).
Proof.
  change (join [nl] (l :: l' :: ls)) with (l ++ [nl] ++ join [nl] (l' :: ls)).
  rewrite !length_app. cbn [length]. lia.
Qed.

(** The lazy repetition passes over the items and stops at the closing
    delimiter after the last one. *)
Lemma lazy_over_items (gs : list str) : forall st,
  gs <> [] -> Forall sound_pattern gs ->
  lazy any_char closing (nl :: join [nl] (map item gs) ++ nl :: lit "-->" ++ [nl]) st
  = closing (nl :: lit "-->" ++ [nl])
      (adv (1 + length (join [nl] (map item gs))) st).
Proof.
  induction gs as [|g gs IH]; intros st Hne Hgs; [done|].
  inversion Hgs as [|? ? Hg Hgs']; subst.
  destruct gs as [|g' gs'].
  - cbn [map join]. unfold item at 1. rewrite <- app_assoc.
    rewrite lazy_any_step by apply closing_not_at_item.
    rewrite app_assoc. fold (item g).
    rewrite lazy_passes_line by (by apply item_no_nl).
    rewrite (lazy_stop _ _ _ _ _ (closing_at_end _)).
    rewrite closing_at_end, !adv_adv. reflexivity.
  - cbn [map]. 
    change (join [nl] (item g :: item g' :: map item gs'))
      with (item g ++ [nl] ++ join [nl] (item g' :: map item gs')).
    rewrite <- !app_assoc. cbn ["++"]. unfold item at 1. rewrite <- app_assoc.
    rewrite lazy_any_step by apply closing_not_at_item.
    rewrite app_assoc. fold (item g).
    rewrite lazy_passes_line by (by apply item_no_nl).
    change (item g' :: map item gs') with (map item (g' :: gs')).
    rewrite IH by done. rewrite !closing_at_end, !adv_adv.
    do 4 f_equal. rewrite !length_app. cbn [length]. lia.
Qed.

Section Block.
Variables today h : str.
Hypothesis Hh : fingerprint_token h.
Hypothesis Hd : token today.

Lemma token_no_nl v : token v -> forallb (fun c => negb (char_eqb c nl)) v = true.
Proof. intros [_ Hv]. by apply one_line_no_nl, nonspace_one_line. Qed.

(** The lazy repetition runs to the end of the block that was built. *)
Lemma lazy_over_block gs st :
  gs <> [] -> Forall sound_pattern gs ->
  lazy any_char closing (built_block today h gs ++ nl :: lit "-->" ++ [nl]) st
  = Some (adv 3 (adv 1 (mark_close 1
            (adv (length (built_block today h gs)) st)))).
Proof.
  intros Hne Hgs. unfold built_block.
  assert (Hhn := token_no_nl h (proj1 Hh)). assert (Hdn := token_no_nl today Hd).
  flatten_app.
  rewrite (app_assoc (lit "watches_hash: ") h).
  rewrite lazy_passes_line
    by (rewrite forallb_app, Hhn; by_computing).
  rewrite lazy_any_step by apply closing_not_at_date.
  rewrite (app_assoc (lit "last_verified: ") today).
  rewrite lazy_passes_line
    by (rewrite forallb_app, Hdn; by_computing).
  rewrite lazy_any_step by apply closing_not_at_watches.
  rewrite lazy_passes_line by by_computing.
  rewrite lazy_over_items by done.
  rewrite closing_at_end, !adv_adv. do 4 f_equal.
  repeat (rewrite length_app; cbn [length]). lia.
Qed.
End Block.

(** A greedy repetition that took one character too many gives it back. *)
Lemma greedy_one_back p k c rest st :
  p c = true ->
  match rest with [] => True | d :: _ => p d = false end ->
  k rest (adv 1 st) = None ->
  greedy p k (c :: rest) st = k (c :: rest) st.
Proof.
  intros Hc Hrest Hk. cbn [greedy]. rewrite Hc.
  assert (greedy p k rest (adv 1 st) = None) as ->; [|done].
  destruct rest as [|d rest]; cbn [greedy]; [done|]. by rewrite Hrest.
Qed.

Section Built.
Variables today h : str.
Hypothesis Hh : fingerprint_token h.
Hypothesis Hd : token today.

Lemma build_marker_shape gs :
  ContextBootstrap.build_marker today h gs
  = (nl :: lit "<!-- freshness" ++ [nl])
    ++ built_block today h gs ++ nl :: lit "-->" ++ [nl].
Proof.
  unfold ContextBootstrap.build_marker, built_block.
  change (map (fun g => lit "  - " ++ g) gs) with (map item gs).
  by flatten_app.
Qed.

(** The audit pattern matches the text that was built, and its group is
    the block. *)
Lemma freshness_matches gs :
  gs <> [] -> Forall sound_pattern gs ->
  exists st,
    match_at ContextAudit.FRESHNESS_PATTERN
      (lit "<!-- freshness" ++ nl :: built_block today h gs
       ++ nl :: lit "-->" ++ [nl]) (init_state 1) = Some st
    /\ g_start st 1 = 16
    /\ g_end st 1 = 16 + length (built_block today h gs).
Proof.
  intros Hne Hgs. eexists. split.
  - unfold match_at, ContextAudit.FRESHNESS_PATTERN.
    change (lit "<!-- freshness") with (lit "<!--" ++ 32%N :: lit "freshness").
    rewrite <- app_assoc. rewrite match_k_lit_app, match_k_starG.
    cbn ["++"].
    apply (greedy_run isspace _ [32%N]); [done|by_computing|].
    rewrite match_k_lit_app, match_k_starG.
    rewrite greedy_one_back; [|done|by_computing|by_computing].
    rewrite match_k_lit_cons, match_k_open, match_k_starL.
    fold closing. rewrite (lazy_over_block today h Hh Hd gs _ Hne Hgs).
    reflexivity.
  - cbn. split; lia.
Qed.

Lemma built_marker_block gs :
  gs <> [] -> Forall sound_pattern gs ->
  ContextAudit.freshness_block (ContextBootstrap.build_marker today h gs)
  = Some (built_block today h gs).
Proof.
  intros Hne Hgs. unfold ContextAudit.freshness_block.
  destruct (freshness_matches gs Hne Hgs) as (st & Hm & Hs & He).
  assert (re_search ContextAudit.FRESHNESS_PATTERN
            (ContextBootstrap.build_marker today h gs)
          = Some (RMatch 1 st)) as ->.
  { rewrite build_marker_shape. unfold re_search.
    flatten_app. cbn [search_from].
    unfold ContextAudit.FRESHNESS_PATTERN at 1.
    rewrite match_lit_fails by reflexivity.
    apply search_from_hit. revert Hm. by flatten_app. }
  unfold group, start_of, end_of. cbn [m_state]. rewrite Hs, He.
  rewrite build_marker_shape.
  change 16 with (length (nl :: lit "<!-- freshness" ++ [nl])).
  by rewrite slice_mid.
Qed.

(** The record read back from the text that was built. *)
Lemma parse_built_marker gs :
  gs <> [] -> Forall sound_pattern gs ->
  ContextAudit.parse_freshness_marker (ContextBootstrap.build_marker today h gs)
  = Some (ContextAudit.Marker h (Some today) gs).
Proof.
  intros Hne Hgs. unfold ContextAudit.parse_freshness_marker.
  rewrite built_marker_block by done.
  rewrite (built_block_hash today h Hh), (built_block_date today h Hh Hd).
  rewrite (built_block_watches today h Hh Hd) by done.
  destruct Hh as [[Hn _] _]. by destruct h.
Qed.
End Built.

Lemma digit_nonspace c : is_digit c = true -> nonspace c = true.
Proof.
  unfold is_digit, nonspace. rewrite andb_true_iff, !N.leb_le. intros H.
  apply negb_true_iff. destruct (isspace c) eqn:E; [|done].
  apply isspace_range in E. lia.
Qed.

(** A date in ISO form is a token. *)
Lemma iso_date_token d : is_iso_date d = true -> token d.
Proof.
  intros H.
  do 11 (destruct d as [|? d]; try discriminate H).
  cbn [is_iso_date forallb] in H. unfold char_eqb in H.
  rewrite !andb_true_iff, !N.eqb_eq in H. destruct_and!. subst.
  split; [done|]. cbn [forallb].
  repeat match goal with
         | E : is_digit _ = true |- _ =>
             apply digit_nonspace in E; rewrite E; clear E
         end.
  reflexivity.
Qed.

(** C6, as amended.  A record with a fingerprint token, a date that is a
    token (a date in ISO form is one) and a non-empty list of patterns, each
    of them not empty, free of line breaks and free of leading and trailing
    white space, is read back by [parse_freshness_marker] from the text
    [build_marker] writes: the same hash, the same date, the same patterns
    in the same order. *)
Theorem marker_round_trip today h globs :
  fingerprint_token h -> token today ->
  globs <> [] -> Forall sound_pattern globs ->
  round_trip today h globs.
Proof.
  intros Hh Hd Hne Hgs. unfold round_trip.
  by apply parse_built_marker.
Qed.

(** Witness of [marker_round_trip]. *)
Lemma marker_round_trip_witness :
  round_trip (lit "2026-11-04") (lit "abc1234")
    [lit "src/*"; lit "docs/user guide.md"].
Proof.
  apply marker_round_trip.
  - split; [split; by_computing|vm_compute; lia].
  - apply iso_date_token. vm_compute. reflexivity.
  - discriminate.
  - repeat constructor; by_computing.
Defined.

(** C6 as stated fails: the empty pattern has no line break and no white
    space at its ends, and it is not read back. *)
Lemma empty_pattern_is_lost :
  fingerprint_token (lit "abc1234")
  /\ is_iso_date (lit "2026-11-04") = true
  /\ Forall pattern_as_stated [[]]
  /\ ContextAudit.parse_freshness_marker
       (ContextBootstrap.build_marker (lit "2026-11-04") (lit "abc1234") [[]])
     = Some (ContextAudit.Marker (lit "abc1234") (Some (lit "2026-11-04")) [])
  /\ ~ round_trip (lit "2026-11-04") (lit "abc1234") [[]].
Proof.
  split; [split; [split; by_computing|vm_compute; lia]|].
  split; [vm_compute; reflexivity|].
  split; [repeat constructor; by_computing|].
  split; [vm_compute; reflexivity|].
  unfold round_trip. by_computing.
Qed.

(** ** The summary of the audit *)

Section Summary.
Import ContextAudit.
Variable fnmatch : str -> str -> bool.

Lemma count_rows_fold rows : forall c,
  let c' := fold_left count_row rows c in
  stale_count c' = stale_count c + rows_with (Some Stale) rows
  /\ ok_count c' = ok_count c + rows_with (Some Current) rows
  /\ missing_count c' = missing_count c + rows_with (Some Unmarked) rows.
Proof.
  unfold rows_with.
  induction rows as [|r rows IH]; intros c; cbn [fold_left].
  - cbn. lia.
  - cbn zeta in *. destruct (IH (count_row c r)) as (H1 & H2 & H3).
    rewrite H1, H2, H3. clear.
    destruct r; cbn [count_row stale_count ok_count missing_count];
      rewrite !filter_cons; cbn [verdict_of];
      repeat (destruct (decide _) as [?|?]; try discriminate; try congruence);
      cbn [length]; lia.
Qed.

Lemma verdict_readable git file :
  verdict_of (audit_file fnmatch git file) = None <-> file = None.
Proof.
  unfold audit_file. destruct file as [content|]; [|done].
  split; [|done].
  destruct (parse_freshness_marker content); [|done].
  by case_bool_decide.
Qed.

(** The loop of the audit on files that can all be decoded. *)
Lemma main_loop_done git files : forall c,
  NotUtf8 ∉ files ->
  main_loop fnmatch git files c
  = (map (row_of fnmatch git) files,
     Some (fold_left count_row (map (row_of fnmatch git) files) c)).
Proof.
  induction files as [|f files IH]; intros c H; [done|].
  apply not_elem_of_cons in H as [Hf H].
  cbn [main_loop map fold_left]. unfold row_of at 1 3, text_read.
  destruct f as [raw| |]; [|done|]; cbn [read_text].
  - by rewrite IH.
  - rewrite IH by done. done.
Qed.

(** The loop of the audit up to the first file that cannot be decoded. *)
Lemma main_loop_abort git pre rest : forall c,
  NotUtf8 ∉ pre ->
  main_loop fnmatch git (pre ++ NotUtf8 :: rest) c
  = (map (row_of fnmatch git) pre, None).
Proof.
  induction pre as [|f pre IH]; intros c H; [done|].
  apply not_elem_of_cons in H as [Hf H].
  cbn [app main_loop map]. unfold row_of at 1, text_read.
  destruct f as [raw| |]; [|done|]; cbn [read_text]; by rewrite IH.
Qed.

Lemma readable_rows git files :
  NotUtf8 ∉ files ->
  rows_with (Some Stale) (map (row_of fnmatch git) files)
  + rows_with (Some Current) (map (row_of fnmatch git) files)
  + rows_with (Some Unmarked) (map (row_of fnmatch git) files)
  = length (filter (fun f => is_Some (text_read f)) files).
Proof.
  unfold rows_with. induction files as [|f files IH]; intros H; [done|].
  apply not_elem_of_cons in H as [Hf H]. specialize (IH H).
  cbn [map]. rewrite !filter_cons.
  destruct f as [raw| |]; [|done|].
  - change (row_of fnmatch git (Utf8 raw))
      with (audit_file fnmatch git (Some (universal_newlines raw))).
    change (text_read (Utf8 raw)) with (Some (universal_newlines raw)).
    rewrite (decide_True (P := is_Some _)) by (by eexists).
    cbn [length]. rewrite <- IH.
    destruct (verdict_of (audit_file fnmatch git (Some (universal_newlines raw))))
      as [[]|] eqn:Ev.
    + rewrite decide_False, decide_False, decide_True by done. cbn [length]. lia.
    + rewrite decide_True, decide_False, decide_False by done. cbn [length]. lia.
    + rewrite decide_False, decide_True, decide_False by done. cbn [length]. lia.
    + by apply verdict_readable in Ev.
  - change (row_of fnmatch git Unreadable) with RowError.
    change (text_read Unreadable) with (@None str).
    rewrite (decide_False (P := is_Some _)) by (by intros [? ?]).
    cbn [verdict_of].
    rewrite !decide_False by done. exact IH.
Qed.

(** X1.  Without context files the audit prints no report.  Otherwise, when
    every file can be decoded, it prints one row for each file and the
    summary: each counter is the number of rows with its verdict, and the
    three counters add up to the number of files that were read; a file
    that cannot be read gets a row and is counted nowhere.  When a file
    cannot be decoded, the run ends at the first such file: the rows of the
    files before it, and no summary. *)
Theorem audit_summary_counts git files :
  main fnmatch git [] = NoContextFiles
  /\ (files <> [] -> NotUtf8 ∉ files ->
      exists c,
        let rows := map (row_of fnmatch git) files in
        main fnmatch git files = Report rows (Some c)
        /\ stale_count c = rows_with (Some Stale) rows
        /\ ok_count c = rows_with (Some Current) rows
        /\ missing_count c = rows_with (Some Unmarked) rows
        /\ rows_with None rows
           = length (filter (fun f => f = Unreadable) files)
        /\ stale_count c + ok_count c + missing_count c
           = length (filter (fun f => is_Some (text_read f)) files))
  /\ (forall pre rest,
        files = pre ++ NotUtf8 :: rest -> NotUtf8 ∉ pre ->
        main fnmatch git files
        = Report (map (row_of fnmatch git) pre) None).
Proof.
  split; [done|]. split.
  - intros Hne Hdec. eexists. cbn zeta.
    unfold main. destruct files as [|f files]; [done|].
    rewrite main_loop_done by done. split; [reflexivity|].
    destruct (count_rows_fold (map (row_of fnmatch git) (f :: files))
                (Counts 0 0 0)) as (H1 & H2 & H3). cbn zeta in *.
    cbn [stale_count ok_count missing_count Nat.add] in *.
    split; [exact H1|]. split; [exact H2|]. split; [exact H3|].
    split.
    + clear -Hdec. unfold rows_with.
      induction (f :: files) as [|x xs IH]; [done|].
      apply not_elem_of_cons in Hdec as [Hx Hdec]. specialize (IH Hdec).
      cbn [map]. rewrite !filter_cons.
      destruct x as [raw| |]; [|done|].
      * change (row_of fnmatch git (Utf8 raw))
          with (audit_file fnmatch git (Some (universal_newlines raw))).
        rewrite (decide_False (P := Utf8 raw = Unreadable)) by done.
        rewrite decide_False; [exact IH|].
        intros E. by apply verdict_readable in E.
      * change (row_of fnmatch git Unreadable) with RowError.
        rewrite (decide_True (P := Unreadable = Unreadable)) by done.
        cbn [verdict_of]. rewrite decide_True by done.
        cbn [length]. by rewrite IH.
    + rewrite H1, H2, H3. by apply readable_rows.
  - intros pre rest -> Hpre. unfold main.
    destruct (pre ++ NotUtf8 :: rest) eqn:E; [by destruct pre|].
    rewrite <- E. by rewrite main_loop_abort.
Qed.
End Summary.

(** ** The hash engine in the three tools *)

Section Agreement.
Variable fnmatch : str -> str -> bool.

(** What the three tools return when the listing succeeds and, for a
    non-empty match, the hashing succeeds. *)
Lemma compute_hash_success git ws :
  ~ hashing_fails fnmatch git ws ->
  exists h,
    ContextAudit.compute_hash fnmatch git ws = h
    /\ ContextBootstrap.compute_hash fnmatch git ws = h
    /\ ContextUpdateHash.compute_hash fnmatch git ws = ContextUpdateHash.Ret h
    /\ length h <= 7.
Proof.
  unfold hashing_fails, matched, tracked, ContextAudit.compute_hash,
    ContextBootstrap.compute_hash, ContextUpdateHash.compute_hash.
  intros H. destruct (git_ls_files git) as [out|]; [|by destruct H; left].
  destruct (decide (matched_files fnmatch (stdout_lines out) ws = ∅)) as [E|E].
  - exists EMPTY_MATCH. repeat split. cbn; lia.
  - destruct (git_hash_object git _) as [digest|] eqn:Ed;
      [|destruct H; right; by split].
    exists (firstn 7 (strip digest)). repeat split.
    rewrite length_firstn. lia.
Qed.

Lemma compute_hash_failure git ws :
  hashing_fails fnmatch git ws ->
  ContextAudit.compute_hash fnmatch git ws = ERROR
  /\ ContextBootstrap.compute_hash fnmatch git ws = EMPTY_MATCH
  /\ exists message,
       ContextUpdateHash.compute_hash fnmatch git ws
       = ContextUpdateHash.SysExit 1 message.
Proof.
  unfold hashing_fails, matched, tracked, ContextAudit.compute_hash,
    ContextBootstrap.compute_hash, ContextUpdateHash.compute_hash.
  intros [H|[Hne H]].
  - rewrite H. split; [done|]. split; [done|]. by eexists.
  - destruct (git_ls_files git) as [out|].
    + destruct (decide (matched_files fnmatch (stdout_lines out) ws = ∅));
        [done|]. rewrite H. split; [done|]. split; [done|]. by eexists.
    + split; [done|]. split; [done|]. by eexists.
Qed.

(** X2.  The bootstrap tool and the update tool compute the fingerprint the
    audit computes exactly when no git command of the hashing fails; the
    fingerprint then has at most seven characters. *)
Theorem tools_agree_unless_git_fails git ws :
  (ContextBootstrap.compute_hash fnmatch git ws
   = ContextAudit.compute_hash fnmatch git ws
   <-> ~ hashing_fails fnmatch git ws)
  /\ (ContextUpdateHash.compute_hash fnmatch git ws
      = ContextUpdateHash.Ret (ContextAudit.compute_hash fnmatch git ws)
      <-> ~ hashing_fails fnmatch git ws)
  /\ (~ hashing_fails fnmatch git ws ->
      length (ContextAudit.compute_hash fnmatch git ws) <= 7).
Proof.
  split; [|split].
  - split.
    + intros E Hf. apply compute_hash_failure in Hf as (Ha & Hb & _).
      rewrite Ha, Hb in E. symmetry in E. by apply sentinels_differ in E.
    + intros Hn. apply compute_hash_success in Hn as (h & -> & -> & _). done.
  - split.
    + intros E Hf. apply compute_hash_failure in Hf as (_ & _ & msg & Hu).
      rewrite Hu in E. discriminate.
    + intros Hn. apply compute_hash_success in Hn as (h & -> & _ & -> & _). done.
  - intros Hn. apply compute_hash_success in Hn as (h & -> & _ & _ & Hl). done.
Qed.

(** The paths that are hashed have no line break in them. *)
Lemma matched_one_line git ws f :
  f ∈ matched fnmatch git ws -> one_line f.
Proof.
  unfold matched, tracked. intros H.
  apply elem_of_matched_files in H as [H _].
  destruct (git_ls_files git) as [out|]; [|by apply elem_of_nil in H].
  revert f H. apply Forall_forall, splitlines_one_line.
Qed.

Lemma sorted_nonempty (X : gset str) : X <> ∅ -> sorted X <> [].
Proof.
  intros Hne E. apply Hne. apply leibniz_equiv, elem_of_equiv_empty.
  intros f Hf. apply (proj2 (proj2 (sorted_spec X))) in Hf.
  rewrite E in Hf. by apply elem_of_nil in Hf.
Qed.

Lemma hashed_lines git ws :
  matched fnmatch git ws <> ∅ ->
  splitlines (sorted_files (matched fnmatch git ws))
  = sorted (matched fnmatch git ws).
Proof.
  intros Hne. unfold sorted_files. rewrite splitlines_join_nl.
  - pose proof (sorted_nonempty _ Hne). by destruct (sorted _).
  - apply Forall_forall. intros f Hf.
    apply (proj2 (proj2 (sorted_spec _))) in Hf. by apply matched_one_line in Hf.
Qed.
End Agreement.

(** X3.  The text that is hashed lists the matched paths one per line, in
    order, and it determines the matched set: two non-empty matches with the
    same text are the same set of files, whichever repository, patterns and
    matcher they come from. *)
Theorem hashed_text_determines_match fnmatch1 fnmatch2 git1 git2 ws1 ws2 :
  matched fnmatch1 git1 ws1 <> ∅ -> matched fnmatch2 git2 ws2 <> ∅ ->
  splitlines (sorted_files (matched fnmatch1 git1 ws1))
  = sorted (matched fnmatch1 git1 ws1)
  /\ (sorted_files (matched fnmatch1 git1 ws1)
      = sorted_files (matched fnmatch2 git2 ws2) ->
      matched fnmatch1 git1 ws1 = matched fnmatch2 git2 ws2).
Proof.
  intros H1 H2. split; [by apply hashed_lines|].
  intros E. apply (f_equal splitlines) in E.
  rewrite !hashed_lines in E by done.
  apply leibniz_equiv. intros f.
  rewrite <- !(proj2 (proj2 (sorted_spec _)) f). by rewrite E.
Qed.

(** ** The watches list in the audit and in the other tools *)

Lemma watches_fold_extends lines : forall acc b,
  acc `prefix_of` fst (fold_left ContextAudit.watches_step lines (acc, b)).
Proof.
  induction lines as [|line lines IH]; intros acc b; cbn [fold_left]; [done|].
  unfold ContextAudit.watches_step at 2.
  destruct (startswith (strip line) (lit "watches:")); [apply IH|].
  destruct b; [|apply IH].
  destruct (startswith (strip line) (lit "- ")).
  - etrans; [|apply IH]. by apply prefix_app_r.
  - destruct (_ && _); apply IH.
Qed.

Lemma parse_watches_loop_prefix lines : forall acc b,
  parse_watches_loop lines b acc
  `prefix_of` fst (fold_left ContextAudit.watches_step lines (acc, b)).
Proof.
  induction lines as [|line lines IH]; intros acc b;
    cbn [fold_left parse_watches_loop]; [done|].
  unfold ContextAudit.watches_step at 2.
  destruct (startswith (strip line) (lit "watches:")); [apply IH|].
  destruct b; [|apply IH].
  destruct (startswith (strip line) (lit "- ")); [apply IH|].
  destruct (_ && _); [apply watches_fold_extends|apply IH].
Qed.

Lemma watches_fold_idle lines : forall acc,
  forallb (fun l => negb (watches_line l)) lines = true ->
  fold_left ContextAudit.watches_step lines (acc, false) = (acc, false).
Proof.
  induction lines as [|line lines IH]; intros acc H; cbn [fold_left]; [done|].
  cbn [forallb] in H. apply andb_prop in H as [Hl H]. apply negb_true_iff in Hl.
  unfold watches_line in Hl. unfold ContextAudit.watches_step at 2.
  rewrite Hl. by apply IH.
Qed.

Lemma parse_watches_loop_inside lines : forall acc,
  forallb (fun l => negb (watches_line l)) lines = true ->
  parse_watches_loop lines true acc
  = fst (fold_left ContextAudit.watches_step lines (acc, true)).
Proof.
  induction lines as [|line lines IH]; intros acc H;
    cbn [fold_left parse_watches_loop]; [done|].
  cbn [forallb] in H. apply andb_prop in H as [Hl H]. apply negb_true_iff in Hl.
  unfold watches_line in Hl. unfold ContextAudit.watches_step at 2.
  rewrite Hl.
  destruct (startswith (strip line) (lit "- ")); [by apply IH|].
  destruct (_ && _); [by rewrite watches_fold_idle|by apply IH].
Qed.

Lemma parse_watches_loop_outside lines : forall acc,
  length (filter (fun l => watches_line l = true) lines) <= 1 ->
  parse_watches_loop lines false acc
  = fst (fold_left ContextAudit.watches_step lines (acc, false)).
Proof.
  induction lines as [|line lines IH]; intros acc H;
    cbn [fold_left parse_watches_loop]; [done|].
  rewrite filter_cons in H. unfold ContextAudit.watches_step at 2.
  fold (watches_line line).
  destruct (watches_line line) eqn:E.
  - rewrite decide_True in H by done. cbn [length] in H.
    apply parse_watches_loop_inside.
    apply forallb_forall. intros l Hl. apply negb_true_iff.
    destruct (watches_line l) eqn:El; [|done]. exfalso.
    assert (l ∈ filter (fun l => watches_line l = true) lines) as Hin.
    { apply list_elem_of_filter. split; [done|]. by apply list_elem_of_In. }
    destruct (filter _ lines); [by apply elem_of_nil in Hin|cbn in H; lia].
  - rewrite decide_False in H by done. by apply IH.
Qed.

(** X4.  The watches list that the update tool and the commit check read
    from a block is a beginning of the list the audit reads from it; the two
    are the same list when at most one line of the block starts with
    [watches:]. *)
Theorem parse_watches_prefix block :
  parse_watches block `prefix_of` ContextAudit.block_watches block
  /\ (length (filter (fun l => watches_line l = true) (splitlines block)) <= 1 ->
      parse_watches block = ContextAudit.block_watches block).
Proof.
  split; [apply parse_watches_loop_prefix|apply parse_watches_loop_outside].
Qed.

(** Witness of [parse_watches_prefix]; and a block with two lists, of which
    the update tool reads the first only. *)
Lemma parse_watches_prefix_witness :
  parse_watches (built_block (lit "2026-11-04") (lit "abc1234") [lit "src/*"])
  = ContextAudit.block_watches
      (built_block (lit "2026-11-04") (lit "abc1234") [lit "src/*"])
  /\ parse_watches two_lists_block = [lit "src/*"]
  /\ ContextAudit.block_watches two_lists_block = [lit "src/*"; lit "docs/*"].
Proof.
  split.
  - apply (proj2 (parse_watches_prefix
                    (built_block (lit "2026-11-04") (lit "abc1234") [lit "src/*"]))).
    vm_compute. lia.
  - split; vm_compute; reflexivity.
Defined.

Lemma sample_src_nonempty ws :
  existsb (glob_match (lit "src/app.py")) ws = true ->
  matched glob_match sample_git ws <> ∅.
Proof.
  intros Hm E.
  assert (lit "src/app.py" ∈ matched glob_match sample_git ws) as H.
  { apply elem_of_matched_files. split; [|done].
    vm_compute. apply list_elem_of_further, list_elem_of_further, list_elem_of_here. }
  rewrite E in H. by apply not_elem_of_empty in H.
Qed.

(** Witness of [tools_agree_unless_git_fails]. *)
Lemma tools_agree_unless_git_fails_witness :
  ContextBootstrap.compute_hash glob_match sample_git [lit "src/*"]
  = ContextAudit.compute_hash glob_match sample_git [lit "src/*"].
Proof.
  apply (proj1 (tools_agree_unless_git_fails glob_match sample_git [lit "src/*"])).
  intros [H|[_ H]]; vm_compute in H; discriminate.
Defined.

(** Witness of [hashed_text_determines_match]. *)
Lemma hashed_text_determines_match_witness :
  matched glob_match sample_git [lit "src/m*"; lit "src/a*"]
  = matched glob_match sample_git [lit "src/*"].
Proof.
  apply (proj2 (hashed_text_determines_match glob_match glob_match
                  sample_git sample_git [lit "src/m*"; lit "src/a*"] [lit "src/*"]
                  (sample_src_nonempty [lit "src/m*"; lit "src/a*"] eq_refl)
                  (sample_src_nonempty [lit "src/*"] eq_refl))).
  vm_compute. reflexivity.
Defined.

(** ** The marker block in the four tools *)

Section Aligned.
Variable R : mstate -> mstate -> Prop.
Hypothesis R_adv : forall n st st', R st st' -> R (adv n st) (adv n st').

Lemma greedy_related p k k' :
  related_cont R k k' -> related_cont R (greedy p k) (greedy p k').
Proof.
  intros Hk s. induction s as [|c s IH]; intros st st' H; cbn [greedy].
  - by apply Hk.
  - destruct (p c); [|by apply Hk].
    specialize (IH (adv 1 st) (adv 1 st') (R_adv 1 _ _ H)).
    destruct (greedy p k s (adv 1 st)), (greedy p k' s (adv 1 st')); try done.
    by apply Hk.
Qed.

Lemma lazy_related p k k' :
  related_cont R k k' -> related_cont R (lazy p k) (lazy p k').
Proof.
  intros Hk s. induction s as [|c s IH]; intros st st' H; cbn [lazy].
  - specialize (Hk [] st st' H). by destruct (k [] st), (k' [] st').
  - specialize (Hk (c :: s) st st' H).
    destruct (k (c :: s) st), (k' (c :: s) st'); try done.
    destruct (p c); [|done]. apply IH. by apply R_adv.
Qed.

Lemma aligned_match r r' :
  aligned R r r' -> forall k k',
  related_cont R k k' -> related_cont R (match_k r k) (match_k r' k').
Proof.
  induction 1 as [|a r r' Ha Hal IH|a r r' Ha HR Hal IH|a r r' Ha HR Hal IH
                 |a a' r r' Ha Ha' HR Hal IH]; intros k k' Hk.
  - exact Hk.
  - destruct a as [l|p|p|p|i|i]; try discriminate Ha; cbn [match_k].
    + intros s st st' H. destruct (startswith s l); [|done].
      apply (IH k k' Hk). by apply R_adv.
    + apply greedy_related. by apply IH.
    + intros s st st' H. destruct s as [|c s]; [done|].
      destruct (p c); [|done].
      apply greedy_related; [by apply IH|by apply R_adv].
    + apply lazy_related. by apply IH.
  - intros s st st' H.
    destruct a; try discriminate Ha; cbn [match_k];
      apply (IH k k' Hk); by apply HR in H.
  - intros s st st' H.
    destruct a; try discriminate Ha; cbn [match_k];
      apply (IH k k' Hk); by apply HR in H.
  - intros s st st' H.
    destruct a; try discriminate Ha; destruct a'; try discriminate Ha';
      cbn [match_k]; apply (IH k k' Hk); by apply HR in H.
Qed.

Hypothesis R_init : forall n, R (init_state n) (init_state n).

(** Aligned patterns find their match at the same place. *)
Lemma aligned_search r r' s :
  aligned R r r' -> forall start,
  match search_from r s start, search_from r' s start with
  | Some m, Some m' => m_start m = m_start m' /\ R (m_state m) (m_state m')
  | None, None => True
  | _, _ => False
  end.
Proof.
  intros Hal. induction s as [|c s IH]; intros start; cbn [search_from].
  - pose proof (aligned_match r r' Hal accept accept
                  ltac:(by intros ? ? ? ?) [] _ _ (R_init start)) as H.
    unfold match_at.
    by destruct (match_k r accept [] _), (match_k r' accept [] _).
  - pose proof (aligned_match r r' Hal accept accept
                  ltac:(by intros ? ? ? ?) (c :: s) _ _ (R_init start)) as H.
    unfold match_at.
    destruct (match_k r accept (c :: s) _), (match_k r' accept (c :: s) _);
      try done. apply IH.
Qed.
End Aligned.

Lemma audit_update_aligned :
  aligned same_block ContextAudit.FRESHNESS_PATTERN
    ContextUpdateHash.FRESHNESS_PATTERN.
Proof.
  unfold ContextAudit.FRESHNESS_PATTERN, ContextUpdateHash.FRESHNESS_PATTERN.
  apply aligned_right; [done|by intros ? ? (? & ? & ?)|].
  do 5 (apply aligned_same; [done|]).
  apply aligned_right; [done|by intros ? ? (? & ? & ?)|].
  apply aligned_both; [done|done| |].
  { intros st st' (Hp & Hs & He). unfold same_block. cbn. by rewrite Hp. }
  apply aligned_same; [done|].
  apply aligned_both; [done|done| |].
  { intros st st' (Hp & Hs & He). unfold same_block. cbn. by rewrite Hp. }
  apply aligned_right; [done|by intros ? ? (? & ? & ?)|].
  do 3 (apply aligned_same; [done|]).
  apply aligned_right; [done|by intros ? ? (? & ? & ?)|].
  constructor.
Qed.

Lemma audit_bootstrap_aligned :
  aligned same_pos ContextAudit.FRESHNESS_PATTERN
    ContextBootstrap.FRESHNESS_PATTERN.
Proof.
  unfold ContextAudit.FRESHNESS_PATTERN, ContextBootstrap.FRESHNESS_PATTERN.
  do 5 (apply aligned_same; [done|]).
  apply aligned_left; [done|intros st st' H; exact H|].
  apply aligned_same; [done|].
  apply aligned_left; [done|intros st st' H; exact H|].
  do 3 (apply aligned_same; [done|]).
  constructor.
Qed.

Lemma same_block_adv n st st' :
  same_block st st' -> same_block (adv n st) (adv n st').
Proof. intros (Hp & Hs & He). unfold same_block. cbn. by rewrite Hp. Qed.

Lemma same_block_init n : same_block (init_state n) (init_state n).
Proof. done. Qed.

Lemma same_pos_adv n st st' : same_pos st st' -> same_pos (adv n st) (adv n st').
Proof. unfold same_pos. cbn. by intros ->. Qed.

Lemma same_pos_init n : same_pos (init_state n) (init_state n).
Proof. done. Qed.

(** The update tool reads the block the audit reads. *)
Lemma update_block_audit content :
  update_block content = ContextAudit.freshness_block content.
Proof.
  unfold update_block, ContextAudit.freshness_block, re_search.
  pose proof (aligned_search same_block same_block_adv same_block_init
                _ _ content audit_update_aligned 0) as H.
  destruct (search_from ContextAudit.FRESHNESS_PATTERN content 0) as [m|],
    (search_from ContextUpdateHash.FRESHNESS_PATTERN content 0) as [m'|];
    try done.
  destruct H as (_ & _ & Hs & He).
  unfold group, start_of, end_of. by rewrite Hs, He.
Qed.

Lemma has_marker_audit content :
  ContextBootstrap.has_freshness_marker content
  = bool_decide (is_Some (ContextAudit.freshness_block content)).
Proof.
  unfold ContextBootstrap.has_freshness_marker, ContextAudit.freshness_block,
    re_search.
  pose proof (aligned_search same_pos same_pos_adv same_pos_init
                _ _ content audit_bootstrap_aligned 0) as H.
  destruct (search_from ContextAudit.FRESHNESS_PATTERN content 0) as [m|],
    (search_from ContextBootstrap.FRESHNESS_PATTERN content 0) as [m'|];
    try done.
Qed.

(** X5.  The four tools find the same marker block in a document: the
    bootstrap tool sees a marker exactly when the audit finds a block; the
    block the update tool rewrites is the block the audit reads; and the
    commit check tracks the document exactly when the update tool finds a
    non-empty watches list in that block, the same list. *)
Theorem tools_see_same_block content :
  ContextBootstrap.has_freshness_marker content
  = bool_decide (is_Some (ContextAudit.freshness_block content))
  /\ update_block content = ContextAudit.freshness_block content
  /\ ContextCheckWatches.tracked_watches content
     = match update_block content with
       | Some block =>
           match parse_watches block with
           | [] => None
           | w :: ws => Some (w :: ws)
           end
       | None => None
       end.
Proof.
  split; [apply has_marker_audit|]. split; [apply update_block_audit|].
  rewrite update_block_audit.
  unfold ContextCheckWatches.tracked_watches, ContextAudit.freshness_block,
    ContextCheckWatches.FRESHNESS_PATTERN.
  by destruct (re_search ContextAudit.FRESHNESS_PATTERN content).
Qed.

(** ** What [strip] leaves *)

Lemma lstrip_by_split f s :
  exists t, s = t ++ lstrip_by f s /\ forallb f t = true.
Proof.
  induction s as [|c s (t & IH & Ht)]; [by exists []|].
  cbn [lstrip_by]. destruct (f c) eqn:E.
  - exists (c :: t). cbn. rewrite E, Ht. split; [by f_equal|done].
  - by exists [].
Qed.

Lemma rstrip_by_split f s :
  exists t, s = rstrip_by f s ++ t /\ forallb f t = true.
Proof.
  unfold rstrip_by. destruct (lstrip_by_split f (rev s)) as (t & E & Ht).
  exists (rev t). rewrite forallb_rev. split; [|done].
  rewrite <- rev_app_distr, <- E. by rewrite rev_involutive.
Qed.

Lemma lstrip_by_idem f s : lstrip_by f (lstrip_by f s) = lstrip_by f s.
Proof.
  induction s as [|c s IH]; [done|]. cbn [lstrip_by].
  destruct (f c) eqn:E; [done|]. cbn [lstrip_by]. by rewrite E.
Qed.

Lemma rstrip_by_idem f s : rstrip_by f (rstrip_by f s) = rstrip_by f s.
Proof. unfold rstrip_by. by rewrite rev_involutive, lstrip_by_idem. Qed.

(** The first character of a stripped text is no white space, nor is the
    last. *)
Lemma lstrip_by_fixed_head f c s : lstrip_by f (c :: s) = c :: s <-> f c = false.
Proof.
  cbn [lstrip_by]. destruct (f c) eqn:E; [|done]. split; [|done].
  intros H. pose proof (lstrip_by_length f s) as Hl.
  rewrite H in Hl. cbn in Hl. lia.
Qed.

Lemma strip_strip s : strip (strip s) = strip s.
Proof.
  unfold strip at 2 3.
  set (x := lstrip_by isspace s).
  assert (lstrip_by isspace x = x) as Hx by apply lstrip_by_idem.
  destruct (rstrip_by_split isspace x) as (t & E & Ht).
  destruct (rstrip_by isspace x) as [|c u] eqn:Eu; [done|].
  unfold strip.
  assert (lstrip_by isspace (c :: u) = c :: u) as ->.
  { apply lstrip_by_fixed_head. rewrite E in Hx. cbn [app] in Hx.
    by apply lstrip_by_fixed_head in Hx. }
  rewrite <- Eu. apply rstrip_by_idem.
Qed.

Lemma rstrip_by_last f s u c : rstrip_by f s = u ++ [c] -> f c = false.
Proof.
  unfold rstrip_by. intros H. apply (f_equal (@rev _)) in H.
  rewrite rev_involutive, rev_app_distr in H. cbn in H.
  by apply lstrip_by_head in H.
Qed.

Lemma strip_last s u c : strip s = u ++ [c] -> isspace c = false.
Proof. apply rstrip_by_last. Qed.

Lemma forallb_lstrip_by {f} (g : char -> bool) s :
  forallb g s = true -> forallb g (lstrip_by f s) = true.
Proof.
  induction s as [|c s IH]; [done|]. cbn [forallb lstrip_by]. intros H.
  apply andb_prop in H as [Hc H]. destruct (f c); [by apply IH|].
  cbn. by rewrite Hc, H.
Qed.

Lemma forallb_strip (g : char -> bool) s :
  forallb g s = true -> forallb g (strip s) = true.
Proof.
  intros H. unfold strip, rstrip_by. rewrite forallb_rev.
  apply forallb_lstrip_by. rewrite forallb_rev. by apply forallb_lstrip_by.
Qed.

Lemma forallb_skipn {A} (g : A -> bool) n s :
  forallb g s = true -> forallb g (skipn n s) = true.
Proof.
  revert s. induction n as [|n IH]; intros s H; [done|].
  destruct s as [|c s]; [done|]. cbn in H. apply andb_prop in H as [_ H].
  by apply IH.
Qed.

Lemma one_line_strip l : one_line l -> one_line (strip l).
Proof. apply forallb_strip. Qed.

(** An item of a watches list, as the tools read it, is a pattern that is
    not empty, has no line break and no white space at its ends. *)
Lemma item_sound line :
  one_line line -> startswith (strip line) (lit "- ") = true ->
  sound_pattern (strip (skipn 2 (strip line))).
Proof.
  intros Hl Hs. split; [|split].
  - intros E. apply strip_nil in E.
    destruct (strip line) as [|a [|b t]] eqn:Es; [discriminate Hs| |].
    { cbn in Hs. by rewrite andb_false_r in Hs. }
    cbn [skipn] in E.
    cbn [startswith lit] in Hs.
    apply andb_prop in Hs as [_ Hs]. apply andb_prop in Hs as [Hb _].
    unfold char_eqb in Hb. apply N.eqb_eq in Hb. subst b.
    revert E Es. induction t as [|c t _] using rev_ind; intros E Es.
    + apply (strip_last line [a] 32%N) in Es. discriminate.
    + rewrite drop_0, forallb_app in E. apply andb_prop in E as [_ E].
      cbn in E. rewrite andb_true_r in E.
      apply (strip_last line (a :: 32%N :: t) c) in Es. congruence.
  - apply one_line_strip. unfold one_line. apply forallb_skipn.
    by apply one_line_strip.
  - apply strip_strip.
Qed.

Lemma watches_step_sound acc b line :
  one_line line -> Forall sound_pattern acc ->
  Forall sound_pattern (fst (ContextAudit.watches_step (acc, b) line)).
Proof.
  intros Hl Hacc. unfold ContextAudit.watches_step.
  destruct (startswith (strip line) (lit "watches:")); [done|].
  destruct b; [|done].
  destruct (startswith (strip line) (lit "- ")) eqn:E.
  - cbn [fst]. apply Forall_app. split; [done|].
    constructor; [by apply item_sound|constructor].
  - by destruct (_ && _).
Qed.

Lemma watches_fold_sound lines : forall acc b,
  Forall one_line lines -> Forall sound_pattern acc ->
  Forall sound_pattern (fst (fold_left ContextAudit.watches_step lines (acc, b))).
Proof.
  induction lines as [|line lines IH]; intros acc b Hl Hacc; [done|].
  inversion Hl as [|? ? H1 H2]; subst. cbn [fold_left].
  pose proof (watches_step_sound acc b line H1 Hacc) as Hs.
  destruct (ContextAudit.watches_step (acc, b) line) as [acc' b'].
  by apply IH.
Qed.

Lemma block_watches_sound block :
  Forall sound_pattern (ContextAudit.block_watches block).
Proof.
  apply watches_fold_sound; [apply splitlines_one_line|constructor].
Qed.

(** The value of a field [label:\s*(\S+)] is a token. *)
Lemma field_token label block v :
  ContextAudit.field
    [Lit label; StarG isspace; Open 1; PlusG nonspace; Close 1] block = Some v ->
  token v.
Proof.
  unfold ContextAudit.field. intros H.
  destruct (re_search _ block) as [m|] eqn:E; [|done]. injection H as <-.
  apply search_span in E as (n & Hn & E).
  unfold match_at in E. cbn [match_k] in E.
  destruct (startswith (drop n block) label) eqn:El; [|done].
  apply greedy_sound in E as (n0 & Hn0 & _ & E).
  cbn beta in E.
  destruct (drop n0 (drop (length label) (drop n block))) as [|c s3] eqn:Es;
    [done|].
  destruct (nonspace c) eqn:Ec; [|done].
  apply greedy_sound in E as (n1 & Hn1 & Hp & E).
  unfold accept in E. injection E as E.
  unfold group, start_of, end_of, slice. rewrite <- E.
  cbn [m_state g_start g_end mark_close mark_open adv pos init_state upd].
  unfold upd. cbn [Nat.eqb].
  rewrite !drop_drop in Es.
  replace (n1 + (1 + (n0 + (length label + n))) - (n0 + (length label + n)))
    with (S n1) by lia.
  replace (n0 + (length label + n)) with (n + (length label + n0)) by lia.
  rewrite Es. cbn [take]. fold (firstn n1 s3).
  split; [done|]. cbn. by rewrite Ec, Hp.
Qed.

(** X6.  Every record the audit parses is well formed: the hash is a token,
    the date, when there is one, is a token, and every pattern of the
    watches list is not empty, has no line break and no white space at its
    ends. *)
Theorem parsed_marker_well_formed content m :
  ContextAudit.parse_freshness_marker content = Some m ->
  token (ContextAudit.watches_hash m)
  /\ (forall d, ContextAudit.last_verified m = Some d -> token d)
  /\ Forall sound_pattern (ContextAudit.watches m).
Proof.
  unfold ContextAudit.parse_freshness_marker. intros H.
  destruct (ContextAudit.freshness_block content) as [block|]; [|done].
  destruct (ContextAudit.field ContextAudit.HASH_RE block) as [[|c h]|] eqn:Eh;
    [done| |done].
  injection H as <-. cbn [ContextAudit.watches_hash ContextAudit.last_verified
                           ContextAudit.watches].
  split; [by apply field_token in Eh|].
  split; [intros d Hd; by apply field_token in Hd|].
  apply block_watches_sound.
Qed.

(** Witness of [parsed_marker_well_formed]. *)
Lemma parsed_marker_well_formed_witness :
  token (lit "2dd1d0b") /\ Forall sound_pattern [lit "src/*"].
Proof.
  destruct (parsed_marker_well_formed sample_doc
              (ContextAudit.Marker (lit "2dd1d0b") (Some (lit "2026-01-15"))
                 [lit "src/*"]) ltac:(vm_compute; reflexivity))
    as (H1 & _ & H3).
  split; [exact H1|exact H3].
Defined.

(** X7.  A record the audit parses, with a date, a non-empty watches list
    and a hash of at most seven characters, is read back unchanged from the
    text the bootstrap tool builds for it. *)
Theorem parsed_marker_rebuilt content h d ws :
  ContextAudit.parse_freshness_marker content
  = Some (ContextAudit.Marker h (Some d) ws) ->
  ws <> [] -> length h <= 7 ->
  ContextAudit.parse_freshness_marker (ContextBootstrap.build_marker d h ws)
  = Some (ContextAudit.Marker h (Some d) ws).
Proof.
  intros H Hne Hlen.
  unfold ContextAudit.parse_freshness_marker in H.
  destruct (ContextAudit.freshness_block content) as [block|]; [|done].
  destruct (ContextAudit.field ContextAudit.HASH_RE block) as [[|c h']|] eqn:Eh;
    [done| |done].
  injection H as <- Hd <-.
  apply field_token in Eh. apply field_token in Hd.
  apply parse_built_marker; [by split|done|done|apply block_watches_sound].
Qed.

(** Witness of [parsed_marker_rebuilt]. *)
Lemma parsed_marker_rebuilt_witness :
  ContextAudit.parse_freshness_marker
    (ContextBootstrap.build_marker (lit "2026-01-15") (lit "2dd1d0b") [lit "src/*"])
  = Some (ContextAudit.Marker (lit "2dd1d0b") (Some (lit "2026-01-15"))
            [lit "src/*"]).
Proof.
  apply (parsed_marker_rebuilt sample_doc).
  - vm_compute. reflexivity.
  - discriminate.
  - vm_compute. lia.
Defined.

(** ** Literals and separators *)

(** A literal that does not hold the character [c] cannot run across it. *)
Lemma startswith_sep l c : forall b R,
  c ∉ l -> startswith (b ++ c :: R) l = startswith b l.
Proof.
  induction l as [|y l IH]; intros b R Hc; [done|].
  apply not_elem_of_cons in Hc as [Hy Hc].
  destruct b as [|z b]; cbn [app startswith].
  - unfold char_eqb. destruct (N.eqb_spec y c); [congruence|done].
  - by rewrite IH.
Qed.

Lemma str_in_sep l c a R :
  c ∉ l -> str_in l (a ++ c :: R) = str_in l a || str_in l R.
Proof.
  intros Hc. induction a as [|x a IH]; cbn [app].
  - pose proof (startswith_sep l c [] R Hc) as H0. cbn [app] in H0.
    cbn [str_in]. rewrite H0. by rewrite orb_false_r.
  - pose proof (startswith_sep l c (x :: a) R Hc) as H0. cbn [app] in H0.
    cbn [str_in]. rewrite IH, H0. by rewrite orb_assoc.
Qed.

Lemma str_in_join l (ls : list str) :
  nl ∉ l -> l <> [] -> str_in l (join [nl] ls) = existsb (str_in l) ls.
Proof.
  intros Hc Hne. induction ls as [|a ls IH].
  - cbn. by destruct l.
  - destruct ls as [|b ls].
    + cbn [join existsb]. by rewrite orb_false_r.
    + change (join [nl] (a :: b :: ls)) with (a ++ nl :: join [nl] (b :: ls)).
      rewrite str_in_sep by done. by rewrite IH.
Qed.

Lemma not_in_lit c (l : str) :
  forallb (fun d => negb (char_eqb d c)) l = true -> c ∉ l.
Proof.
  intros H Hin. rewrite forallb_forall in H.
  apply list_elem_of_In, H in Hin. unfold char_eqb in Hin.
  by rewrite N.eqb_refl in Hin.
Qed.

(** ** A marker appended to a document *)

Section Appended.
Variables today h : str.
Hypothesis Hh : fingerprint_token h.
Hypothesis Hd : token today.
Variable P : str.
Hypothesis HP : str_in (lit "<!--") P = false.
Variable gs : list str.
Hypothesis Hne : gs <> [].
Hypothesis Hgs : Forall sound_pattern gs.

(** The audit pattern at the marker that was built, wherever it stands. *)
Lemma freshness_matches_at n :
  exists st,
    match_at ContextAudit.FRESHNESS_PATTERN
      (lit "<!-- freshness" ++ nl :: built_block today h gs
       ++ nl :: lit "-->" ++ [nl]) (init_state n) = Some st
    /\ g_start st 1 = n + 15
    /\ g_end st 1 = n + 15 + length (built_block today h gs).
Proof.
  eexists. split.
  - unfold match_at, ContextAudit.FRESHNESS_PATTERN.
    change (lit "<!-- freshness") with (lit "<!--" ++ 32%N :: lit "freshness").
    rewrite <- app_assoc. rewrite match_k_lit_app, match_k_starG.
    cbn ["++"].
    apply (greedy_run isspace _ [32%N]); [done|by_computing|].
    rewrite match_k_lit_app, match_k_starG.
    rewrite greedy_one_back; [|done|by_computing|by_computing].
    rewrite match_k_lit_cons, match_k_open, match_k_starL.
    fold closing. rewrite (lazy_over_block today h Hh Hd gs _ Hne Hgs).
    reflexivity.
  - cbn. split; lia.
Qed.


(** The audit finds the marker after the text, and nothing before it. *)
Lemma search_appended :
  exists st,
    re_search ContextAudit.FRESHNESS_PATTERN
      (P ++ ContextBootstrap.build_marker today h gs)
    = Some (RMatch (length P + 1) st)
    /\ g_start st 1 = length (P ++ nl :: lit "<!-- freshness" ++ [nl])
    /\ g_end st 1 = length (P ++ nl :: lit "<!-- freshness" ++ [nl])
                    + length (built_block today h gs).
Proof.
  destruct (freshness_matches_at (length P + 1)) as (st & Hm & Hs & He).
  exists st. split.
  - unfold re_search. rewrite (build_marker_shape today h gs).
    rewrite (search_from_skip _ _ (length P + 1)).
    2:{ rewrite length_app. cbn. lia. }
    2:{ intros j Hj. unfold ContextAudit.FRESHNESS_PATTERN.
        apply match_lit_fails. flatten_app.
        rewrite (cons_middle nl P), (app_assoc P [nl]).
        rewrite drop_app_le by (rewrite length_app; cbn; lia).
        apply (lit_starts_nowhere _ P nl _ (take j (P ++ [nl])) _).
        - rewrite str_in_sep by (apply not_in_lit; by_computing).
          by rewrite HP.
        - apply not_in_lit. by_computing.
        - by rewrite take_drop.
        - intros E. apply (f_equal (@length _)) in E.
          rewrite length_drop, length_app in E. cbn in E. lia. }
    flatten_app.
    rewrite (cons_middle nl P), (app_assoc P [nl]).
    replace (length P + 1) with (length (P ++ [nl]))
      by (rewrite length_app; cbn; lia).
    rewrite drop_app_length. cbn [Nat.add].
    rewrite length_app. cbn [length].
    by apply search_from_hit.
  - rewrite Hs, He. rewrite !length_app. cbn. lia.
Qed.

Lemma appended_doc_parts :
  P ++ ContextBootstrap.build_marker today h gs
  = (P ++ nl :: lit "<!-- freshness" ++ [nl])
    ++ built_block today h gs ++ nl :: lit "-->" ++ [nl].
Proof.
  rewrite (build_marker_shape today h gs). by flatten_app.
Qed.

Lemma appended_block :
  ContextAudit.freshness_block (P ++ ContextBootstrap.build_marker today h gs)
  = Some (built_block today h gs).
Proof.
  unfold ContextAudit.freshness_block.
  destruct search_appended as (st & -> & Hs & He).
  unfold group, start_of, end_of. cbn [m_state]. rewrite Hs, He.
  rewrite appended_doc_parts. by rewrite slice_mid.
Qed.

Lemma parse_appended :
  ContextAudit.parse_freshness_marker
    (P ++ ContextBootstrap.build_marker today h gs)
  = Some (ContextAudit.Marker h (Some today) gs).
Proof.
  unfold ContextAudit.parse_freshness_marker. rewrite appended_block.
  rewrite (built_block_hash today h Hh), (built_block_date today h Hh Hd).
  rewrite (built_block_watches today h Hh Hd) by done.
  destruct Hh as [[Hn _] _]. by destruct h.
Qed.

(** The update pattern finds the same block at the same place. *)
Lemma update_search_appended :
  exists m,
    re_search ContextUpdateHash.FRESHNESS_PATTERN
      (P ++ ContextBootstrap.build_marker today h gs) = Some m
    /\ start_of m 2 = length (P ++ nl :: lit "<!-- freshness" ++ [nl])
    /\ end_of m 2 = length (P ++ nl :: lit "<!-- freshness" ++ [nl])
                    + length (built_block today h gs).
Proof.
  destruct search_appended as (st & Hm & Hs & He).
  pose proof (aligned_search same_block same_block_adv same_block_init
                _ _ (P ++ ContextBootstrap.build_marker today h gs)
                audit_update_aligned 0) as H.
  unfold re_search in Hm |- *. rewrite Hm in H.
  destruct (search_from ContextUpdateHash.FRESHNESS_PATTERN _ 0)
    as [m|]; [|done].
  exists m. split; [done|]. destruct H as (_ & _ & Hs' & He').
  cbn [m_state] in *. unfold start_of, end_of. by rewrite <- Hs', <- He'.
Qed.
End Appended.

(** ** After the bootstrap *)

Section AfterBootstrap.
Variable fnmatch : str -> str -> bool.

Lemma bootstrap_hash_length git ws :
  length (ContextBootstrap.compute_hash fnmatch git ws) <= 7.
Proof.
  unfold ContextBootstrap.compute_hash.
  destruct (git_ls_files git) as [out|]; [|cbn; lia].
  destruct (decide _); [cbn; lia|].
  destruct (git_hash_object git _); [|cbn; lia].
  rewrite length_firstn. lia.
Qed.

Lemma no_opener_no_marker content :
  str_in (lit "<!--") content = false ->
  ContextBootstrap.has_freshness_marker content = false.
Proof.
  intros H. unfold ContextBootstrap.has_freshness_marker, re_search,
    ContextBootstrap.FRESHNESS_PATTERN.
  rewrite search_lit_none by done. apply bool_decide_eq_false_2.
  by intros [? ?].
Qed.

(** The text [add_marker] leaves in a document without a marker: the
    document, closed by a newline, and the marker. *)
Lemma add_marker_text git today content globs :
  str_in (lit "<!--") content = false ->
  exists P,
    fst (ContextBootstrap.add_marker fnmatch git today content globs)
    = P ++ ContextBootstrap.build_marker today
             (ContextBootstrap.compute_hash fnmatch git globs) globs
    /\ str_in (lit "<!--") P = false
    /\ P = (if endswith content [nl] then content else content ++ [nl]).
Proof.
  intros H. unfold ContextBootstrap.add_marker.
  rewrite no_opener_no_marker by done. cbn [fst].
  eexists. split; [reflexivity|]. split; [|reflexivity].
  destruct (endswith content [nl]); [done|].
  replace (content ++ [nl]) with (content ++ nl :: []) by done.
  rewrite str_in_sep by (apply not_in_lit; by_computing).
  by rewrite H.
Qed.

(** The record the audit reads after the bootstrap. *)
Lemma parse_after_bootstrap git today content globs :
  str_in (lit "<!--") content = false ->
  globs <> [] -> Forall sound_pattern globs -> token today ->
  token (ContextBootstrap.compute_hash fnmatch git globs) ->
  ContextAudit.parse_freshness_marker
    (fst (ContextBootstrap.add_marker fnmatch git today content globs))
  = Some (ContextAudit.Marker
            (ContextBootstrap.compute_hash fnmatch git globs) (Some today) globs).
Proof.
  intros Hc Hne Hgs Hd Hh.
  destruct (add_marker_text git today content globs Hc) as (P & -> & HP & _).
  assert (fingerprint_token (ContextBootstrap.compute_hash fnmatch git globs))
    as Hft by (split; [done|apply bootstrap_hash_length]).
  exact (parse_appended today _ Hft Hd P HP globs Hne Hgs).
Qed.

(** What the bootstrap tool writes holds no CR, when the text read, the
    date, the hash and the patterns hold none. *)
Lemma forallb_not_elem (q : char -> bool) (l : str) c :
  forallb q l = true -> q c = false -> c ∉ l.
Proof.
  intros H Hc Hin. rewrite forallb_forall in H.
  apply list_elem_of_In, H in Hin. congruence.
Qed.

Lemma token_no_cr v : token v -> cr ∉ v.
Proof. intros [_ H]. by apply (forallb_not_elem nonspace). Qed.

Lemma one_line_no_cr l : one_line l -> cr ∉ l.
Proof. intros H. by apply (forallb_not_elem (fun c => negb (is_break c))). Qed.

Lemma built_marker_no_cr today h globs :
  token today -> token h -> Forall sound_pattern globs ->
  cr ∉ ContextBootstrap.build_marker today h globs.
Proof.
  intros Hd Hh Hgs. unfold ContextBootstrap.build_marker. cbn zeta.
  assert (cr ∉ join [nl] (map (fun g => lit "  - " ++ g) globs)) as Hj.
  { induction Hgs as [|g gs (_ & Hg & _) _ IH]; [apply not_elem_of_nil|].
    assert (cr ∉ lit "  - " ++ g) as Hi.
    { rewrite not_elem_of_app. split; [apply not_in_lit; by_computing|].
      by apply one_line_no_cr. }
    destruct gs as [|g' gs]; [exact Hi|].
    change (join [nl] (map (fun g => lit "  - " ++ g) (g :: g' :: gs)))
      with ((lit "  - " ++ g) ++ [nl]
            ++ join [nl] (map (fun g => lit "  - " ++ g) (g' :: gs))).
    rewrite not_elem_of_app. split; [exact Hi|].
    rewrite not_elem_of_app. split; [apply not_in_lit; by_computing|exact IH]. }
  pose proof (token_no_cr _ Hd). pose proof (token_no_cr _ Hh).
  rewrite !not_elem_of_app.
  repeat split; try done; apply not_in_lit; by_computing.
Qed.

Lemma add_marker_no_cr git today content globs :
  cr ∉ content -> token today ->
  token (ContextBootstrap.compute_hash fnmatch git globs) ->
  Forall sound_pattern globs ->
  cr ∉ fst (ContextBootstrap.add_marker fnmatch git today content globs).
Proof.
  intros Hc Hd Hh Hgs. unfold ContextBootstrap.add_marker.
  destruct (ContextBootstrap.has_freshness_marker content); [done|].
  cbn [fst]. rewrite not_elem_of_app. split.
  - destruct (endswith content [nl]); [done|].
    rewrite not_elem_of_app. split; [done|]. apply not_in_lit; by_computing.
  - by apply built_marker_no_cr.
Qed.

(** The file the bootstrap tool leaves when it adds a marker, and what a
    tool reads from it. *)
Lemma add_marker_stored_text git today raw globs :
  ContextBootstrap.has_freshness_marker (universal_newlines raw) = false ->
  add_marker_stored fnmatch git today globs (Utf8 raw)
  = Utf8 (fst (ContextBootstrap.add_marker fnmatch git today
                 (universal_newlines raw) globs)).
Proof.
  intros H. unfold add_marker_stored, ContextBootstrap.add_marker.
  cbn [read_text]. by rewrite H.
Qed.

(** X8.  The bootstrap tool is run on a file whose text holds no [<!--],
    with a non-empty list of sound patterns, on a day and in a repository
    for which the date and the hash are tokens.  Then the audit reads from
    the file the text that was written, parses from it the record that was
    written, and classifies the document as Current when no git command of
    the hashing fails, as Stale when one does. *)
Theorem bootstrap_then_audit git today raw globs :
  let content := universal_newlines raw in
  str_in (lit "<!--") content = false ->
  globs <> [] -> Forall sound_pattern globs -> token today ->
  token (ContextBootstrap.compute_hash fnmatch git globs) ->
  let doc :=
    fst (ContextBootstrap.add_marker fnmatch git today content globs) in
  add_marker_stored fnmatch git today globs (Utf8 raw) = Utf8 doc
  /\ read_text (Utf8 doc) = inr doc
  /\ ContextAudit.parse_freshness_marker doc
     = Some (ContextAudit.Marker
               (ContextBootstrap.compute_hash fnmatch git globs) (Some today)
               globs)
  /\ (~ hashing_fails fnmatch git globs ->
      audit_verdict fnmatch git doc = Some ContextAudit.Current)
  /\ (hashing_fails fnmatch git globs ->
      audit_verdict fnmatch git doc = Some ContextAudit.Stale).
Proof.
  cbn zeta. intros Hc Hne Hgs Hd Hh.
  set (content := universal_newlines raw) in *.
  pose proof (parse_after_bootstrap git today content globs Hc Hne Hgs Hd Hh)
    as Hparse.
  split; [apply add_marker_stored_text; by apply no_opener_no_marker|].
  split.
  { cbn [read_text]. f_equal. apply universal_newlines_fixed.
    apply add_marker_no_cr; [apply universal_newlines_no_cr|done..]. }
  split; [exact Hparse|].
  unfold audit_verdict, ContextAudit.audit_file. rewrite Hparse.
  cbn [ContextAudit.watches ContextAudit.watches_hash]. cbn zeta.
  split.
  - intros Hn. apply compute_hash_success in Hn as (h & -> & -> & _).
    by rewrite bool_decide_eq_false_2 by (by intros ?).
  - intros Hf. apply compute_hash_failure in Hf as (-> & -> & _).
    rewrite bool_decide_eq_true_2; [done|].
    intros E. symmetry in E. by apply sentinels_differ in E.
Qed.

Lemma update_hash_bootstrap git ws h :
  ContextUpdateHash.compute_hash fnmatch git ws = ContextUpdateHash.Ret h ->
  ContextBootstrap.compute_hash fnmatch git ws = h.
Proof.
  unfold ContextUpdateHash.compute_hash, ContextBootstrap.compute_hash.
  destruct (git_ls_files git) as [out|]; [|done].
  destruct (decide _); [by intros [= <-]|].
  destruct (git_hash_object git _); [by intros [= <-]|done].
Qed.

Lemma update_hash_audit git ws h :
  ContextUpdateHash.compute_hash fnmatch git ws = ContextUpdateHash.Ret h ->
  ContextAudit.compute_hash fnmatch git ws = h.
Proof.
  unfold ContextUpdateHash.compute_hash, ContextAudit.compute_hash.
  destruct (git_ls_files git) as [out|]; [|done].
  destruct (decide _); [by intros [= <-]|].
  destruct (git_hash_object git _); [by intros [= <-]|done].
Qed.

Lemma items_without l globs :
  l <> [] -> nl ∉ l ->
  forallb (fun c => negb (startswith l [c])) (lit "  - ") = true ->
  Forall (fun g => str_in l g = false) globs ->
  str_in l (join [nl] (map item globs)) = false.
Proof.
  intros Hl Hnl Hi Hg. rewrite str_in_join by done.
  induction Hg as [|g gs Hg _ IH]; [done|].
  cbn [map existsb]. unfold item at 1. rewrite str_in_skip by done.
  by rewrite Hg, IH.
Qed.

Lemma built_block_parse_watches today h globs :
  fingerprint_token h -> token today ->
  globs <> [] -> Forall sound_pattern globs ->
  parse_watches (built_block today h globs) = globs.
Proof.
  intros Hh Hd Hne Hgs.
  rewrite <- (built_block_watches today h Hh Hd globs Hne Hgs) at 2.
  apply parse_watches_loop_outside.
  rewrite (built_block_lines today h Hh Hd globs Hne Hgs).
  assert (watches_line (lit "watches_hash: " ++ h) = false) as E1.
  { unfold watches_line. destruct Hh as [Ht _].
    rewrite strip_app; [done|by_computing|by_computing|apply Ht
                       |by apply token_strip]. }
  assert (watches_line (lit "last_verified: " ++ today) = false) as E2.
  { unfold watches_line.
    rewrite strip_app; [done|by_computing|by_computing|apply Hd
                       |by apply token_strip]. }
  rewrite !filter_cons, E1, E2.
  rewrite !decide_False by done. rewrite decide_True by done.
  assert (filter (fun l => watches_line l = true) (map item globs) = []) as ->;
    [|cbn; lia].
  clear -Hgs. induction Hgs as [|g gs Hg _ IH]; [done|].
  cbn [map]. rewrite filter_cons, IH.
  unfold watches_line. rewrite (strip_item g Hg).
  by rewrite decide_False.
Qed.

(** X9.  The bootstrap tool is run on a file whose text holds no [<!--],
    with a non-empty list of sound patterns that spell no field label, on a
    day in ISO form and in a repository for which the hash is a token.  When
    the hashing of the update tool succeeds, running the update tool on the
    file that was written stores the text the bootstrap tool would have
    written in the repository and on the day of the update: the text before
    the marker and the watches list stay, the hash and the date are the new
    ones.  When the new date and the new hash are tokens, the audit in that
    repository classifies the new text as Current. *)
Theorem update_after_bootstrap git git' today today' raw globs new_hash :
  let content := universal_newlines raw in
  str_in (lit "<!--") content = false ->
  globs <> [] -> Forall plain_pattern globs ->
  is_iso_date today = true ->
  token (ContextBootstrap.compute_hash fnmatch git globs) ->
  ContextUpdateHash.compute_hash fnmatch git' globs
  = ContextUpdateHash.Ret new_hash ->
  let doc :=
    fst (ContextBootstrap.add_marker fnmatch git today content globs) in
  let doc' :=
    fst (ContextBootstrap.add_marker fnmatch git' today' content globs) in
  add_marker_stored fnmatch git today globs (Utf8 raw) = Utf8 doc
  /\ ContextUpdateHash.main fnmatch git' today' (Some (Utf8 doc))
     = ContextUpdateHash.Ret doc'
  /\ (token today' -> token new_hash ->
      audit_verdict fnmatch git' doc' = Some ContextAudit.Current).
Proof.
  cbn zeta. intros Hc Hne Hplain Hiso Hh Hnew.
  set (content := universal_newlines raw) in *.
  assert (Forall sound_pattern globs) as Hgs0.
  { eapply Forall_impl; [exact Hplain|]. by intros g [? _]. }
  split; [apply add_marker_stored_text; by apply no_opener_no_marker|].
  split.
  2:{ intros Hd' Hh'.
      pose proof (update_hash_bootstrap git' globs new_hash Hnew) as Eb.
      unfold audit_verdict, ContextAudit.audit_file.
      rewrite (parse_after_bootstrap git' today' content globs Hc Hne Hgs0 Hd')
        by (by rewrite Eb).
      cbn [ContextAudit.watches ContextAudit.watches_hash]. cbn zeta.
      rewrite Eb, (update_hash_audit git' globs new_hash Hnew).
      by rewrite bool_decide_eq_false_2 by (by intros ?). }
  assert (Forall sound_pattern globs) as Hgs.
  { eapply Forall_impl; [exact Hplain|]. by intros g [? _]. }
  pose proof (iso_date_token today Hiso) as Hd.
  unfold ContextUpdateHash.main. cbn [read_text].
  rewrite (universal_newlines_fixed
             (fst (ContextBootstrap.add_marker fnmatch git today content globs)))
    by (apply add_marker_no_cr; [apply universal_newlines_no_cr|done..]).
  destruct (add_marker_text git today content globs Hc) as (P & -> & HP & EP).
  destruct (add_marker_text git' today' content globs Hc) as (P' & -> & _ & EP').
  rewrite <- EP in EP'. subst P'.
  rewrite (update_hash_bootstrap git' globs new_hash Hnew).
  set (h := ContextBootstrap.compute_hash fnmatch git globs) in *.
  assert (fingerprint_token h) as Hft
    by (split; [done|apply bootstrap_hash_length]).
  destruct (update_search_appended today h Hft Hd P HP globs Hne Hgs)
    as (m & Hm & Hs & He).
  rewrite Hm.
  unfold group. rewrite Hs, He.
  rewrite (appended_doc_parts today h P globs).
  rewrite slice_mid.
  rewrite (built_block_parse_watches today h globs Hft Hd Hne Hgs).
  destruct globs as [|g gs] eqn:Eg; [done|]. rewrite <- Eg in *.
  rewrite Hnew. f_equal.
  rewrite take_app_length.
  set (pre := P ++ nl :: lit "<!-- freshness" ++ [nl]).
  rewrite <- (length_app pre (built_block today h globs)).
  rewrite (app_assoc pre (built_block today h globs)), drop_app_length.
  subst pre.
  rewrite (appended_doc_parts today' new_hash P globs). do 2 f_equal.
  unfold built_block.
  apply rewrite_block_canonical.
  - by apply (compute_hash_length fnmatch git' globs).
  - apply Hft.
  - exact Hd.
  - rewrite str_in_sep by (apply not_in_lit; by_computing).
    rewrite str_in_short
      by (do 11 (destruct today as [|? today]; try discriminate Hiso);
          cbn; lia).
    rewrite str_in_sep by (apply not_in_lit; by_computing).
    rewrite items_without; [done|done|apply not_in_lit; by_computing
                           |by_computing|].
    eapply Forall_impl; [exact Hplain|]. by intros ? (_ & ? & _).
  - rewrite str_in_sep by (apply not_in_lit; by_computing).
    rewrite items_without; [done|done|apply not_in_lit; by_computing
                           |by_computing|].
    eapply Forall_impl; [exact Hplain|]. by intros ? (_ & _ & ?).
Qed.
End AfterBootstrap.

(** Witness of [bootstrap_then_audit]. *)
Lemma bootstrap_then_audit_witness :
  audit_verdict glob_match sample_git
    (fst (ContextBootstrap.add_marker glob_match sample_git (lit "2026-11-04")
            plain_doc [lit "src/*"]))
  = Some ContextAudit.Current.
Proof.
  apply (bootstrap_then_audit glob_match sample_git (lit "2026-11-04")
           plain_doc [lit "src/*"]).
  - vm_compute. reflexivity.
  - discriminate.
  - repeat constructor; by_computing.
  - split; by_computing.
  - split; by_computing.
  - intros [H|[_ H]]; vm_compute in H; discriminate.
Defined.

(** Witness of [update_after_bootstrap]. *)
Lemma update_after_bootstrap_witness :
  ContextUpdateHash.main glob_match sample_git (lit "2026-11-05")
    (Some (Utf8 (fst (ContextBootstrap.add_marker glob_match git_hash_fails
                        (lit "2026-11-04") plain_doc [lit "src/*"]))))
  = ContextUpdateHash.Ret
      (fst (ContextBootstrap.add_marker glob_match sample_git
              (lit "2026-11-05") plain_doc [lit "src/*"])).
Proof.
  apply (update_after_bootstrap glob_match git_hash_fails sample_git
           (lit "2026-11-04") (lit "2026-11-05") plain_doc [lit "src/*"]
           (lit "2dd1d0b")).
  - vm_compute. reflexivity.
  - discriminate.
  - repeat constructor; by_computing.
  - vm_compute. reflexivity.
  - split; by_computing.
  - vm_compute. reflexivity.
Defined.

(** ** The commit check *)

Section Warnings.
Import ContextCheckWatches.
Variable fnmatch : str -> str -> bool.

Lemma glob_loop_touches modified watches :
  glob_loop fnmatch modified watches = touches fnmatch watches modified.
Proof.
  unfold touches. induction watches as [|g ws IH]; [done|].
  cbn [glob_loop existsb]. by destruct (fnmatch modified g).
Qed.

Lemma modified_loop_first watches modified_files :
  match modified_loop fnmatch watches modified_files with
  | Some modified => first_touching fnmatch watches modified_files modified
  | None => Forall (fun m => touches fnmatch watches m = false) modified_files
  end.
Proof.
  induction modified_files as [|m ms IH]; cbn [modified_loop]; [constructor|].
  rewrite glob_loop_touches. destruct (touches fnmatch watches m) eqn:E.
  - exists [], ms. by repeat split.
  - destruct (modified_loop fnmatch watches ms) as [m'|].
    + destruct IH as (pre & post & -> & Ht & Hpre).
      exists (m :: pre), post. repeat split; [done|by constructor].
    + by constructor.
Qed.

Lemma modified_loop_some watches modified_files :
  is_Some (modified_loop fnmatch watches modified_files)
  <-> existsb (touches fnmatch watches) modified_files = true.
Proof.
  induction modified_files as [|m ms IH]; cbn [modified_loop existsb].
  - split; [by intros [? ?]|done].
  - rewrite glob_loop_touches. destruct (touches fnmatch watches m); [|done].
    split; [done|by eexists].
Qed.

Lemma warnings_files tracked modified_files :
  map fst (warnings fnmatch tracked modified_files)
  = map fst (filter (fun t => existsb (touches fnmatch (snd t)) modified_files
                              = true) tracked).
Proof.
  induction tracked as [|[context_file watches] rest IH]; [done|].
  cbn [warnings]. rewrite filter_cons. cbn [snd].
  pose proof (modified_loop_some watches modified_files) as H.
  destruct (modified_loop fnmatch watches modified_files) as [m|].
  - rewrite decide_True by (apply H; by eexists). cbn [map fst]. by rewrite IH.
  - rewrite decide_False; [done|].
    intros E. apply H in E. by destruct E.
Qed.

Lemma warnings_first tracked modified_files :
  Forall (fun w => exists watches,
            (fst w, watches) ∈ tracked
            /\ first_touching fnmatch watches modified_files (snd w))
    (warnings fnmatch tracked modified_files).
Proof.
  induction tracked as [|[context_file watches] rest IH]; [constructor|].
  cbn [warnings].
  assert (Forall (fun w => exists watches0,
            (fst w, watches0) ∈ (context_file, watches) :: rest
            /\ first_touching fnmatch watches0 modified_files (snd w))
            (warnings fnmatch rest modified_files)) as IH'.
  { eapply Forall_impl; [exact IH|]. intros w (ws & Hin & Hf).
    exists ws. split; [by apply list_elem_of_further|done]. }
  pose proof (modified_loop_first watches modified_files) as H.
  destruct (modified_loop fnmatch watches modified_files) as [m|]; [|done].
  constructor; [|done]. exists watches. split; [apply list_elem_of_here|done].
Qed.

Lemma warnings_nil tracked : warnings fnmatch tracked [] = [].
Proof. induction tracked as [|[? ?] rest IH]; [done|]. exact IH. Qed.

(** The files found are all decoded, or the search ends in the exception
    of the first one that cannot be. *)
Lemma find_tracked_decoded files :
  Forall (fun pf => snd pf <> NotUtf8) files ->
  find_tracked_context_files files = Some (omap tracked_entry files).
Proof.
  induction 1 as [|[fpath f] files Hf _ IH]; [done|].
  cbn [find_tracked_context_files]. simpl in Hf.
  change (omap tracked_entry ((fpath, f) :: files))
    with (match tracked_entry (fpath, f) with
          | Some y => y :: omap tracked_entry files
          | None => omap tracked_entry files
          end).
  unfold tracked_entry at 1, text_read. cbn [fst snd].
  destruct f as [raw| |]; [|done|]; cbn [read_text].
  - rewrite IH. by destruct (tracked_watches (universal_newlines raw)).
  - exact IH.
Qed.

Lemma find_tracked_aborts files :
  Exists (fun pf => snd pf = NotUtf8) files ->
  find_tracked_context_files files = None.
Proof.
  induction files as [|[fpath f] files IH]; intros H; [by inversion H|].
  cbn [find_tracked_context_files].
  destruct f as [raw| |]; cbn [read_text]; [|done|].
  - inversion H as [? ? E|? ? Hr]; subst; [discriminate E|].
    rewrite (IH Hr). by destruct (tracked_watches _).
  - inversion H as [? ? E|? ? Hr]; subst; [discriminate E|]. by apply IH.
Qed.

(** X10.  When every context file found can be decoded, the commit check
    ends with status 0 and prints at most one warning for each tracked
    context file: the files warned about are, in order, the tracked files
    of which some pattern matches some modified file, and each warning
    names the first modified file that a pattern of the list matches.  When
    a file found cannot be decoded, the check of a non-empty list of
    modified files ends with status 1 and without a warning.  Without
    modified files the check ends with status 0. *)
Theorem one_warning_per_context_file modified_files files :
  (Forall (fun pf => snd pf <> NotUtf8) files ->
   let tracked := omap tracked_entry files in
   let out := main fnmatch modified_files files in
   find_tracked_context_files files = Some tracked
   /\ snd out = 0
   /\ map fst (fst out)
      = map fst (filter (fun t => existsb (touches fnmatch (snd t))
                                   modified_files = true) tracked)
   /\ Forall (fun w => exists watches,
                (fst w, watches) ∈ tracked
                /\ first_touching fnmatch watches modified_files (snd w))
        (fst out))
  /\ (Exists (fun pf => snd pf = NotUtf8) files -> modified_files <> [] ->
      main fnmatch modified_files files = ([], 1))
  /\ main fnmatch [] files = ([], 0).
Proof.
  split; [|split; [|done]].
  - intros Hdec. cbn zeta.
    pose proof (find_tracked_decoded files Hdec) as Hfind.
    assert (main fnmatch modified_files files
            = (warnings fnmatch (omap tracked_entry files) modified_files, 0))
      as ->.
    { unfold main. destruct modified_files as [|m ms];
        [by rewrite warnings_nil|].
      rewrite Hfind. by destruct (omap tracked_entry files). }
    cbn [fst snd]. split; [done|]. split; [done|].
    split; [apply warnings_files|apply warnings_first].
  - intros Hex Hne. unfold main. destruct modified_files; [done|].
    by rewrite find_tracked_aborts.
Qed.
End Warnings.

(** ** The scan of the bootstrap tool *)

(** The bootstrap pattern finds a block between the two delimiter
    lines, whatever stands before it and in it. *)
Lemma delimited_block_matches z st :
  is_Some (match_at ContextBootstrap.FRESHNESS_PATTERN
             (lit "<!-- freshness" ++ nl :: z ++ nl :: lit "-->" ++ [nl]) st).
Proof.
  unfold match_at, ContextBootstrap.FRESHNESS_PATTERN.
  change (lit "<!-- freshness") with (lit "<!--" ++ 32%N :: lit "freshness").
  rewrite <- app_assoc. rewrite match_k_lit_app, match_k_starG.
  cbn [app].
  apply (greedy_complete _ _ _ _ 1); [cbn; lia|done|].
  cbn [skipn]. rewrite drop_0.
  rewrite match_k_lit_app, match_k_starG.
  apply (greedy_complete _ _ _ _ 0); [cbn; lia|done|]. rewrite drop_0.
  rewrite match_k_lit_cons, match_k_starL.
  apply lazy_any_app, lazy_any_here. vm_compute. by eexists.
Qed.

Lemma has_marker_delimited q z :
  ContextBootstrap.has_freshness_marker
    (q ++ lit "<!-- freshness" ++ nl :: z ++ nl :: lit "-->" ++ [nl]) = true.
Proof.
  unfold ContextBootstrap.has_freshness_marker.
  apply bool_decide_eq_true_2. unfold re_search.
  apply (search_from_complete _ _ (length q)).
  - rewrite length_app. lia.
  - rewrite drop_app_length. apply delimited_block_matches.
Qed.

(** The text a tool reads from a file to which the bootstrap tool wrote
    its marker holds a marker, whatever the hash, the date and the patterns
    are. *)
Lemma has_marker_read_back content today h globs :
  ContextBootstrap.has_freshness_marker
    (universal_newlines
       (content ++ ContextBootstrap.build_marker today h globs)) = true.
Proof.
  unfold ContextBootstrap.build_marker. cbn zeta.
  set (body := lit "watches_hash: " ++ h ++ [nl]
               ++ lit "last_verified: " ++ today ++ [nl]
               ++ lit "watches:" ++ [nl]
               ++ join [nl] (map (fun g => lit "  - " ++ g) globs)).
  assert (content ++ [nl] ++ lit "<!-- freshness" ++ [nl]
          ++ lit "watches_hash: " ++ h ++ [nl]
          ++ lit "last_verified: " ++ today ++ [nl]
          ++ lit "watches:" ++ [nl]
          ++ join [nl] (map (fun g => lit "  - " ++ g) globs) ++ [nl]
          ++ lit "-->" ++ [nl]
          = (content ++ [nl])
            ++ 60%N :: lit "!-- freshness"
            ++ nl :: (body ++ [nl]) ++ 45%N :: lit "->" ++ [nl]) as ->.
  { unfold body. change (lit "<!-- freshness") with (60%N :: lit "!-- freshness").
    change (lit "-->") with (45%N :: lit "->").
    repeat (rewrite <- app_assoc || cbn [app]). done. }
  rewrite universal_newlines_app by done.
  assert (forall t, universal_newlines (60%N :: lit "!-- freshness" ++ nl :: t)
                    = lit "<!-- freshness" ++ nl :: universal_newlines t) as E.
  { intros t.
    change (60%N :: lit "!-- freshness" ++ nl :: t)
      with ((lit "<!-- freshness" ++ [nl]) ++ t).
    rewrite universal_newlines_head by (apply not_in_lit; by_computing).
    by rewrite <- app_assoc. }
  rewrite E. rewrite (universal_newlines_app (body ++ [nl]) 45%N) by done.
  destruct (universal_newlines_closed body) as [z ->].
  change (universal_newlines (45%N :: lit "->" ++ [nl])) with (lit "-->" ++ [nl]).
  rewrite <- (app_assoc z [nl]). cbn [app].
  apply has_marker_delimited.
Qed.

Section Scan.
Import ContextBootstrap.
Variable fnmatch : str -> str -> bool.

(** What the scan reads from a file after the bootstrap tool ran on it
    holds a marker. *)
Lemma marked_after_bootstrap git today globs raw :
  exists raw',
    add_marker_stored fnmatch git today globs (Utf8 raw) = Utf8 raw'
    /\ has_freshness_marker (universal_newlines raw') = true.
Proof.
  unfold add_marker_stored, add_marker. cbn [read_text].
  destruct (has_freshness_marker (universal_newlines raw)) eqn:E.
  - by exists raw.
  - eexists. split; [reflexivity|]. apply has_marker_read_back.
Qed.

Lemma scan_aborts entries :
  scan_directory entries = None <-> Exists undecodable entries.
Proof.
  induction entries as [|e rest IH]; cbn [scan_directory].
  - split; [done|by inversion 1].
  - rewrite Exists_cons, <- IH. unfold undecodable.
    destruct (endswith (fname e) (lit ".md")); cbn [negb].
    + destruct (ftext e) as [raw| |]; cbn [read_text].
      * destruct (has_freshness_marker (universal_newlines raw)); cbn [negb].
        -- split; [by right|]. by intros [[_ ?]|?].
        -- destruct (scan_directory rest).
           ++ split; [done|]. by intros [[_ ?]|?].
           ++ split; [by right|done].
      * split; [by left|done].
      * split; [by right|]. by intros [[_ ?]|?].
    + split; [by right|]. by intros [[? _]|?].
Qed.

Lemma elem_of_scan_cases entries : forall found p,
  scan_directory entries = Some found ->
  p ∈ found
  <-> Exists (fun e => fpath e = p /\ endswith (fname e) (lit ".md") = true
                       /\ exists raw,
                            ftext e = Utf8 raw
                            /\ has_freshness_marker (universal_newlines raw)
                               = false) entries.
Proof.
  induction entries as [|e rest IH]; intros found p; cbn [scan_directory].
  - intros [= <-]. rewrite Exists_nil. apply elem_of_nil.
  - rewrite Exists_cons.
    destruct (endswith (fname e) (lit ".md")) eqn:Emd; cbn [negb].
    + destruct (ftext e) as [raw| |] eqn:Et; cbn [read_text]; [| done |].
      * destruct (has_freshness_marker (universal_newlines raw)) eqn:Ec;
          cbn [negb].
        -- intros Hs. rewrite (IH found p Hs).
           split; [by right|].
           intros [(_ & _ & raw' & [= <-] & H)|H]; [congruence|done].
        -- destruct (scan_directory rest) as [found'|]; [|done].
           intros [= <-]. rewrite elem_of_cons, (IH found' p eq_refl).
           split.
           ++ intros [->|H]; [left; eauto|by right].
           ++ intros [(<- & _)|H]; [by left|by right].
      * intros Hs. rewrite (IH found p Hs).
        split; [by right|]. by intros [(_ & _ & raw' & ? & _)|H].
    + intros Hs. rewrite (IH found p Hs).
      split; [by right|]. by intros [(_ & ? & _)|H].
Qed.

Lemma elem_of_scan entries found p :
  scan_directory entries = Some found ->
  p ∈ found
  <-> exists e raw,
        e ∈ entries /\ fpath e = p /\ endswith (fname e) (lit ".md") = true
        /\ ftext e = Utf8 raw
        /\ has_freshness_marker (universal_newlines raw) = false.
Proof.
  intros H. rewrite (elem_of_scan_cases entries found p H), Exists_exists.
  split.
  - intros (e & Hin & H1 & H2 & raw & H3 & H4). by exists e, raw.
  - intros (e & raw & Hin & H1 & H2 & H3 & H4). exists e. eauto 10.
Qed.

(** X11.  The scan ends in an exception exactly when a file named [*.md]
    cannot be decoded.  Otherwise it lists the paths of the files named
    [*.md] that can be read and whose text holds no marker; and once the
    bootstrap tool has been run on every file, it lists none. *)
Theorem scan_after_bootstrap git today globs entries :
  (scan_directory entries = None <-> Exists undecodable entries)
  /\ (forall found p,
        scan_directory entries = Some found ->
        p ∈ found
        <-> exists e raw,
              e ∈ entries /\ fpath e = p
              /\ endswith (fname e) (lit ".md") = true
              /\ ftext e = Utf8 raw
              /\ has_freshness_marker (universal_newlines raw) = false)
  /\ (~ Exists undecodable entries ->
      scan_directory (map (bootstrapped fnmatch git today globs) entries)
      = Some []).
Proof.
  split; [apply scan_aborts|]. split; [apply elem_of_scan|].
  induction entries as [|e rest IH]; intros Hdec; [done|].
  rewrite Exists_cons in Hdec.
  assert (scan_directory (map (bootstrapped fnmatch git today globs) rest)
          = Some []) as IH' by (apply IH; tauto).
  cbn [map scan_directory bootstrapped fname ftext].
  destruct (endswith (fname e) (lit ".md")) eqn:Emd; cbn [negb]; [|exact IH'].
  destruct (ftext e) as [raw| |] eqn:Et.
  - destruct (marked_after_bootstrap git today globs raw) as (raw' & -> & Hm).
    cbn [read_text]. by rewrite Hm.
  - exfalso. apply Hdec. left. by split.
  - exact IH'.
Qed.
End Scan.

(** ** The context files of the modified files *)

Section Collect.
Import ContextFor.
Variable fnmatch : str -> str -> bool.

Lemma elem_of_find_context filepath mappings cf :
  cf ∈ find_context_for_file fnmatch filepath mappings
  <-> exists glob, (glob, cf) ∈ mappings /\ fnmatch filepath glob = true.
Proof.
  induction mappings as [|[g c] rest IH]; cbn [find_context_for_file].
  - split; [by intros ?%elem_of_nil|by intros (? & ?%elem_of_nil & _)].
  - destruct (fnmatch filepath g) eqn:E.
    + rewrite elem_of_cons, IH. split.
      * intros [->|(g' & Hin & Hm)].
        -- exists g. split; [apply list_elem_of_here|done].
        -- exists g'. split; [by apply list_elem_of_further|done].
      * intros (g' & [[= -> ->]|Hin]%elem_of_cons & Hm); [by left|].
        right. by exists g'.
    + rewrite IH. split.
      * intros (g' & Hin & Hm). exists g'.
        split; [by apply list_elem_of_further|done].
      * intros (g' & [[= -> ->]|Hin]%elem_of_cons & Hm); [congruence|].
        by exists g'.
Qed.

Lemma collect_step_spec st cf :
  collected st ->
  collected (collect_step st cf)
  /\ forall x, x ∈ snd (collect_step st cf) <-> x ∈ snd st \/ x = cf.
Proof.
  destruct st as [seen cfs]. intros [Hnd Hseen]. unfold collect_step.
  cbn [fst snd] in *. destruct (decide (cf ∈ seen)) as [Hin|Hin]; cbn [fst snd].
  - split; [by split|]. intros x. split; [by left|].
    intros [?| ->]; [done|]. by apply Hseen.
  - split.
    + split.
      * cbn [fst snd].
        apply NoDup_app. split; [done|]. split; [|apply NoDup_singleton].
        intros x Hx ->%list_elem_of_singleton. apply Hin. by apply Hseen.
      * intros x. cbn [fst snd].
        rewrite elem_of_union, elem_of_singleton, elem_of_app,
          list_elem_of_singleton. by rewrite Hseen.
    + intros x. by rewrite elem_of_app, list_elem_of_singleton.
Qed.

Lemma collect_fold_spec cfs : forall st,
  collected st ->
  collected (fold_left collect_step cfs st)
  /\ forall x, x ∈ snd (fold_left collect_step cfs st)
               <-> x ∈ snd st \/ x ∈ cfs.
Proof.
  induction cfs as [|cf cfs IH]; intros st Hst; cbn [fold_left].
  - split; [done|]. intros x. split; [by left|].
    by intros [?|?%elem_of_nil].
  - destruct (collect_step_spec st cf Hst) as [Hc Hx].
    destruct (IH _ Hc) as [Hc' Hx']. split; [done|].
    intros x. rewrite Hx', Hx, elem_of_cons. tauto.
Qed.

(** X12.  In its automatic mode the lookup tool outputs each context file
    once: the list it collects has no repetition, and holds exactly the
    context files that the index maps some modified file to. *)
Theorem collect_each_once modified mappings :
  NoDup (collect fnmatch modified mappings)
  /\ forall cf,
       cf ∈ collect fnmatch modified mappings
       <-> exists filepath glob,
             filepath ∈ modified /\ (glob, cf) ∈ mappings
             /\ fnmatch filepath glob = true.
Proof.
  unfold collect.
  assert (forall st, collected st ->
    collected (fold_left
                 (fun st filepath =>
                    fold_left collect_step
                      (find_context_for_file fnmatch filepath mappings) st)
                 modified st)
    /\ forall x,
         x ∈ snd (fold_left
                    (fun st filepath =>
                       fold_left collect_step
                         (find_context_for_file fnmatch filepath mappings) st)
                    modified st)
         <-> x ∈ snd st
             \/ exists filepath, filepath ∈ modified
                  /\ x ∈ find_context_for_file fnmatch filepath mappings) as H.
  { induction modified as [|f fs IH]; intros st Hst; cbn [fold_left].
    - split; [done|]. intros x. split; [by left|].
      by intros [?|(? & ?%elem_of_nil & _)].
    - destruct (collect_fold_spec (find_context_for_file fnmatch f mappings)
                  st Hst) as [Hc Hx].
      destruct (IH _ Hc) as [Hc' Hx']. split; [done|].
      intros x. rewrite Hx', Hx. split.
      + intros [[?|?]|(f' & Hin & Hf)]; [by left| |].
        * right. exists f. split; [apply list_elem_of_here|done].
        * right. exists f'. split; [by apply list_elem_of_further|done].
      + intros [?|(f' & [->|Hin]%elem_of_cons & Hf)]; [by left; left| |].
        * by left; right.
        * right. by exists f'. }
  destruct (H (∅, [])) as [[Hnd _] Hx].
  { split; [constructor|]. intros x. cbn. by rewrite elem_of_nil. }
  split; [done|]. intros cf. rewrite Hx. cbn [snd]. split.
  - intros [?%elem_of_nil|(f & Hin & Hf)]; [done|].
    apply elem_of_find_context in Hf as (g & Hg & Hm). by exists f, g.
  - intros (f & g & Hin & Hg & Hm). right. exists f. split; [done|].
    apply elem_of_find_context. by exists g.
Qed.
End Collect.

(** ** The modified files *)

Lemma rstrip_by_snoc f x c : f c = true -> rstrip_by f (x ++ [c]) = rstrip_by f x.
Proof.
  intros H. unfold rstrip_by. rewrite rev_app_distr.
  cbn [rev app lstrip_by]. by rewrite H.
Qed.

Lemma rstrip_by_ends x : ends_nonspace x -> rstrip_by isspace x = x.
Proof.
  intros (u & d & -> & Hd). unfold rstrip_by. rewrite rev_app_distr.
  cbn [rev app lstrip_by]. rewrite Hd.
  change (d :: rev u) with (rev [d] ++ rev u).
  by rewrite <- rev_app_distr, rev_involutive.
Qed.

Lemma sound_ends_nonspace g : sound_pattern g -> ends_nonspace g.
Proof.
  intros (Hne & _ & Hs).
  destruct (exists_last Hne) as (u & d & ->). exists u, d. split; [done|].
  by apply (strip_last (u ++ [d]) u d).
Qed.

Lemma ends_nonspace_app a l : ends_nonspace l -> ends_nonspace (a ++ l).
Proof.
  intros (u & d & -> & Hd). exists (a ++ u), d. by rewrite app_assoc.
Qed.

Lemma join_ends_nonspace ls :
  ls <> [] -> Forall ends_nonspace ls -> ends_nonspace (join [nl] ls).
Proof.
  induction ls as [|l ls IH]; intros Hne H; [done|].
  inversion H as [|? ? Hl Hls]; subst.
  destruct ls as [|l' ls']; [done|].
  change (join [nl] (l :: l' :: ls')) with (l ++ [nl] ++ join [nl] (l' :: ls')).
  rewrite app_assoc. apply ends_nonspace_app. by apply IH.
Qed.

Lemma lines_text_join (ls : list str) :
  ls <> [] -> flat_map (fun l => l ++ [nl]) ls = join [nl] ls ++ [nl].
Proof.
  induction ls as [|l ls IH]; intros Hne; [done|].
  destruct ls as [|l' ls']; [by cbn; rewrite app_nil_r|].
  change (flat_map (fun l => l ++ [nl]) (l :: l' :: ls'))
    with ((l ++ [nl]) ++ flat_map (fun l => l ++ [nl]) (l' :: ls')).
  rewrite IH by done.
  change (join [nl] (l :: l' :: ls')) with (l ++ [nl] ++ join [nl] (l' :: ls')).
  by rewrite <- !app_assoc.
Qed.

(** The lines read from an output whose first line starts, and whose lines
    end, with a character that is no white space. *)
Lemma stdout_lines_text c t (ls : list str) :
  isspace c = false ->
  Forall one_line ((c :: t) :: ls) -> Forall ends_nonspace ((c :: t) :: ls) ->
  stdout_lines (flat_map (fun l => l ++ [nl]) ((c :: t) :: ls)) = (c :: t) :: ls.
Proof.
  intros Hc Hol Hen. unfold stdout_lines.
  rewrite lines_text_join by done.
  assert (strip (join [nl] ((c :: t) :: ls) ++ [nl]) = join [nl] ((c :: t) :: ls))
    as ->.
  { unfold strip.
    assert (exists x, join [nl] ((c :: t) :: ls) = c :: x) as [x Ex].
    { destruct ls; cbn; eauto. }
    rewrite Ex. cbn [app]. rewrite (proj2 (lstrip_by_fixed_head isspace c _) Hc).
    change (c :: x ++ [nl]) with ((c :: x) ++ [nl]). rewrite <- Ex.
    rewrite rstrip_by_snoc by done.
    apply rstrip_by_ends. by apply join_ends_nonspace. }
  apply splitlines_join; [done|].
  eapply Forall_impl; [exact Hen|]. intros l (u & d & -> & _). by destruct u.
Qed.

Lemma status_line_ok e :
  status_entry e -> one_line (status_line e) /\ ends_nonspace (status_line e).
Proof.
  intros (Hlen & Hol & Hs). unfold status_line. split.
  - apply one_line_app; [done|]. apply (one_line_app [32%N]); [done|apply Hs].
  - apply ends_nonspace_app. apply (ends_nonspace_app [32%N]).
    by apply sound_ends_nonspace.
Qed.

Lemma status_file_line e rest :
  status_entry e ->
  ContextFor.status_files (status_line e :: rest)
  = snd e :: ContextFor.status_files rest.
Proof.
  destruct e as [st name]. intros (Hlen & _ & Hne & _ & Hs). cbn [fst snd] in *.
  destruct st as [|a [|b [|? ?]]]; try discriminate Hlen.
  destruct name as [|x name]; [done|].
  unfold status_line. cbn [fst snd app ContextFor.status_files length Nat.ltb
                             Nat.leb skipn].
  by rewrite Hs.
Qed.

Lemma status_files_entries entries :
  Forall status_entry entries ->
  ContextFor.status_files (map status_line entries) = map snd entries.
Proof.
  induction 1 as [|e rest He _ IH]; [done|].
  cbn [map]. by rewrite status_file_line, IH.
Qed.

Lemma entries_lines_ok entries :
  Forall status_entry entries ->
  Forall one_line (map status_line entries)
  /\ Forall ends_nonspace (map status_line entries).
Proof.
  induction 1 as [|e rest He _ [IH1 IH2]]; [by split|].
  destruct (status_line_ok e He). cbn [map]. split; by constructor.
Qed.

Lemma porcelain_lines entries :
  porcelain entries = flat_map (fun l => l ++ [nl]) (map status_line entries).
Proof.
  unfold porcelain. induction entries as [|e rest IH]; [done|].
  cbn [flat_map map]. by rewrite IH.
Qed.

(** X13.  From a porcelain status whose first line starts with a status
    character that is no blank, [get_modified_files] reads the paths of the
    entries, in order. *)
Theorem modified_files_read entries :
  Forall status_entry entries ->
  match entries with
  | (c :: _, _) :: _ => isspace c = false
  | _ => True
  end ->
  ContextFor.get_modified_files (Completed (porcelain entries))
  = map snd entries.
Proof.
  intros He Hc. unfold ContextFor.get_modified_files.
  destruct entries as [|[st name] rest]; [done|].
  destruct (entries_lines_ok _ He) as [Hol Hen].
  inversion He as [|? ? (Hlen & _) _]; subst. cbn [fst] in Hlen.
  destruct st as [|c st]; [discriminate Hlen|].
  rewrite porcelain_lines.
  change (map status_line ((c :: st, name) :: rest))
    with ((c :: (st ++ 32%N :: name)) :: map status_line rest) in *.
  rewrite (stdout_lines_text c _ _ Hc Hol Hen).
  change ((c :: (st ++ 32%N :: name)) :: map status_line rest)
    with (map status_line ((c :: st, name) :: rest)).
  by apply status_files_entries.
Qed.

Lemma strip_length s : length (strip s) <= length s.
Proof.
  unfold strip. pose proof (rstrip_by_length isspace (lstrip_by isspace s)).
  pose proof (lstrip_by_length isspace s). lia.
Qed.

Lemma strip_tail_nonempty a b t :
  strip (a :: b :: t) = a :: b :: t -> strip (b :: t) <> [].
Proof.
  intros Hs E. apply strip_nil in E.
  destruct (exists_last (l := b :: t) ltac:(done)) as (u & d & Eu).
  rewrite Eu in E, Hs. rewrite forallb_app in E. apply andb_prop in E as [_ E].
  cbn in E. rewrite andb_true_r in E.
  apply (strip_last _ (a :: u) d) in Hs. congruence.
Qed.

(** X14.  When the first line of the porcelain status starts with a blank (a
    file changed in the work tree only), the first path is not read as it
    is: [strip] on the whole output takes the blank away, so that the path
    loses its first character, and a path of one character is dropped; the
    paths of the other entries are read in full. *)
Theorem first_path_cut y name rest :
  isspace y = false ->
  status_entry ([32%N; y], name) -> Forall status_entry rest ->
  ContextFor.get_modified_files
    (Completed (porcelain (([32%N; y], name) :: rest)))
  = (if length name <? 2 then [] else [strip (skipn 1 name)]) ++ map snd rest
  /\ ContextFor.get_modified_files
       (Completed (porcelain (([32%N; y], name) :: rest)))
     <> name :: map snd rest.
Proof.
  intros Hy He Hrest.
  assert (ContextFor.get_modified_files
            (Completed (porcelain (([32%N; y], name) :: rest)))
          = (if length name <? 2 then [] else [strip (skipn 1 name)])
            ++ map snd rest) as E.
  { unfold ContextFor.get_modified_files. rewrite porcelain_lines.
    destruct (entries_lines_ok _ Hrest) as [Hol Hen].
    destruct (status_line_ok _ He) as [Hol1 Hen1].
    assert (stdout_lines
              (flat_map (fun l => l ++ [nl])
                 (map status_line (([32%N; y], name) :: rest)))
            = (y :: 32%N :: name) :: map status_line rest) as ->.
    { rewrite <- (stdout_lines_text y (32%N :: name) (map status_line rest) Hy).
      - reflexivity.
      - constructor; [|done]. unfold status_line in Hol1. cbn [fst snd app] in Hol1.
        unfold one_line in *. cbn [forallb] in *.
        by apply andb_prop in Hol1 as [_ ->].
      - constructor; [|done]. destruct Hen1 as (u & d & Eu & Hd).
        unfold status_line in Eu. cbn [fst snd app] in Eu.
        destruct u as [|x u]; [discriminate Eu|]. injection Eu as _ Eu.
        exists u, d. by rewrite Eu. }
    destruct He as (_ & _ & Hne & _ & Hs). cbn [snd] in *.
    destruct name as [|a [|b t]]; [done| |].
    - cbn [ContextFor.status_files length Nat.ltb Nat.leb app].
      by apply status_files_entries.
    - cbn [ContextFor.status_files length Nat.ltb Nat.leb app skipn].
      pose proof (strip_tail_nonempty a b t Hs) as Hn.
      destruct (strip (b :: t)) as [|? ?] eqn:Et; [done|].
      by rewrite status_files_entries. }
  split; [exact E|]. rewrite E. clear E.
  destruct name as [|a [|b t]]; cbn [length Nat.ltb Nat.leb app skipn].
  - intros H. apply (f_equal (@length _)) in H. cbn in H. lia.
  - intros H. apply (f_equal (@length _)) in H. cbn in H. lia.
  - intros [= H]. apply (f_equal (@length _)) in H.
    pose proof (strip_length (b :: t)). cbn [length] in *. lia.
Qed.

(** Witness of [modified_files_read]: a staged and an unstaged change. *)
Lemma modified_files_read_witness :
  ContextFor.get_modified_files
    (Completed (lit "M  src/app.py" ++ [nl] ++ lit " M README.md" ++ [nl]))
  = [lit "src/app.py"; lit "README.md"].
Proof.
  apply (modified_files_read
           [(lit "M ", lit "src/app.py"); (lit " M", lit "README.md")]).
  - repeat constructor; by_computing.
  - reflexivity.
Defined.

(** Witness of [first_path_cut]: the unstaged change comes first. *)
Lemma first_path_cut_witness :
  ContextFor.get_modified_files
    (Completed (lit " M README.md" ++ [nl] ++ lit "M  src/app.py" ++ [nl]))
  = [lit "EADME.md"; lit "src/app.py"].
Proof.
  apply (proj1 (first_path_cut 77%N (lit "README.md")
                  [(lit "M ", lit "src/app.py")] eq_refl
                  ltac:(repeat split; by_computing)
                  ltac:(repeat constructor; by_computing))).
Defined.

(** ** Lines of a text *)

Lemma splitlines_nil s : splitlines s = [] -> s = [].
Proof.
  destruct s as [|c s]; [done|]. cbn [splitlines].
  destruct (char_eqb c cr).
  - destruct s as [|d s]; [done|]. by destruct (char_eqb d nl).
  - destruct (linebreak c); [done|]. by destruct (splitlines s).
Qed.

(** A newline closes the line it follows, whatever comes after it. *)
Lemma splitlines_app_nl a : forall rest,
  splitlines (a ++ nl :: rest) = splitlines (a ++ [nl]) ++ splitlines rest.
Proof.
  induction a as [a IH] using (induction_ltof1 _ (@length _)); unfold ltof in IH.
  intros rest. destruct a as [|c a]; [done|].
  cbn [app splitlines]. destruct (char_eqb c cr) eqn:Ec.
  - destruct a as [|d a]; [done|]. cbn [app].
    destruct (char_eqb d nl).
    + rewrite (IH a) by (cbn; lia). done.
    + pose proof (IH (d :: a) ltac:(cbn; lia) rest) as H. cbn [app] in H.
      by rewrite H.
  - destruct (linebreak c).
    + rewrite (IH a) by (cbn; lia). done.
    + rewrite (IH a) by (cbn; lia).
      destruct (splitlines (a ++ [nl])) as [|l0 ls0] eqn:E; [|done].
      apply splitlines_nil in E. by destruct a.
Qed.

(** The first line is a beginning of the text; every line is a part of
    it. *)
Lemma splitlines_head s l ls : splitlines s = l :: ls -> exists b, s = l ++ b.
Proof.
  revert l ls. induction s as [|c s IH]; intros l ls H; [done|].
  cbn [splitlines] in H. destruct (char_eqb c cr).
  - destruct s as [|d s]; [injection H as <- _; by eexists|].
    destruct (char_eqb d nl); injection H as <- _; by eexists.
  - destruct (linebreak c); [injection H as <- _; by eexists|].
    destruct (splitlines s) as [|l0 ls0] eqn:E.
    + injection H as <- _. apply splitlines_nil in E as ->. by exists [].
    + injection H as <- _. destruct (IH l0 ls0 eq_refl) as [b ->]. by exists b.
Qed.

Lemma splitlines_part s : forall l,
  l ∈ splitlines s -> exists a b, s = a ++ l ++ b.
Proof.
  induction s as [s IH] using (induction_ltof1 _ (@length _)); unfold ltof in IH.
  intros l Hl. destruct s as [|c s]; [by apply elem_of_nil in Hl|].
  assert (forall s', length s' <= length s -> l ∈ splitlines s' ->
            forall pre, c :: s = pre ++ s' -> exists a b, c :: s = a ++ l ++ b)
    as Hrec.
  { intros s' Hlen Hin pre Hpre.
    destruct (IH s' ltac:(cbn; lia) l Hin) as (a & b & ->).
    exists (pre ++ a), b. by rewrite Hpre, <- app_assoc. }
  cbn [splitlines] in Hl. destruct (char_eqb c cr).
  - destruct s as [|d s].
    + apply list_elem_of_singleton in Hl as ->. by exists [], [c].
    + destruct (char_eqb d nl).
      * apply elem_of_cons in Hl as [->|Hl]; [by exists [], (c :: d :: s)|].
        apply (Hrec s ltac:(cbn; lia) Hl [c; d]). done.
      * apply elem_of_cons in Hl as [->|Hl]; [by exists [], (c :: d :: s)|].
        apply (Hrec (d :: s) ltac:(cbn; lia) Hl [c]). done.
  - destruct (linebreak c).
    + apply elem_of_cons in Hl as [->|Hl]; [by exists [], (c :: s)|].
      apply (Hrec s ltac:(lia) Hl [c]). done.
    + destruct (splitlines s) as [|l0 ls0] eqn:E.
      * apply list_elem_of_singleton in Hl as ->. apply splitlines_nil in E as ->.
        by exists [], [].
      * apply elem_of_cons in Hl as [->|Hl].
        -- destruct (splitlines_head s l0 ls0 E) as [b ->]. by exists [], b.
        -- apply (Hrec s ltac:(lia)) with (pre := [c]); [|done].
           rewrite E. by apply list_elem_of_further.
Qed.

(** A literal found in a line is found in the text. *)
Lemma str_in_line p s l :
  l ∈ splitlines s -> str_in p l = true -> str_in p s = true.
Proof.
  intros Hl Hp. destruct (splitlines_part s l Hl) as (a & b & ->).
  apply str_in_app_r. by apply str_in_app_l.
Qed.

Lemma no_literal_lines p s :
  str_in p s = false -> Forall (fun l => str_in p l = false) (splitlines s).
Proof.
  intros H. apply Forall_forall. intros l Hl.
  destruct (str_in p l) eqn:E; [|done].
  apply (str_in_line p s l Hl) in E. congruence.
Qed.

(** ** Removing the entry from the pre-commit configuration *)

Section Precommit.
Import InstallHooks.




Lemma marker_no_nl : nl ∉ CONTEXT_HOOK_MARKER.
Proof. apply not_in_lit. by_computing. Qed.









End Precommit.



(** ** Hook files: install, then uninstall *)

Section HookFiles.
Import InstallHooks.

Lemma shebang_is_comment line :
  startswith line (lit "#!") = true -> startswith line (lit "#") = true.
Proof.
  destruct line as [|c line]; [done|]. cbn [lit startswith].
  intros H. apply andb_prop in H as [-> _]. by destruct line.
Qed.

Lemma skip_header_from lines : forall i,
  skip_header lines i i = i + comment_head lines.
Proof.
  induction lines as [|line rest IH]; intros i; cbn [skip_header comment_head].
  - lia.
  - destruct (startswith line (lit "#!")) eqn:E.
    + rewrite (shebang_is_comment _ E), IH. lia.
    + rewrite Nat.eqb_refl, andb_true_r.
      destruct (startswith line (lit "#")); [rewrite IH|]; lia.
Qed.

Lemma comment_head_lines lines :
  Forall (fun l => startswith l (lit "#") = true)
    (take (comment_head lines) lines)
  /\ match drop (comment_head lines) lines with
     | l :: _ => startswith l (lit "#") = false
     | [] => True
     end.
Proof.
  induction lines as [|line rest [IH1 IH2]]; [by split|].
  cbn [comment_head]. destruct (startswith line (lit "#")) eqn:E.
  - cbn [take drop]. split; [by constructor|done].
  - by split.
Qed.

(** X17.  The loop that passes over the head of a template passes over every
    line at its head that starts with [#], however many there are: the
    block appended to an existing hook is the template from its first line
    that does not start with [#]. *)
Theorem appended_skips_comment_head template :
  let lines := splitlines template in
  let n := comment_head lines in
  skip_header lines 0 0 = n
  /\ appended template
     = [nl] ++ lit "# --- progressive-context hooks ---" ++ [nl]
       ++ join [nl] (drop n lines) ++ [nl]
  /\ Forall (fun l => startswith l (lit "#") = true) (take n lines)
  /\ match drop n lines with
     | l :: _ => startswith l (lit "#") = false
     | [] => True
     end.
Proof.
  cbn zeta. split; [apply (skip_header_from _ 0)|].
  split; [unfold appended; by rewrite (skip_header_from _ 0)|].
  apply comment_head_lines.
Qed.

Lemma has_signature_app_r s t :
  has_signature t = true -> has_signature (s ++ t) = true.
Proof.
  unfold has_signature, CONTEXT_HOOK_SIGNATURES. cbn [existsb].
  rewrite !orb_false_r. intros H. apply orb_prop in H as [H|H].
  - by rewrite (str_in_app_r _ s t H).
  - rewrite (str_in_app_r _ s t H). apply orb_true_r.
Qed.

Lemma write_hook_appends h f template :
  has_signature (text f) = false ->
  write_hook h (Some f) template
  = (Some (File (text f ++ appended template) (N.lor (mode f) 73)), true).
Proof.
  unfold has_signature, CONTEXT_HOOK_SIGNATURES, write_hook. cbn [existsb].
  rewrite orb_false_r. by intros ->.
Qed.

(** The lines of a text closed by a newline: those of the text, and at
    most one empty line more. *)
Lemma splitlines_closed u :
  exists t, splitlines (u ++ [nl]) = splitlines u ++ t /\ (t = [] \/ t = [[]]).
Proof.
  induction u as [u IH] using (induction_ltof1 _ (@length _)); unfold ltof in IH.
  destruct u as [|c u]; [exists [[]]; by split; [|right]|].
  cbn [app splitlines]. destruct (char_eqb c cr).
  - destruct u as [|d u]; [exists []; by split; [|left]|].
    cbn [app]. destruct (char_eqb d nl).
    + destruct (IH u ltac:(cbn; lia)) as (t & -> & Ht). by exists t.
    + destruct (IH (d :: u) ltac:(cbn; lia)) as (t & E & Ht).
      cbn [app] in E. rewrite E. by exists t.
  - destruct (linebreak c).
    + destruct (IH u ltac:(cbn; lia)) as (t & -> & Ht). by exists t.
    + destruct (IH u ltac:(cbn; lia)) as (t & -> & Ht).
      destruct (splitlines u) as [|l ls] eqn:E.
      * apply splitlines_nil in E as ->. exists [].
        split; [|by left]. by destruct Ht as [->| ->].
      * by exists t.
Qed.

Lemma filter_closed (P : str -> Prop) `{forall l, Decision (P l)} u :
  ~ P [] -> filter P (splitlines (u ++ [nl])) = filter P (splitlines u).
Proof.
  intros Hn. destruct (splitlines_closed u) as (t & -> & [->| ->]).
  - by rewrite app_nil_r.
  - rewrite filter_app, filter_cons_False, filter_nil by done.
    by rewrite app_nil_r.
Qed.

Lemma clean_lines_user pre : forall rest,
  Forall (fun l => str_in CONTEXT_HOOK_MARKER l = false) pre ->
  clean_lines (pre ++ rest) false
  = filter (fun l => dropped l = false) pre ++ clean_lines rest false.
Proof.
  induction pre as [|l pre IH]; intros rest H; [done|].
  inversion H as [|? ? Hl Hpre]; subst.
  cbn [app clean_lines]. rewrite Hl. cbn [andb].
  rewrite filter_cons. fold (dropped l).
  destruct (dropped l) eqn:E.
  - rewrite decide_False by done. by apply IH.
  - rewrite decide_True by done. cbn [app]. f_equal. by apply IH.
Qed.

Lemma clean_lines_dropped lines : forall skip_block,
  forallb dropped lines = true -> clean_lines lines skip_block = [].
Proof.
  induction lines as [|l lines IH]; intros skip_block H; [done|].
  cbn [forallb] in H. apply andb_prop in H as [Hl H]. unfold dropped in Hl.
  cbn [clean_lines]. rewrite Hl.
  repeat case_match; by apply IH.
Qed.

Lemma clean_lines_marker m rest skip_block :
  str_in CONTEXT_HOOK_MARKER m = true ->
  clean_lines (m :: rest) skip_block = clean_lines rest true.
Proof. intros H. cbn [clean_lines]. by rewrite H. Qed.

Lemma body_lines template :
  let body :=
    drop (skip_header (splitlines template) 0 0) (splitlines template) in
  splitlines (join [nl] body ++ [nl])
  = match body with [] => [[]] | _ => body end.
Proof.
  cbn zeta. apply splitlines_join_nl.
  apply Forall_forall. intros l Hl.
  apply (Forall_forall one_line (splitlines template));
    [apply splitlines_one_line|].
  apply (elem_of_sublist _ _ _ Hl). apply sublist_drop.
Qed.

(** The lines of a hook file after the installer appended its block. *)
Lemma appended_lines u template :
  let body :=
    drop (skip_header (splitlines template) 0 0) (splitlines template) in
  splitlines (u ++ appended template)
  = splitlines (u ++ [nl])
    ++ lit "# --- progressive-context hooks ---"
    :: match body with [] => [[]] | _ => body end.
Proof.
  cbn zeta. unfold appended. cbn [app].
  rewrite splitlines_app_nl. f_equal.
  rewrite splitlines_line by by_computing. f_equal. apply body_lines.
Qed.

(** X18.  Installing into a hook of the user and uninstalling again gives
    back the lines of the user's hook that the cleanup does not drop: its
    foreign lines and its shebang lines, in order; the comments and blank
    lines of the hook are gone, and the file stays executable. *)
Theorem user_hook_round_trip h f template :
  has_signature (text f) = false ->
  str_in CONTEXT_HOOK_MARKER (text f) = false ->
  filter foreign (splitlines (text f)) <> [] ->
  removable_template template = true ->
  _remove_hook_file (fst (write_hook h (Some f) template))
  = (Some (File (join [nl] (filter (fun l => dropped l = false)
                               (splitlines (text f))) ++ [nl])
             (N.lor (mode f) 73)), true).
Proof.
  intros Hsig Hmark Hforeign Ht.
  unfold removable_template in Ht. apply andb_prop in Ht as [Hts Htd].
  rewrite write_hook_appends by done. cbn [fst].
  unfold _remove_hook_file. cbn [text mode].
  rewrite (has_signature_app_r _ _ Hts). cbn [negb].
  rewrite appended_lines. cbn zeta.
  generalize dependent (drop (skip_header (splitlines template) 0 0)
                          (splitlines template)).
  intros body Htd.
  assert (forallb dropped (match body with [] => [[]] | _ => body end) = true)
    as HB by (by destruct body).
  change (fun l => _is_ours l = false) with foreign.
  destruct (filter foreign (splitlines (text f ++ [nl]) ++ _))
    as [|x xs] eqn:E.
  { exfalso. apply Hforeign. rewrite filter_app in E.
    apply app_eq_nil in E as [E _].
    rewrite filter_closed in E by (by intros ?). done. }
  rewrite clean_lines_user.
  2:{ apply no_literal_lines.
      change (text f ++ [nl]) with (text f ++ nl :: []).
      rewrite str_in_sep by apply marker_no_nl. by rewrite Hmark. }
  rewrite clean_lines_marker by by_computing.
  rewrite (clean_lines_dropped _ true HB), app_nil_r.
  by rewrite filter_closed by (by intros ?).
Qed.

Lemma fresh_hook_removed h template :
  owned_template template = true ->
  _remove_hook_file (fst (write_hook h None template)) = (None, true).
Proof.
  intros Ht. apply andb_prop in Ht as [Hs Ho].
  unfold write_hook. cbn [fst]. unfold _remove_hook_file, make_executable.
  cbn [text mode]. rewrite Hs. cbn [negb].
  destruct (filter _ (splitlines template)) as [|x xs] eqn:E; [done|].
  exfalso.
  assert (x ∈ x :: xs) as Hx by apply list_elem_of_here.
  rewrite <- E in Hx. apply list_elem_of_filter in Hx as [Hx Hin].
  rewrite forallb_forall in Ho. apply list_elem_of_In, Ho in Hin. congruence.
Qed.

(** X19.  On a repository without hook files of its own, installing and
    then uninstalling leaves no hook file behind.  With Husky the
    repository is as it was.  With plain git hooks the directory
    [.githooks/] is removed, when it holds nothing else, and
    [core.hooksPath] is unset, when the configuration can be written: the
    value it had before the install is not put back. *)
Theorem fresh_install_then_uninstall h r others :
  (forall name, owned_template (read_template h name) = true) ->
  (husky r = true -> husky_post_commit r = None -> husky_post_merge r = None ->
   uninstall h others (install h r) = r)
  /\ (husky r = false -> precommit_config r = None ->
      githooks_post_commit r = None -> githooks_post_merge r = None ->
      uninstall h false (install h r)
      = Repo false (husky_post_commit r) (husky_post_merge r) None false
          None None (if config_writable h then [] else hooks_path r)).
Proof.
  intros Hok. destruct r as [hu hpc hpm pc gd gpc gpm hp].
  cbn [husky husky_post_commit husky_post_merge precommit_config
         githooks_post_commit githooks_post_merge hooks_path].
  split.
  - intros -> -> ->. unfold install, uninstall, detect_husky.
    cbn [husky]. unfold install_husky, uninstall_husky.
    cbn [husky husky_post_commit husky_post_merge precommit_config
           githooks_dir githooks_post_commit githooks_post_merge hooks_path].
    by rewrite !fresh_hook_removed.
  - intros -> -> -> ->. unfold install, uninstall, detect_husky, detect_precommit.
    cbn [husky precommit_config].
    change (bool_decide (is_Some (@None str))) with false. cbn iota.
    unfold install_plain_git.
    cbn [husky husky_post_commit husky_post_merge precommit_config
           githooks_dir githooks_post_commit githooks_post_merge hooks_path].
    change (bool_decide (is_Some (@None str))) with false. cbn iota.
    unfold uninstall_plain_git.
    cbn [husky husky_post_commit husky_post_merge precommit_config
           githooks_dir githooks_post_commit githooks_post_merge hooks_path].
    rewrite !fresh_hook_removed by done. cbn [fst]. f_equal.
    destruct (config_writable h); [done|].
    by destruct (bool_decide _).
Qed.
End HookFiles.

(** Witness of [user_hook_round_trip]. *)
Lemma user_hook_round_trip_witness :
  InstallHooks._remove_hook_file
    (fst (InstallHooks.write_hook sample_host
            (Some (InstallHooks.File user_hook 420))
            InstallHooks._POST_COMMIT_HOOK))
  = (Some (InstallHooks.File
             (lit "#!/bin/sh" ++ [nl] ++ lit "make lint" ++ [nl]) 493), true).
Proof.
  apply (user_hook_round_trip sample_host (InstallHooks.File user_hook 420)
           InstallHooks._POST_COMMIT_HOOK).
  - vm_compute. reflexivity.
  - vm_compute. reflexivity.
  - vm_compute. discriminate.
  - vm_compute. reflexivity.
Defined.

(** Witness of [fresh_install_then_uninstall]. *)
Lemma fresh_install_then_uninstall_witness :
  InstallHooks.uninstall sample_host false
    (InstallHooks.install sample_host
       (InstallHooks.Repo false None None None false None None (lit "hooks")))
  = InstallHooks.Repo false None None None false None None [].
Proof.
  apply (proj2 (fresh_install_then_uninstall sample_host
                  (InstallHooks.Repo false None None None false None None
                     (lit "hooks")) false
                  ltac:(intros []; vm_compute; reflexivity))
           eq_refl eq_refl eq_refl eq_refl).
Defined.

(** ** When the update tool writes *)

Section UpdateRuns.
Import ContextUpdateHash.
Variable fnmatch : str -> str -> bool.

Lemma compute_hash_ret_iff git ws :
  (exists h, compute_hash fnmatch git ws = Ret h)
  <-> ~ hashing_fails fnmatch git ws.
Proof.
  split.
  - intros [h Hh] Hf. apply compute_hash_failure in Hf as (_ & _ & msg & Hm).
    rewrite Hm in Hh. discriminate.
  - intros Hn. apply compute_hash_success in Hn as (h & _ & _ & -> & _).
    by exists h.
Qed.

Lemma compute_hash_exit git ws c msg :
  compute_hash fnmatch git ws = SysExit c msg -> c = 1.
Proof.
  unfold compute_hash. destruct (git_ls_files git); [|by intros [= <- _]].
  destruct (decide _); [done|].
  destruct (git_hash_object git _); [done|by intros [= <- _]].
Qed.

(** X20.  The update tool writes the file exactly when the commit check
    tracks the document (the text read holds a marker block with a non-empty
    watches list) and no git command of the hashing fails on that list; on
    every other path it ends with status 1 and writes nothing. *)
Theorem update_writes_iff git today raw :
  let content := universal_newlines raw in
  ((exists new_content,
      main fnmatch git today (Some (Utf8 raw)) = Ret new_content)
   <-> exists ws, ContextCheckWatches.tracked_watches content = Some ws
                  /\ ~ hashing_fails fnmatch git ws)
  /\ (forall file new_content,
        main fnmatch git today file = Ret new_content ->
        exists raw', file = Some (Utf8 raw'))
  /\ forall file code message,
       main fnmatch git today file = SysExit code message -> code = 1.
Proof.
  cbn zeta. set (content := universal_newlines raw).
  split; [|split].
  - pose proof (update_block_audit content) as Hb.
    unfold update_block, ContextAudit.freshness_block in Hb.
    unfold main, ContextCheckWatches.tracked_watches,
      ContextCheckWatches.FRESHNESS_PATTERN.
    cbn [read_text]. fold content.
    destruct (re_search FRESHNESS_PATTERN content) as [m|],
      (re_search ContextAudit.FRESHNESS_PATTERN content) as [m'|];
      try discriminate Hb.
    + injection Hb as <-.
      destruct (parse_watches (group m 2 content)) as [|w ws].
      * split; [by intros [? ?]|by intros (? & ? & _)].
      * split.
        -- intros [new H]. exists (w :: ws). split; [done|].
           apply compute_hash_ret_iff.
           destruct (compute_hash fnmatch git (w :: ws)) as [h|]; [|done].
           by exists h.
        -- intros (ws' & [= <-] & Hn).
           apply compute_hash_ret_iff in Hn as [h ->]. by eexists.
    + split; [by intros [? ?]|by intros (? & ? & _)].
  - intros file new_content. unfold main.
    destruct file as [[raw'| |]|]; try done. intros _. by exists raw'.
  - intros file code message. unfold main.
    destruct file as [f|]; [|by intros [= <- _]].
    destruct (read_text f) as [e|c]; [by intros [= <- _]|].
    destruct (re_search FRESHNESS_PATTERN c) as [m|]; [|by intros [= <- _]].
    destruct (parse_watches _) as [|w ws]; [by intros [= <- _]|].
    destruct (compute_hash fnmatch git (w :: ws)) as [h|c' msg] eqn:E; [done|].
    intros [= <- _]. by apply compute_hash_exit in E.
Qed.
End UpdateRuns.

(** Witness of [update_writes_iff]. *)
Lemma update_writes_iff_witness :
  exists new_content,
    ContextUpdateHash.main glob_match sample_git (lit "2026-11-04")
      (Some (Utf8 sample_doc)) = ContextUpdateHash.Ret new_content.
Proof.
  apply (proj2 (proj1 (update_writes_iff glob_match sample_git
                         (lit "2026-11-04") sample_doc))).
  exists [lit "src/*"]. split; [vm_compute; reflexivity|].
  intros [H|[_ H]]; vm_compute in H; discriminate.
Defined.

(** ** Uninstalling twice *)

Section RemoveTwice.
Import InstallHooks.

Lemma signature_no_nl sig :
  sig ∈ CONTEXT_HOOK_SIGNATURES -> (nl ∉ sig) /\ sig <> [].
Proof.
  unfold CONTEXT_HOOK_SIGNATURES. intros H.
  apply elem_of_cons in H as [->|H]; [split; [apply not_in_lit; by_computing|done]|].
  apply list_elem_of_singleton in H as ->.
  split; [apply not_in_lit; by_computing|done].
Qed.

(** Lines without a call signature give a text without one. *)
Lemma no_signature_joined lines :
  Forall (fun l => has_signature l = false) lines ->
  has_signature (join [nl] lines ++ [nl]) = false.
Proof.
  intros H. unfold has_signature.
  apply not_true_iff_false. intros E. apply existsb_exists in E as (sig & Hsig & E).
  apply list_elem_of_In in Hsig.
  destruct (signature_no_nl sig Hsig) as [Hnl Hne].
  change (join [nl] lines ++ [nl]) with (join [nl] lines ++ nl :: []) in E.
  rewrite str_in_sep in E by done.
  rewrite str_in_join in E by done.
  assert (str_in sig [] = false) as E0 by (by destruct sig).
  rewrite E0, orb_false_r in E.
  apply existsb_exists in E as (l & Hl & E).
  rewrite Forall_forall in H. apply list_elem_of_In, H in Hl.
  unfold has_signature in Hl.
  assert (existsb (fun sig => str_in sig l) CONTEXT_HOOK_SIGNATURES = true) as E'.
  { apply existsb_exists. exists sig. split; [by apply list_elem_of_In|done]. }
  congruence.
Qed.

(** X21.  When no shebang line of a hook file carries a call signature, a
    second cleanup of the file changes nothing: the file the first cleanup
    left holds no call signature, and the second reports that nothing was
    removed. *)
Theorem remove_hook_file_twice hook_file :
  (forall f l, hook_file = Some f -> l ∈ splitlines (text f) -> shebang l ->
     has_signature l = false) ->
  _remove_hook_file (fst (_remove_hook_file hook_file))
  = (fst (_remove_hook_file hook_file), false).
Proof.
  intros Hsh. destruct hook_file as [f|]; [|done].
  specialize (Hsh f). unfold _remove_hook_file at 2 3.
  destruct (has_signature (text f)) eqn:Hsig; cbn [negb fst].
  2:{ unfold _remove_hook_file. by rewrite Hsig. }
  destruct (filter _ (splitlines (text f))) as [|x xs] eqn:E; [done|].
  cbn [fst]. unfold _remove_hook_file. cbn [text].
  rewrite no_signature_joined; [done|].
  apply Forall_forall. intros l Hl.
  pose proof (elem_of_sublist _ _ _ Hl (clean_lines_sublist _ false)) as Hin.
  pose proof (clean_lines_kept (splitlines (text f)) false) as Hk.
  rewrite Forall_forall in Hk. destruct (Hk l Hl) as [Hf|Hs].
  - by apply foreign_inv in Hf as (_ & ? & _).
  - by apply Hsh.
Qed.
End RemoveTwice.

(** Witness of [remove_hook_file_twice]. *)
Lemma remove_hook_file_twice_witness :
  InstallHooks._remove_hook_file
    (fst (InstallHooks._remove_hook_file
            (Some (InstallHooks.File user_hook_with_block 493))))
  = (Some (InstallHooks.File user_hook_cleaned 493), false).
Proof.
  apply (remove_hook_file_twice
           (Some (InstallHooks.File user_hook_with_block 493))).
  intros f l [= <-] Hl Hs. cbn [InstallHooks.text] in Hl.
  vm_compute in Hl.
  repeat (apply elem_of_cons in Hl as [->|Hl];
          [first [ vm_compute; reflexivity | vm_compute in Hs; discriminate Hs ]|]).
  by apply elem_of_nil in Hl.
Defined.

(** ** The context index *)

Section IndexRows.
Import ContextFor.

(** The parts of a split hold what the text holds, and not the
    separator. *)
Lemma split_forallb (q : char -> bool) sep s :
  forallb q s = true -> Forall (fun p => forallb q p = true) (split sep s).
Proof.
  induction s as [|c s IH]; intros H; [by repeat constructor|].
  cbn [forallb] in H. apply andb_prop in H as [Hc H]. cbn [split].
  specialize (IH H). destruct (char_eqb c sep); [by constructor|].
  destruct (split sep s) as [|p ps]; [by repeat constructor; cbn; rewrite Hc|].
  inversion IH; subst. constructor; [|done]. cbn. by rewrite Hc.
Qed.

Lemma split_no_sep sep s :
  Forall (fun p => forallb (fun c => negb (char_eqb c sep)) p = true)
    (split sep s).
Proof.
  induction s as [|c s IH]; [by repeat constructor|]. cbn [split].
  destruct (char_eqb c sep) eqn:E; [by constructor|].
  destruct (split sep s) as [|p ps]; [by repeat constructor; cbn; rewrite E|].
  inversion IH; subst. constructor; [|done]. cbn. by rewrite E.
Qed.

Lemma forallb_rstrip_by {f} (q : char -> bool) s :
  forallb q s = true -> forallb q (rstrip_by f s) = true.
Proof.
  intros H. unfold rstrip_by. rewrite forallb_rev.
  apply forallb_lstrip_by. by rewrite forallb_rev.
Qed.

Lemma forallb_strip_chars (q : char -> bool) chars s :
  forallb q s = true -> forallb q (strip_chars chars s) = true.
Proof.
  intros H. unfold strip_chars, rstrip_chars.
  by apply forallb_rstrip_by, forallb_lstrip_by.
Qed.

(** Stripping twice is stripping once, whatever is stripped. *)
Lemma strip_by_idem f s :
  rstrip_by f (lstrip_by f (rstrip_by f (lstrip_by f s)))
  = rstrip_by f (lstrip_by f s).
Proof.
  set (x := lstrip_by f s).
  assert (lstrip_by f x = x) as Hx by apply lstrip_by_idem.
  destruct (rstrip_by_split f x) as (t & E & Ht).
  destruct (rstrip_by f x) as [|c u] eqn:Eu; [done|].
  assert (lstrip_by f (c :: u) = c :: u) as ->.
  { apply lstrip_by_fixed_head. rewrite E in Hx. cbn [app] in Hx.
    by apply lstrip_by_fixed_head in Hx. }
  rewrite <- Eu. apply rstrip_by_idem.
Qed.

Lemma strip_chars_idem chars s :
  strip_chars chars (strip_chars chars s) = strip_chars chars s.
Proof. apply strip_by_idem. Qed.

Lemma not_elem_forallb c (l : str) :
  forallb (fun d => negb (char_eqb d c)) l = true <-> c ∉ l.
Proof.
  split; [apply not_in_lit|]. intros H. apply forallb_forall.
  intros d Hd. apply negb_true_iff. unfold char_eqb.
  destruct (N.eqb_spec d c) as [->|]; [|done].
  by apply list_elem_of_In in Hd.
Qed.

Lemma glob_rows_entries raw_globs context_file (q : char -> bool) :
  Forall (fun g => forallb q g = true) raw_globs ->
  Forall (fun e => fst e <> [] /\ strip (fst e) = fst e
                   /\ forallb q (fst e) = true /\ snd e = context_file)
    (glob_rows raw_globs context_file).
Proof.
  induction 1 as [|g gs Hg _ IH]; [constructor|]. cbn [glob_rows].
  destruct (strip g) as [|c g'] eqn:E; [done|].
  constructor; [|done]. cbn [fst snd]. rewrite <- E.
  repeat split; [by rewrite E|apply strip_strip|by apply forallb_strip].
Qed.

Section WithLower.
Variable lower : str -> str.

Lemma index_row_entries line :
  one_line line -> Forall index_entry (index_row lower line).
Proof.
  intros Hl. unfold index_row.
  destruct (startswith (strip line) [bar]); cbn [negb]; [|constructor].
  set (q := fun c => negb (is_break c) && negb (char_eqb c bar)).
  assert (Forall (fun c => forallb q c = true)
            (filter (fun c => c <> []) (map strip (split bar (strip line)))))
    as Hcells.
  { apply Forall_forall. intros c Hc.
    apply list_elem_of_filter in Hc as [_ Hc].
    apply list_elem_of_fmap in Hc as (p & -> & Hp).
    apply forallb_strip.
    pose proof (split_no_sep bar (strip line)) as H1.
    pose proof (split_forallb (fun c => negb (is_break c)) bar (strip line)
                  (one_line_strip _ Hl)) as H2.
    rewrite Forall_forall in H1, H2. specialize (H1 p Hp). specialize (H2 p Hp).
    unfold q. clear -H1 H2. induction p as [|c p IH]; [done|].
    cbn [forallb] in *. apply andb_prop in H1 as [-> H1].
    apply andb_prop in H2 as [-> H2]. by apply IH. }
  destruct (filter _ _) as [|glob_cell [|file_cell rest]]; try constructor.
  inversion Hcells as [|? ? Hg Hrest]; subst.
  inversion Hrest as [|? ? Hf _]; subst.
  destruct (_ || _); [constructor|].
  destruct (strip_chars [backtick] file_cell) as [|c f] eqn:Ef; [constructor|].
  assert (forallb q (c :: f) = true) as Hqf
    by (rewrite <- Ef; by apply forallb_strip_chars).
  set (q' := fun c => q c && negb (char_eqb c comma)).
  assert (Forall (fun g => forallb q' g = true)
            (map (fun g => strip_chars [backtick] (strip g))
               (split comma glob_cell))) as Hraw.
  { apply Forall_forall. intros g Hin.
    apply list_elem_of_fmap in Hin as (p & -> & Hp).
    apply forallb_strip_chars, forallb_strip.
    pose proof (split_no_sep comma glob_cell) as H1.
    pose proof (split_forallb q comma glob_cell Hg) as H2.
    rewrite Forall_forall in H1, H2. specialize (H1 p Hp). specialize (H2 p Hp).
    unfold q'. clear -H1 H2. induction p as [|d p IH]; [done|].
    cbn [forallb] in *. apply andb_prop in H1 as [-> H1].
    apply andb_prop in H2 as [-> H2]. by apply IH. }
  eapply Forall_impl; [apply (glob_rows_entries _ _ q' Hraw)|].
  intros [g f'] (Hne & Hs & Hq & Hf'). cbn [fst snd] in *. subst f'.
  assert (forall (x : str), forallb q x = true -> one_line x /\ bar ∉ x) as Hq1.
  { intros x Hx. split.
    - unfold one_line. clear -Hx. induction x as [|d x IH]; [done|].
      cbn [forallb] in *. apply andb_prop in Hx as [Hd Hx].
      unfold q in Hd. apply andb_prop in Hd as [-> _]. by apply IH.
    - apply not_elem_forallb. clear -Hx. induction x as [|d x IH]; [done|].
      cbn [forallb] in *. apply andb_prop in Hx as [Hd Hx].
      unfold q in Hd. apply andb_prop in Hd as [_ ->]. by apply IH. }
  assert (forallb q g = true /\ comma ∉ g) as [Hqg Hcg].
  { split.
    - clear -Hq. induction g as [|d g IH]; [done|].
      cbn [forallb] in *. apply andb_prop in Hq as [Hd Hq].
      unfold q' in Hd. apply andb_prop in Hd as [-> _]. by apply IH.
    - apply not_elem_forallb. clear -Hq. induction g as [|d g IH]; [done|].
      cbn [forallb] in *. apply andb_prop in Hq as [Hd Hq].
      unfold q' in Hd. apply andb_prop in Hd as [_ ->]. by apply IH. }
  destruct (Hq1 g Hqg) as [Hg1 Hg2]. destruct (Hq1 (c :: f) Hqf) as [Hf1 Hf2].
  split; [done|]. cbn [fst snd]. repeat split; try done.
  rewrite <- Ef. apply strip_chars_idem.
Qed.

(** X22.  Every mapping the lookup tool reads from the rows of the context
    index is well formed: the pattern is not empty, has no white space at
    its ends, no line break, no [|] and no comma; the context file is not
    empty, has no line break and no [|], and no backtick at its ends. *)
Theorem index_rows_well_formed section :
  Forall index_entry (index_rows lower section).
Proof.
  unfold index_rows. apply Forall_forall. intros e He.
  apply list_elem_of_In, in_flat_map in He as (line & Hl & He).
  assert (one_line line) as Hline.
  { pose proof (splitlines_one_line section) as H.
    rewrite Forall_forall in H. by apply H, list_elem_of_In. }
  pose proof (index_row_entries line Hline) as H. rewrite Forall_forall in H.
  by apply H, list_elem_of_In.
Qed.

Lemma split_app sep a r :
  sep ∉ a -> split sep (a ++ sep :: r) = a :: split sep r.
Proof.
  induction a as [|c a IH]; intros H; cbn [app split].
  - unfold char_eqb. by rewrite N.eqb_refl.
  - apply not_elem_of_cons in H as [Hc H]. rewrite (IH H).
    unfold char_eqb. by destruct (N.eqb_spec c sep).
Qed.

Lemma split_single sep a : sep ∉ a -> split sep a = [a].
Proof.
  induction a as [|c a IH]; intros H; [done|]. cbn [split].
  apply not_elem_of_cons in H as [Hc H]. rewrite (IH H).
  unfold char_eqb. by destruct (N.eqb_spec c sep).
Qed.

Lemma lstrip_by_pre f pre y :
  forallb f pre = true -> lstrip_by f (pre ++ y) = lstrip_by f y.
Proof.
  induction pre as [|c pre IH]; intros H; [done|]. cbn [forallb] in H.
  apply andb_prop in H as [Hc H]. cbn [app lstrip_by]. rewrite Hc. by apply IH.
Qed.

Lemma rstrip_by_post f y post :
  forallb f post = true -> rstrip_by f (y ++ post) = rstrip_by f y.
Proof.
  intros H. unfold rstrip_by. rewrite rev_app_distr, lstrip_by_pre; [done|].
  by rewrite forallb_rev.
Qed.

Lemma lstrip_by_stop f u c v :
  f c = false -> lstrip_by f (u ++ c :: v) = lstrip_by f u ++ c :: v.
Proof.
  intros Hc. induction u as [|d u IH]; cbn [app lstrip_by]; [by rewrite Hc|].
  by destruct (f d).
Qed.

Lemma rstrip_by_stop f a c r :
  f c = false -> rstrip_by f (a ++ c :: r) = a ++ c :: rstrip_by f r.
Proof.
  intros Hc. unfold rstrip_by.
  change (a ++ c :: r) with (a ++ [c] ++ r).
  rewrite !rev_app_distr. cbn [rev app]. rewrite <- app_assoc. cbn [app].
  rewrite lstrip_by_stop by done.
  rewrite rev_app_distr. cbn [rev]. rewrite rev_involutive.
  by rewrite <- app_assoc.
Qed.

(** What stripping leaves alone, it leaves alone at each end. *)
Lemma strip_by_fixed f x :
  rstrip_by f (lstrip_by f x) = x -> lstrip_by f x = x /\ rstrip_by f x = x.
Proof.
  intros H. destruct (lstrip_by_fixed f x) as [E|E].
  - split; [done|]. by rewrite E in H.
  - pose proof (rstrip_by_length f (lstrip_by f x)). rewrite H in *. lia.
Qed.

(** Text between paddings that are stripped: what is left is the text. *)
Lemma strip_by_wrapped f pre x post :
  forallb f pre = true -> forallb f post = true ->
  x <> [] -> rstrip_by f (lstrip_by f x) = x ->
  rstrip_by f (lstrip_by f (pre ++ x ++ post)) = x.
Proof.
  intros Hpre Hpost Hne Hx. apply strip_by_fixed in Hx as [Hl Hr].
  rewrite lstrip_by_pre by done. rewrite lstrip_by_app by done.
  by rewrite rstrip_by_post.
Qed.

Lemma bq_strip_by f x :
  f backtick = false -> rstrip_by f (lstrip_by f (bq x)) = bq x.
Proof.
  intros H. unfold bq. cbn [lstrip_by]. rewrite H.
  change (backtick :: x ++ [backtick]) with ((backtick :: x) ++ backtick :: []).
  rewrite rstrip_by_stop by done. done.
Qed.

Lemma strip_bq pre x :
  forallb isspace pre = true -> strip (pre ++ bq x) = bq x.
Proof.
  intros H. pose proof (strip_by_wrapped isspace pre (bq x) [] H eq_refl) as E.
  rewrite app_nil_r in E. apply E; [done|]. by apply bq_strip_by.
Qed.

Lemma strip_chars_bq x :
  x <> [] -> strip_chars [backtick] x = x -> strip_chars [backtick] (bq x) = x.
Proof.
  intros Hne Hx.
  exact (strip_by_wrapped (fun c => existsb (char_eqb c) [backtick])
           [backtick] x [backtick] eq_refl eq_refl Hne Hx).
Qed.

Lemma glob_cell_split g gs :
  Forall row_glob (g :: gs) ->
  split comma (glob_cell_of (g :: gs))
  = bq g :: map (fun x => lit " " ++ bq x) gs.
Proof.
  revert g. induction gs as [|h gs IH]; intros g Hg.
  - inversion Hg as [|? ? (_ & _ & _ & _ & Hc) _]; subst.
    apply split_single. unfold glob_cell_of, bq. cbn [map join].
    rewrite not_elem_of_cons, not_elem_of_app, list_elem_of_singleton.
    by repeat split.
  - inversion Hg as [|? ? (_ & _ & _ & _ & Hc) Hgs]; subst.
    change (glob_cell_of (g :: h :: gs))
      with (bq g ++ comma :: lit " " ++ glob_cell_of (h :: gs)).
    rewrite split_app.
    2:{ unfold bq. rewrite not_elem_of_cons, not_elem_of_app,
          list_elem_of_singleton. by repeat split. }
    f_equal. cbn [app]. change (lit " ") with [32%N]. cbn [app split].
    change (char_eqb 32%N comma) with false. cbn beta iota.
    rewrite (IH h Hgs). done.
Qed.

Lemma glob_cell_ends g gs :
  exists u, glob_cell_of (g :: gs) = backtick :: u ++ [backtick].
Proof.
  revert g. induction gs as [|h gs IH]; intros g; [by exists g|].
  destruct (IH h) as [u E].
  exists (g ++ backtick :: lit ", " ++ backtick :: u).
  change (glob_cell_of (g :: h :: gs))
    with (bq g ++ lit ", " ++ glob_cell_of (h :: gs)).
  rewrite E. unfold bq. cbn [app]. f_equal.
  rewrite <- !app_assoc. cbn [app]. by do 2 f_equal.
Qed.

Lemma glob_cell_no_bar gs : Forall row_glob gs -> bar ∉ glob_cell_of gs.
Proof.
  induction 1 as [|g gs (_ & _ & _ & Hb & _) Hgs IH]; [by apply not_elem_of_nil|].
  destruct gs as [|h gs].
  - unfold glob_cell_of, bq. cbn [map join].
    rewrite not_elem_of_cons, not_elem_of_app, list_elem_of_singleton.
    by repeat split.
  - change (glob_cell_of (g :: h :: gs))
      with (bq g ++ lit ", " ++ glob_cell_of (h :: gs)).
    unfold bq. rewrite !not_elem_of_app, not_elem_of_cons, not_elem_of_app,
      list_elem_of_singleton.
    repeat split; try done. by apply not_in_lit.
Qed.

Lemma glob_rows_read gs f :
  Forall row_glob gs ->
  glob_rows (map (fun g => strip_chars [backtick] (strip g))
               (map (fun x => lit " " ++ bq x) gs)) f
  = map (fun g => (g, f)) gs.
Proof.
  induction 1 as [|g gs (Hne & Hs & Hb & _) _ IH]; [done|].
  cbn [map glob_rows]. rewrite (strip_bq (lit " ") g eq_refl).
  rewrite (strip_chars_bq g Hne Hb), Hs.
  destruct g; [done|]. by rewrite IH.
Qed.

(** X23.  A row of the context index written as
    [| `g1`, `g2` | `file` | ...] maps each of its patterns, in their
    order, to the file, whatever follows the second cell; when the first
    cell is no header cell and holds no [---]. *)
Theorem index_row_read gs f rest :
  gs <> [] -> Forall row_glob gs -> row_file f ->
  lower (glob_cell_of gs) ∉ HEADER_CELLS ->
  str_in (lit "---") (glob_cell_of gs) = false ->
  index_row lower (table_row gs f ++ rest) = map (fun g => (g, f)) gs.
Proof.
  intros Hne Hgs (Hf & Hfb & Hfbar) Hhead Hdash.
  destruct gs as [|g gs]; [done|]. clear Hne.
  pose proof (glob_cell_no_bar _ Hgs) as Hbar.
  destruct (glob_cell_ends g gs) as [u Hu].
  pose proof (glob_cell_split g gs Hgs) as Hsplit.
  set (cell := glob_cell_of (g :: gs)) in *.
  unfold index_row.
  assert (strip (table_row (g :: gs) f ++ rest)
          = bar :: (lit " " ++ cell ++ lit " ")
            ++ bar :: (lit " " ++ bq f ++ lit " ")
            ++ bar :: rstrip_by isspace rest) as ->.
  { assert (table_row (g :: gs) f ++ rest
            = (bar :: (lit " " ++ cell ++ lit " ")
               ++ bar :: (lit " " ++ bq f ++ lit " ")) ++ bar :: rest) as ->.
    { unfold table_row. fold cell.
      change (lit "| ") with [bar; 32%N].
      change (lit " | ") with [32%N; bar; 32%N].
      change (lit " |") with [32%N; bar]. change (lit " ") with [32%N].
      repeat (rewrite <- app_assoc || cbn [app]). done. }
    unfold strip. set (row := bar :: _ ++ bar :: _).
    change (lstrip_by isspace (row ++ bar :: rest)) with (row ++ bar :: rest).
    rewrite (rstrip_by_stop isspace row bar rest eq_refl). unfold row.
    cbn [app]. f_equal. repeat (rewrite <- app_assoc || cbn [app]). done. }
  cbn [startswith]. change (char_eqb bar bar) with true. cbn [andb negb].
  change (bar :: (lit " " ++ cell ++ lit " ")
            ++ bar :: (lit " " ++ bq f ++ lit " ")
            ++ bar :: rstrip_by isspace rest)
    with ([] ++ bar :: (lit " " ++ cell ++ lit " ")
            ++ bar :: (lit " " ++ bq f ++ lit " ")
            ++ bar :: rstrip_by isspace rest).
  rewrite split_app by apply not_elem_of_nil.
  rewrite split_app.
  2:{ rewrite !not_elem_of_app. repeat split; [by apply not_in_lit|done|by apply not_in_lit]. }
  rewrite split_app.
  2:{ unfold bq. rewrite !not_elem_of_app, not_elem_of_cons, not_elem_of_app,
        list_elem_of_singleton.
      repeat split; try done; by apply not_in_lit. }
  cbn [map].
  assert (strip (lit " " ++ cell ++ lit " ") = cell) as ->.
  { apply (strip_by_wrapped isspace (lit " ") cell (lit " ") eq_refl eq_refl).
    - by rewrite Hu.
    - rewrite Hu. by apply (bq_strip_by isspace u). }
  assert (strip (lit " " ++ bq f ++ lit " ") = bq f) as ->.
  { apply (strip_by_wrapped isspace (lit " ") (bq f) (lit " ") eq_refl eq_refl);
      [done|]. by apply bq_strip_by. }
  change (strip []) with (@nil char).
  rewrite filter_cons, decide_False by (intros H; by apply H).
  rewrite filter_cons, decide_True by (by rewrite Hu).
  rewrite filter_cons, decide_True by done.
  rewrite bool_decide_false by done. rewrite Hdash. cbn [orb].
  rewrite (strip_chars_bq f Hf Hfb). destruct f as [|c f]; [done|].
  rewrite Hsplit. cbn [map glob_rows].
  inversion Hgs as [|? ? (Hg1 & Hg2 & Hg3 & _) Hgs']; subst.
  pose proof (strip_bq [] g eq_refl) as E. cbn [app] in E. rewrite E.
  rewrite (strip_chars_bq g Hg1 Hg3), Hg2.
  destruct g as [|d g]; [done|]. f_equal. by apply glob_rows_read.
Qed.
End WithLower.

(** Witness of [index_row_read]: a row with two patterns and a description. *)
Lemma index_row_read_witness :
  index_row ascii_lower
    (table_row [lit "src/**"; lit "lib/*.py"] (lit "src/.context.md")
     ++ lit " Source tree |  ")
  = [(lit "src/**", lit "src/.context.md");
     (lit "lib/*.py", lit "src/.context.md")].
Proof.
  apply (index_row_read ascii_lower [lit "src/**"; lit "lib/*.py"]
           (lit "src/.context.md") (lit " Source tree |  ")).
  - done.
  - repeat constructor; try (vm_compute; reflexivity); try done;
      apply not_in_lit; vm_compute; reflexivity.
  - repeat split; try (vm_compute; reflexivity); try done;
      apply not_in_lit; vm_compute; reflexivity.
  - vm_compute. intros H. apply list_elem_of_In in H. cbn in H.
    repeat destruct H as [H|H]; try discriminate H; done.
  - vm_compute; reflexivity.
Defined.
End IndexRows.
